(** * xpart: the particle ensemble of [xpart/particles/particles.py]

    A shallow embedding of the [Particles] class (compaction, merge,
    longitudinal kinematics, seeding of the random generator) and of the
    generator of the LocalParticle C interface, followed by the properties
    of the specification that were checked against it. *)

From Stdlib Require Import String Ascii.
From Stdlib Require Import ZArith List Bool Lia Permutation.
From Stdlib Require Import Floats.
From Stdlib Require Uint63.
Import ListNotations.

Local Open Scope string_scope.
Local Open Scope list_scope.
Local Open Scope Z_scope.

(** ** Python exceptions and the state-and-exception monad *)

Inductive exn : Type :=
| AssertionError
| NotImplementedError
| ValueError
| IndexError
| NameError
| AttributeError
| TypeError
| ZeroDivisionError.

Inductive result (A : Type) : Type :=
| Ok (a : A)
| Raise (e : exn).

Arguments Ok {A} a.
Arguments Raise {A} e.

(** A method call runs on a mutable object of type [S]: it returns the object
    as the call left it, together with its value or the exception raised.
    What was written before an exception stays written. *)
Definition St (S A : Type) : Type := S -> S * result A.

Definition ret {S A : Type} (a : A) : St S A := fun s => (s, Ok a).

Definition bind {S A B : Type} (m : St S A) (k : A -> St S B) : St S B :=
  fun s => match m s with
           | (s', Ok a) => k a s'
           | (s', Raise e) => (s', Raise e)
           end.

Definition raise {S A : Type} (e : exn) : St S A := fun s => (s, Raise e).

Definition gets {S A : Type} (f : S -> A) : St S A := fun s => (s, Ok (f s)).

Definition modify {S : Type} (f : S -> S) : St S unit := fun s => (f s, Ok tt).

Definition lift {S A : Type} (r : result A) : St S A := fun s => (s, r).

Definition assert_ {S : Type} (b : bool) : St S unit :=
  if b then ret tt else raise AssertionError.

Declare Scope py_scope.
Delimit Scope py_scope with py.

Notation "x <- m ;; k" := (bind m (fun x => k))
  (at level 100, m at next level, right associativity) : py_scope.
Notation "' pat <- m ;; k" := (bind m (fun x => match x with pat => k end))
  (at level 100, pat pattern, m at next level, right associativity) : py_scope.
Notation "m ;; k" := (bind m (fun _ => k))
  (at level 100, right associativity) : py_scope.

Local Open Scope py_scope.

#[local] Set Warnings "-inexact-float".

(** [for x in xs: body x] *)
Fixpoint for_ {S A : Type} (xs : list A) (body : A -> St S unit) : St S unit :=
  match xs with
  | [] => ret tt
  | x :: rest => body x ;; for_ rest body
  end.

(** ** numpy on one-dimensional arrays

    Arrays are lists; a slice [a:b] is the pair of its optional bounds. *)

Module Np.

(** Python's normalisation of one bound of a slice of an array of length [n]. *)
Definition norm_index (n i : Z) : Z :=
  if i <? 0 then Z.max 0 (i + n) else Z.min i n.

Definition slice_lo (n : Z) (start : option Z) : Z :=
  match start with None => 0 | Some i => norm_index n i end.

Definition slice_hi (n : Z) (stop : option Z) : Z :=
  match stop with None => n | Some i => norm_index n i end.

Definition slice_bounds {A : Type} (vv : list A) (start stop : option Z)
  : nat * nat :=
  let n := Z.of_nat (length vv) in
  let lo := slice_lo n start in
  let hi := slice_hi n stop in
  (Z.to_nat lo, Z.to_nat (Z.max 0 (hi - lo))).

(** [vv[start:stop]] *)
Definition get_slice {A : Type} (vv : list A) (start stop : option Z) : list A :=
  let '(lo, len) := slice_bounds vv start stop in
  firstn len (skipn lo vv).

(** [vv[start:stop] = value] for a scalar [value] *)
Definition fill_slice {A : Type} (vv : list A) (start stop : option Z) (x : A)
  : list A :=
  let '(lo, len) := slice_bounds vv start stop in
  firstn lo vv ++ repeat x len ++ skipn (lo + len) vv.

(** [vv[start:stop] = src] for an array [src]: the shapes must agree, or [src]
    has one element, which is broadcast. *)
Definition set_slice {A : Type} (vv : list A) (start stop : option Z)
  (src : list A) : result (list A) :=
  let '(lo, len) := slice_bounds vv start stop in
  if Nat.eqb (length src) len then
    Ok (firstn lo vv ++ src ++ skipn (lo + len) vv)
  else
    match src with
    | [x] => Ok (firstn lo vv ++ repeat x len ++ skipn (lo + len) vv)
    | _ => Raise ValueError
    end.

(** The elements of [vv] where [mask] holds, in order. *)
Fixpoint select {A : Type} (vv : list A) (mask : list bool) : list A :=
  match vv, mask with
  | x :: vv', b :: mask' => if b then x :: select vv' mask' else select vv' mask'
  | _, _ => []
  end.

(** [vv[mask]] for a boolean [mask]: the lengths must agree. *)
Definition bool_index {A : Type} (vv : list A) (mask : list bool)
  : result (list A) :=
  if Nat.eqb (length mask) (length vv) then Ok (select vv mask)
  else Raise IndexError.

(** [np.sum(mask)] *)
Fixpoint sum (mask : list bool) : Z :=
  match mask with
  | [] => 0
  | b :: rest => (if b then 1 else 0) + sum rest
  end.

(** [np.max(a)]: no identity on an empty array. *)
Definition max (a : list Z) : result Z :=
  match a with
  | [] => Raise ValueError
  | x :: rest => Ok (fold_left Z.max rest x)
  end.

(** Two's complement wrap-around of a 64-bit signed integer. *)
Definition wrap64 (z : Z) : Z :=
  (z + 2 ^ 63) mod 2 ^ 64 - 2 ^ 63.

Definition wrap_u32 (z : Z) : Z := z mod 2 ^ 32.

(** [np.arange(start, stop, dtype=np.int64)] for [start] and [stop] of type
    [np.int64]: the number of elements is [stop - start] as computed in 64
    bits, and so is each element. *)
Definition arange (start stop : Z) : list Z :=
  map (fun k => wrap64 (start + Z.of_nat k))
    (seq 0 (Z.to_nat (wrap64 (stop - start)))).

End Np.

(** ** Double precision numbers

    The arithmetic the kinematics uses on [xo.Float64] values. What does not
    depend on rounding is proved for every instance of the class; the
    instance the code computes in is IEEE 754 binary64, given below by the
    primitive floats of the kernel. *)

Class Float64Ops (F : Type) : Type := {
  of_int : Z -> F;
  fadd : F -> F -> F;
  fsub : F -> F -> F;
  fmul : F -> F -> F;
  fdiv : F -> F -> F;
  fsqrt : F -> F;
  (** [x == 0.] *)
  is_zero : F -> bool;
  (** [np.isclose(a, b, rtol=1e-14, atol=1e-14)] *)
  isclose : F -> F -> bool
}.

Declare Scope fl_scope.
Delimit Scope fl_scope with fl.
Infix "+" := fadd : fl_scope.
Infix "-" := fsub : fl_scope.
Infix "*" := fmul : fl_scope.
Infix "/" := fdiv : fl_scope.

(** ** The schema of [ParticlesData] *)

Inductive dtype : Type := Float64 | Int64 | UInt32.

Definition LAST_INVALID_STATE : Z := -999999999.

Definition size_vars : list (dtype * string) :=
  [ (Int64, "_capacity");
    (Int64, "_num_active_particles");
    (Int64, "_num_lost_particles") ].

Definition scalar_vars : list (dtype * string) :=
  [ (Float64, "q0");
    (Float64, "mass0") ].

Definition part_energy_vars : list (dtype * string) :=
  [ (Float64, "psigma");
    (Float64, "delta");
    (Float64, "rpp");
    (Float64, "rvv") ].

Definition per_particle_vars : list (dtype * string) :=
  [ (Float64, "p0c");
    (Float64, "gamma0");
    (Float64, "beta0");
    (Float64, "s");
    (Float64, "x");
    (Float64, "y");
    (Float64, "px");
    (Float64, "py");
    (Float64, "zeta") ]
  ++ part_energy_vars ++
  [ (Float64, "chi");
    (Float64, "charge_ratio");
    (Float64, "weight");
    (Int64, "particle_id");
    (Int64, "at_element");
    (Int64, "at_turn");
    (Int64, "state");
    (Int64, "parent_particle_id");
    (UInt32, "__rng_s1");
    (UInt32, "__rng_s2");
    (UInt32, "__rng_s3");
    (UInt32, "__rng_s4") ].

(** The execution contexts of xobjects. *)
Inductive Context : Type := ContextCpu | ContextCupy | ContextPyopencl.

Definition is_cpu (c : Context) : bool :=
  match c with ContextCpu => true | _ => false end.

Definition is_pyopencl (c : Context) : bool :=
  match c with ContextPyopencl => true | _ => false end.

(** The attributes of the class [Particles]. [xo.dress] turns every field of
    the struct into a descriptor with a getter and a setter, the four fields
    of [rename] under their new names; the class body then defines
    read-only properties, none of which has a setter. *)
Definition rename : list (string * string) :=
  [ ("delta", "_delta"); ("psigma", "_psigma");
    ("rvv", "_rvv"); ("rpp", "_rpp") ].

Definition properties : list string :=
  [ "lost_particles_are_hidden"; "delta"; "psigma"; "rvv"; "rpp"; "ptau";
    "energy0"; "energy" ].

Fixpoint assoc {A : Type} (k : string) (l : list (string * A)) : option A :=
  match l with
  | [] => None
  | (k', v) :: rest => if String.eqb k' k then Some v else assoc k rest
  end.

Fixpoint assoc_set {A : Type} (k : string) (v : A) (l : list (string * A))
  : list (string * A) :=
  match l with
  | [] => []
  | (k', v') :: rest =>
      if String.eqb k' k then (k', v) :: rest else (k', v') :: assoc_set k v rest
  end.

Definition mem (k : string) (l : list string) : bool :=
  existsb (String.eqb k) l.

(** The Python name of the struct field [f]. *)
Definition pyname (f : string) : string :=
  match assoc f rename with Some n => n | None => f end.

(** The struct field a Python attribute of an array reads: through its
    descriptor, or through the property that returns the renamed field. *)
Definition array_field (nn : string) : option string :=
  match find (fun tn => String.eqb (pyname (snd tn)) nn) per_particle_vars with
  | Some tn => Some (snd tn)
  | None =>
      match find (fun tn => String.eqb (snd tn) nn) part_energy_vars with
      | Some tn => Some (snd tn)
      | None => None
      end
  end.

Section Ensemble.

Context {F : Type} {FO : Float64Ops F}.

(** ** Arrays of the three element types of the schema *)

Inductive ndarray : Type :=
| F64 (l : list F)
| I64 (l : list Z)
| U32 (l : list Z).

Definition nd_dtype (a : ndarray) : dtype :=
  match a with F64 _ => Float64 | I64 _ => Int64 | U32 _ => UInt32 end.

Definition nd_len (a : ndarray) : nat :=
  match a with F64 l => length l | I64 l => length l | U32 l => length l end.

Definition nd_take (n : nat) (a : ndarray) : ndarray :=
  match a with
  | F64 l => F64 (firstn n l)
  | I64 l => I64 (firstn n l)
  | U32 l => U32 (firstn n l)
  end.

Definition nd_drop (n : nat) (a : ndarray) : ndarray :=
  match a with
  | F64 l => F64 (skipn n l)
  | I64 l => I64 (skipn n l)
  | U32 l => U32 (skipn n l)
  end.

(** The storage [a ++ b]; the two parts of one array have one element type. *)
Definition nd_app (a b : ndarray) : ndarray :=
  match a, b with
  | F64 x, F64 y => F64 (x ++ y)
  | I64 x, I64 y => I64 (x ++ y)
  | U32 x, U32 y => U32 (x ++ y)
  | _, _ => a
  end.

Definition result_map {A B : Type} (f : A -> B) (r : result A) : result B :=
  match r with Ok a => Ok (f a) | Raise e => Raise e end.

(** [vv[mask]] *)
Definition nd_index (mask : list bool) : St ndarray ndarray :=
  fun vv =>
    (vv, match vv with
         | F64 l => result_map F64 (Np.bool_index l mask)
         | I64 l => result_map I64 (Np.bool_index l mask)
         | U32 l => result_map U32 (Np.bool_index l mask)
         end).

(** [vv[start:stop] = src]. The columns of one name have one element type in
    every ensemble, so no conversion between element types is modelled. *)
Definition nd_set_slice (start stop : option Z) (src : ndarray)
  : St ndarray unit :=
  fun vv =>
    let r := match vv, src with
             | F64 l, F64 s => result_map F64 (Np.set_slice l start stop s)
             | I64 l, I64 s => result_map I64 (Np.set_slice l start stop s)
             | U32 l, U32 s => result_map U32 (Np.set_slice l start stop s)
             | _, _ => Raise TypeError
             end in
    match r with
    | Ok vv' => (vv', Ok tt)
    | Raise e => (vv, Raise e)
    end.

(** A Python integer stored in an array of element type [t]. Out of the range
    of an unsigned type it wraps around, as numpy 1 did. *)
Definition nd_fill (start stop : option Z) (value : Z) : St ndarray unit :=
  fun vv =>
    (match vv with
     | F64 l => F64 (Np.fill_slice l start stop (of_int value))
     | I64 l => I64 (Np.fill_slice l start stop value)
     | U32 l => U32 (Np.fill_slice l start stop (Np.wrap_u32 value))
     end, Ok tt).

Definition as_int (a : ndarray) : result (list Z) :=
  match a with
  | I64 l => Ok l
  | U32 l => Ok l
  | F64 _ => Raise TypeError
  end.

Definition as_float (a : ndarray) : result (list F) :=
  match a with
  | F64 l => Ok l
  | _ => Raise TypeError
  end.

(** ** The ensemble *)

Record Particles : Type := mkParticles {
  context : Context;
  (** the instance attribute [hide_lost_particles] sets and
      [unhide_lost_particles] deletes *)
  _lim_arrays_name : option string;
  _capacity : Z;
  _num_active_particles : Z;
  _num_lost_particles : Z;
  q0 : F;
  mass0 : F;
  (** the arrays of [per_particle_vars], by field name, in their order *)
  per_particle : list (string * ndarray)
}.

Definition set_lim_arrays_name (v : option string) (p : Particles) : Particles :=
  mkParticles (context p) v (_capacity p) (_num_active_particles p)
    (_num_lost_particles p) (q0 p) (mass0 p) (per_particle p).

Definition set_num_active_particles (v : Z) (p : Particles) : Particles :=
  mkParticles (context p) (_lim_arrays_name p) (_capacity p) v
    (_num_lost_particles p) (q0 p) (mass0 p) (per_particle p).

Definition set_num_lost_particles (v : Z) (p : Particles) : Particles :=
  mkParticles (context p) (_lim_arrays_name p) (_capacity p)
    (_num_active_particles p) v (q0 p) (mass0 p) (per_particle p).

Definition set_q0 (v : F) (p : Particles) : Particles :=
  mkParticles (context p) (_lim_arrays_name p) (_capacity p)
    (_num_active_particles p) (_num_lost_particles p) v (mass0 p)
    (per_particle p).

Definition set_mass0 (v : F) (p : Particles) : Particles :=
  mkParticles (context p) (_lim_arrays_name p) (_capacity p)
    (_num_active_particles p) (_num_lost_particles p) (q0 p) v
    (per_particle p).

Definition set_per_particle (v : list (string * ndarray)) (p : Particles)
  : Particles :=
  mkParticles (context p) (_lim_arrays_name p) (_capacity p)
    (_num_active_particles p) (_num_lost_particles p) (q0 p) (mass0 p) v.

(** *** Access to an array through its descriptor

    The descriptor of an array field returns the field's array, cut to
    [[:lim]] while the attribute [_lim_arrays_name] exists, [lim] being the
    value of the size variable it names. What is returned is a view: writing
    into it writes into the ensemble. *)

Definition size_var (nm : string) (p : Particles) : result Z :=
  if String.eqb nm "_capacity" then Ok (_capacity p)
  else if String.eqb nm "_num_active_particles" then Ok (_num_active_particles p)
  else if String.eqb nm "_num_lost_particles" then Ok (_num_lost_particles p)
  else Raise AttributeError.

Definition view_len (p : Particles) (n : nat) : result nat :=
  match _lim_arrays_name p with
  | None => Ok n
  | Some nm =>
      match size_var nm p with
      | Ok lim => Ok (Z.to_nat (Np.norm_index (Z.of_nat n) lim))
      | Raise e => Raise e
      end
  end.

(** [vv = getattr(self, nn)] followed by the statements [body] on [vv]. *)
Definition with_view {A : Type} (nn : string) (body : St ndarray A)
  : St Particles A :=
  fun p =>
    match array_field nn with
    | None => (p, Raise AttributeError)
    | Some f =>
        match assoc f (per_particle p) with
        | None => (p, Raise AttributeError)
        | Some a =>
            match view_len p (nd_len a) with
            | Raise e => (p, Raise e)
            | Ok n =>
                let '(v, r) := body (nd_take n a) in
                (set_per_particle
                   (assoc_set f (nd_app v (nd_drop n a)) (per_particle p)) p,
                 r)
            end
        end
    end.

(** [getattr(self, nn)], read only. *)
Definition getattr (nn : string) : St Particles ndarray :=
  with_view nn (fun vv => (vv, Ok vv)).

(** [self.nn = value] for an array or a scalar [value]: a property without a
    setter refuses the assignment; the descriptor of an array field performs
    [view[:] = value]. *)
Definition setattr (nn : string) (assign : St ndarray unit) : St Particles unit :=
  if mem nn properties then raise AttributeError
  else with_view nn assign.

(** *** Hiding the lost particles *)

Definition hide_lost_particles : St Particles unit :=
  modify (set_lim_arrays_name (Some "_num_active_particles")).

Definition unhide_lost_particles : St Particles unit :=
  fun p =>
    match _lim_arrays_name p with
    | Some _ => (set_lim_arrays_name None p, Ok tt)
    | None => (p, Raise AttributeError)
    end.

Definition lost_particles_are_hidden (p : Particles) : bool :=
  match _lim_arrays_name p with
  | Some nm => String.eqb nm "_num_active_particles"
  | None => false
  end.

(** ** Compaction: [Particles.reorganize] *)

Definition mask_active_of (state : list Z) : list bool :=
  map (fun v => 0 <? v) state.

Definition mask_lost_of (state : list Z) : list bool :=
  map (fun v => (v <? 1) && (LAST_INVALID_STATE <? v)) state.

Definition reorganize : St Particles (Z * Z) :=
  ctx <- gets context ;;
  assert_ (negb (is_pyopencl ctx)) ;;
  hidden <- gets lost_particles_are_hidden ;;
  restore_hidden <-
    (if hidden then unhide_lost_particles ;; ret true else ret false) ;;
  state <- getattr "state" ;;
  state <- lift (as_int state) ;;
  let mask_active := mask_active_of state in
  let mask_lost := mask_lost_of state in
  let n_active := Np.sum mask_active in
  let n_lost := Np.sum mask_lost in
  for_ per_particle_vars (fun '(_, nn) =>
    with_view nn (
      vv_active <- nd_index mask_active ;;
      vv_lost <- nd_index mask_lost ;;
      nd_set_slice None (Some n_active) vv_active ;;
      nd_set_slice (Some n_active) (Some (n_active + n_lost)) vv_lost ;;
      nd_fill (Some (n_active + n_lost)) None LAST_INVALID_STATE)) ;;
  (if is_cpu ctx then
     modify (set_num_active_particles n_active) ;;
     modify (set_num_lost_particles n_lost)
   else ret tt) ;;
  (if restore_hidden then hide_lost_particles else ret tt) ;;
  ret (n_active, n_lost).

(** ** Merge: [Particles.add_particles]

    [part] is the donor, an ensemble other than the receiver. *)

Definition scalar_attr (nn : string) (p : Particles) : result F :=
  if String.eqb nn "q0" then Ok (q0 p)
  else if String.eqb nn "mass0" then Ok (mass0 p)
  else Raise AttributeError.

(** [getattr(part, nn)] on another ensemble *)
Definition getattr_of (part : Particles) (nn : string) : result ndarray :=
  snd (getattr nn part).

Definition add_particles (part : Particles) (keep_lost : bool)
  : St Particles unit :=
  (if keep_lost then raise NotImplementedError else ret tt) ;;
  ctx <- gets context ;;
  assert_ (negb (is_pyopencl ctx)) ;;
  part_state <- lift (getattr_of part "state") ;;
  part_state <- lift (as_int part_state) ;;
  let mask_copy := mask_active_of part_state in
  let n_copy := Np.sum mask_copy in
  '(n_active, n_lost) <- reorganize ;;
  let i_start_copy := n_active + n_lost in
  capacity <- gets _capacity ;;
  let n_free := capacity - n_active - n_lost in
  particle_id <- getattr "particle_id" ;;
  particle_id <- lift (as_int particle_id) ;;
  max_id <- lift (Np.max (Np.get_slice particle_id None (Some (n_active + n_lost)))) ;;
  (if n_free <? n_copy then raise NotImplementedError else ret tt) ;;
  for_ scalar_vars (fun '(_, nn) =>
    mine <- (fun p => (p, scalar_attr nn p)) ;;
    theirs <- lift (scalar_attr nn part) ;;
    assert_ (isclose mine theirs)) ;;
  for_ per_particle_vars (fun '(_, nn) =>
    with_view nn (
      src <- lift (getattr_of part nn) ;;
      vv_copy <- lift (snd (nd_index mask_copy src)) ;;
      nd_set_slice (Some i_start_copy) (Some (i_start_copy + n_copy)) vv_copy)) ;;
  (let first_id := Np.wrap64 (max_id + 1) in
   with_view "particle_id"
     (nd_set_slice (Some i_start_copy) (Some (i_start_copy + n_copy))
        (I64 (Np.arange first_id (Np.wrap64 (first_id + n_copy)))))) ;;
  reorganize ;;
  ret tt.

(** [Particles.get_active_particle_id_range] *)
Definition get_active_particle_id_range : St Particles (Z * Z) :=
  state <- getattr "state" ;;
  state <- lift (as_int state) ;;
  let mask_active := mask_active_of state in
  ids <- getattr "particle_id" ;;
  ids <- lift (as_int ids) ;;
  ids_active_particles <- lift (Np.bool_index ids mask_active) ;;
  match ids_active_particles with
  | [] => raise ValueError
  | x :: rest =>
      ret (fold_left Z.min rest x, Np.wrap64 (fold_left Z.max rest x + 1))
  end.

(** ** Construction: [Particles.__init__]

    The branch taken when no per-particle field and no [_xobject] is given:
    [Particles(_context=ctx)] or [Particles(_context=ctx, _capacity=n)]. *)

Definition nd_zeros (t : dtype) (n : nat) : ndarray :=
  match t with
  | Float64 => F64 (repeat (of_int 0) n)
  | Int64 => I64 (repeat 0 n)
  | UInt32 => U32 (repeat 0 n)
  end.

(** The struct [xoinitialize] allocates, every array with [capacity] slots. *)
Definition xoinitialize (ctx : Context) (capacity : Z) : Particles :=
  mkParticles ctx None capacity 0 0 (of_int 0) (of_int 0)
    (map (fun tn => (snd tn, nd_zeros (fst tn) (Z.to_nat capacity)))
       per_particle_vars).

Definition set_scalar_attr (nn : string) (v : F) : St Particles unit :=
  if String.eqb nn "q0" then modify (set_q0 v)
  else if String.eqb nn "mass0" then modify (set_mass0 v)
  else raise AttributeError.

Definition __init__ (ctx : Context) (capacity : option Z)
  : Particles * result unit :=
  let capacity := match capacity with Some c => c | None => 1 end in
  (for_ scalar_vars (fun '(_, kk) => set_scalar_attr kk (of_int 0)) ;;
   for_ per_particle_vars (fun '(_, kk) =>
     if String.eqb kk "chi" || String.eqb kk "charge_ratio"
        || String.eqb kk "state"
     then with_view kk (nd_fill None None 1)
     else if String.eqb kk "particle_id"
     then with_view kk (nd_set_slice None None (I64 (Np.arange 0 capacity)))
     else with_view kk (nd_fill None None 0)) ;;
   modify (set_num_active_particles (-1)) ;;
   modify (set_num_lost_particles (-1)) ;;
   (if is_cpu ctx then reorganize ;; ret tt else ret tt))
    (xoinitialize ctx capacity).

(** What a tracking kernel does when it marks losses: it overwrites [state]
    (or another array) in place. *)
Definition store (nn : string) (a : ndarray) (p : Particles) : Particles :=
  set_per_particle (assoc_set nn a (per_particle p)) p.

End Ensemble.

Arguments ndarray : clear implicits.
Arguments Particles : clear implicits.

(** ** The arithmetic of the code *)

(** IEEE 754 binary64, as numpy computes. *)
Definition float_of_int (z : Z) : float :=
  match z with
  | Z0 => PrimFloat.zero
  | Zpos _ => PrimFloat.of_uint63 (Uint63.of_Z z)
  | Zneg q => PrimFloat.opp (PrimFloat.of_uint63 (Uint63.of_Z (Zpos q)))
  end.

Definition float_isfinite (a : float) : bool :=
  PrimFloat.ltb (PrimFloat.abs a) PrimFloat.infinity.

Definition float_isclose (a b : float) : bool :=
  if float_isfinite a && float_isfinite b then
    PrimFloat.leb (PrimFloat.abs (a - b))
      (1e-14 + 1e-14 * PrimFloat.abs b)%float
  else PrimFloat.eqb a b.

#[export] Instance BinaryOps : Float64Ops float := {
  of_int := float_of_int;
  fadd := PrimFloat.add;
  fsub := PrimFloat.sub;
  fmul := PrimFloat.mul;
  fdiv := PrimFloat.div;
  fsqrt := PrimFloat.sqrt;
  is_zero x := PrimFloat.eqb x PrimFloat.zero;
  isclose := float_isclose
}.

(** A freshly built ensemble of [capacity] particles on the CPU whose
    [state] and [particle_id] arrays were then overwritten. *)
Definition ensemble (capacity : Z) (state ids : list Z) : Particles float :=
  store "particle_id" (I64 ids)
    (store "state" (I64 state) (fst (__init__ ContextCpu (Some capacity)))).

(** * Properties *)

(** ** The array primitives *)

Section NpFacts.

Context {A : Type}.

Lemma select_length_le (l : list A) (mask : list bool) :
  (length (Np.select l mask) <= length l)%nat.
Proof.
  revert mask; induction l as [|x l IH]; intros [|b mask]; simpl; try lia.
  specialize (IH mask). destruct b; simpl; lia.
Qed.

Lemma sum_select (l : list A) (mask : list bool) :
  length mask = length l ->
  Np.sum mask = Z.of_nat (length (Np.select l mask)).
Proof.
  revert mask; induction l as [|x l IH]; intros [|b mask] Hlen;
    simpl in *; try discriminate; try reflexivity.
  injection Hlen as Hlen. change (Np.sum (b :: mask))
    with ((if b then 1 else 0) + Np.sum mask). rewrite (IH mask Hlen).
  destruct b; cbn [length]; lia.
Qed.

Lemma select_app (l1 l2 : list A) (m1 m2 : list bool) :
  length m1 = length l1 ->
  Np.select (l1 ++ l2) (m1 ++ m2) = Np.select l1 m1 ++ Np.select l2 m2.
Proof.
  revert m1; induction l1 as [|x l1 IH]; intros [|b m1] Hlen;
    simpl in *; try discriminate.
  - destruct l2, m2; reflexivity.
  - injection Hlen as Hlen. rewrite (IH m1 Hlen). destruct b; reflexivity.
Qed.

Lemma select_all_true (l : list A) :
  Np.select l (repeat true (length l)) = l.
Proof. induction l; simpl; congruence. Qed.

Lemma select_all_false (l : list A) (n : nat) :
  Np.select l (repeat false n) = [].
Proof.
  revert n; induction l as [|x l IH]; intros [|n]; simpl; auto.
Qed.

Lemma select_map_Forall (P : A -> bool) (l : list A) :
  Forall (fun x => P x = true) (Np.select l (map P l)).
Proof.
  induction l as [|x l IH]; simpl; [constructor|].
  destruct (P x) eqn:E; [constructor|]; assumption.
Qed.

End NpFacts.

Lemma sum_cons (b : bool) (m : list bool) :
  Np.sum (b :: m) = (if b then 1 else 0) + Np.sum m.
Proof. reflexivity. Qed.

Lemma sum_repeat_true (n : nat) : Np.sum (repeat true n) = Z.of_nat n.
Proof.
  induction n; [reflexivity|]. cbn [repeat]. rewrite sum_cons, IHn. lia.
Qed.

Lemma sum_repeat_false (n : nat) : Np.sum (repeat false n) = 0.
Proof.
  induction n; [reflexivity|]. cbn [repeat]. rewrite sum_cons, IHn. lia.
Qed.

Lemma sum_app (m1 m2 : list bool) : Np.sum (m1 ++ m2) = Np.sum m1 + Np.sum m2.
Proof.
  induction m1 as [|b m1 IH]; [reflexivity|].
  cbn [app]. rewrite !sum_cons, IH. lia.
Qed.

Lemma sum_nonneg (m : list bool) : 0 <= Np.sum m.
Proof.
  induction m as [|b m IH]; [cbn; lia|].
  rewrite sum_cons. destruct b; lia.
Qed.

Lemma map_Forall_repeat {A : Type} (P : A -> bool) (b : bool) (l : list A) :
  Forall (fun x => P x = b) l -> map P l = repeat b (length l).
Proof.
  induction 1 as [|x l Hx _ IH]; simpl; [reflexivity|]. now rewrite Hx, IH.
Qed.

Lemma masks_disjoint_sum (state : list Z) :
  Np.sum (mask_active_of state) + Np.sum (mask_lost_of state)
  <= Z.of_nat (length state).
Proof.
  unfold mask_active_of, mask_lost_of.
  induction state as [|v st IH]; [cbn; lia|].
  cbn [map length]. rewrite !sum_cons.
  destruct (0 <? v) eqn:E1; destruct (v <? 1) eqn:E2;
    destruct (LAST_INVALID_STATE <? v) eqn:E3; cbn [andb]; lia.
Qed.

(** The three-way stable partition of one array. *)
Definition compact {A : Type} (sentinel : A) (mask_active mask_lost : list bool)
  (l : list A) : list A :=
  let va := Np.select l mask_active in
  let vl := Np.select l mask_lost in
  va ++ vl ++ repeat sentinel (length l - length va - length vl).

Lemma compact_length {A : Type} (x : A) (ma ml : list bool) (l : list A) :
  length ma = length l -> length ml = length l ->
  Np.sum ma + Np.sum ml <= Z.of_nat (length l) ->
  length (compact x ma ml l) = length l.
Proof.
  intros Ha Hl Hs. unfold compact.
  rewrite (sum_select l ma Ha), (sum_select l ml Hl) in Hs.
  rewrite !length_app, repeat_length. lia.
Qed.

Lemma slices_compact {A : Type} (x : A) (ma ml : list bool) (l : list A) :
  length ma = length l -> length ml = length l ->
  Np.sum ma + Np.sum ml <= Z.of_nat (length l) ->
  exists l1 l2,
    Np.set_slice l None (Some (Np.sum ma)) (Np.select l ma) = Ok l1 /\
    Np.set_slice l1 (Some (Np.sum ma)) (Some (Np.sum ma + Np.sum ml))
      (Np.select l ml) = Ok l2 /\
    Np.fill_slice l2 (Some (Np.sum ma + Np.sum ml)) None x = compact x ma ml l.
Proof.
  intros Ha Hl Hs.
  pose proof (sum_select l ma Ha) as Ea. pose proof (sum_select l ml Hl) as El.
  set (va := Np.select l ma) in *. set (vl := Np.select l ml) in *.
  assert (Hna : (length va <= length l)%nat) by apply select_length_le.
  exists (va ++ skipn (length va) l), (va ++ vl ++ skipn (length va + length vl) l).
  assert (Hl1 : length (va ++ skipn (length va) l) = length l).
  { rewrite length_app, length_skipn. lia. }
  assert (Hl2 : length (va ++ vl ++ skipn (length va + length vl) l) = length l).
  { rewrite !length_app, length_skipn. lia. }
  split; [|split].
  - unfold Np.set_slice, Np.slice_bounds, Np.slice_lo, Np.slice_hi, Np.norm_index.
    replace (Np.sum ma <? 0) with false by (symmetry; apply Z.ltb_ge; lia).
    rewrite Z.min_l by lia. rewrite Z.sub_0_r, Z.max_r by lia.
    rewrite Ea, Nat2Z.id, Nat.eqb_refl. reflexivity.
  - unfold Np.set_slice, Np.slice_bounds, Np.slice_lo, Np.slice_hi, Np.norm_index.
    rewrite Hl1.
    replace (Np.sum ma <? 0) with false by (symmetry; apply Z.ltb_ge; lia).
    replace (Np.sum ma + Np.sum ml <? 0) with false
      by (symmetry; apply Z.ltb_ge; lia).
    rewrite !Z.min_l by lia.
    replace (Np.sum ma + Np.sum ml - Np.sum ma) with (Np.sum ml) by lia.
    rewrite Z.max_r by lia. rewrite Ea, El, !Nat2Z.id, Nat.eqb_refl.
    f_equal. rewrite firstn_app, firstn_all, Nat.sub_diag, firstn_O, app_nil_r.
    do 2 f_equal. rewrite skipn_app, skipn_all2 by lia.
    cbn [app]. rewrite skipn_skipn. f_equal. lia.
  - unfold Np.fill_slice, Np.slice_bounds, Np.slice_lo, Np.slice_hi, Np.norm_index.
    rewrite Hl2.
    replace (Np.sum ma + Np.sum ml <? 0) with false
      by (symmetry; apply Z.ltb_ge; lia).
    rewrite Z.min_l by lia. rewrite Z.max_r by lia.
    rewrite Ea, El. unfold compact. fold va vl.
    replace (Z.to_nat (Z.of_nat (length va) + Z.of_nat (length vl)))
      with (length va + length vl)%nat by lia.
    replace (Z.to_nat (Z.of_nat (length l)
                       - (Z.of_nat (length va) + Z.of_nat (length vl))))
      with (length l - length va - length vl)%nat by lia.
    rewrite (app_assoc va vl), firstn_app, firstn_all2
      by (rewrite length_app; lia).
    rewrite length_app.
    replace (length va + length vl - (length va + length vl))%nat with 0%nat by lia.
    rewrite firstn_O, app_nil_r.
    rewrite skipn_all2.
    + rewrite app_nil_r, <- app_assoc. reflexivity.
    + rewrite !length_app, length_skipn. lia.
Qed.

(** ** Well-formed ensembles and the loop over the schema *)

Section EnsembleFacts.

Context {F : Type} {FO : Float64Ops F}.

(** What [xoinitialize] establishes and every method keeps: the arrays are
    those of the schema, each of [_capacity] elements, and the only limit
    ever installed is the one of [hide_lost_particles]. *)
Record wf (p : Particles F) : Prop := {
  wf_schema :
    map (fun c => (nd_dtype (snd c), fst c)) (per_particle p) = per_particle_vars;
  wf_length :
    Forall (fun c => Z.of_nat (nd_len (snd c)) = _capacity p) (per_particle p);
  wf_lim :
    _lim_arrays_name p = None \/
    _lim_arrays_name p = Some "_num_active_particles"
}.

(** The same, as a check that computes. *)
Definition dtype_eqb (a b : dtype) : bool :=
  match a, b with
  | Float64, Float64 | Int64, Int64 | UInt32, UInt32 => true
  | _, _ => false
  end.

Fixpoint schema_eqb (cols : list (string * ndarray F))
  (sch : list (dtype * string)) : bool :=
  match cols, sch with
  | [], [] => true
  | (k, a) :: cols', (t, nn) :: sch' =>
      dtype_eqb (nd_dtype a) t && String.eqb k nn && schema_eqb cols' sch'
  | _, _ => false
  end.

Definition wfb (p : Particles F) : bool :=
  schema_eqb (per_particle p) per_particle_vars
  && forallb (fun c => Z.of_nat (nd_len (snd c)) =? _capacity p) (per_particle p)
  && match _lim_arrays_name p with
     | None => true
     | Some nm => String.eqb nm "_num_active_particles"
     end.

Lemma wfb_sound (p : Particles F) : wfb p = true -> wf p.
Proof.
  unfold wfb. intros H.
  apply andb_prop in H as [H Hlim]. apply andb_prop in H as [Hs Hl].
  split.
  - clear Hl Hlim. revert Hs. generalize per_particle_vars as sch.
    induction (per_particle p) as [|[k a] cols IH]; intros [|[t nn] sch];
      cbn; try discriminate; [reflexivity|].
    intros H. apply andb_prop in H as [H Hrest]. apply andb_prop in H as [Ht Hk].
    apply String.eqb_eq in Hk. subst k. f_equal; [|now apply IH].
    f_equal. destruct (nd_dtype a), t; try discriminate; reflexivity.
  - rewrite forallb_forall in Hl. apply Forall_forall. intros c Hc.
    apply Z.eqb_eq. now apply Hl.
  - destruct (_lim_arrays_name p) as [nm|]; [|now left].
    right. apply String.eqb_eq in Hlim. now subst.
Qed.

(** The stored array of an integer field, and the [state] array. *)
Definition int_column (nn : string) (p : Particles F) : list Z :=
  match assoc nn (per_particle p) with
  | Some (I64 l) => l
  | Some (U32 l) => l
  | _ => []
  end.

Definition state_of (p : Particles F) : list Z := int_column "state" p.

Definition nd_compact (ma ml : list bool) (a : ndarray F) : ndarray F :=
  match a with
  | F64 l => F64 (compact (of_int LAST_INVALID_STATE) ma ml l)
  | I64 l => I64 (compact LAST_INVALID_STATE ma ml l)
  | U32 l => U32 (compact (Np.wrap_u32 LAST_INVALID_STATE) ma ml l)
  end.

Definition map_columns (f : string -> ndarray F -> ndarray F)
  (cols : list (string * ndarray F)) : list (string * ndarray F) :=
  map (fun c => (fst c, f (fst c) (snd c))) cols.

Lemma nd_take_all (a : ndarray F) : nd_take (nd_len a) a = a.
Proof. destruct a; simpl; now rewrite firstn_all. Qed.

Lemma nd_app_drop_all (v a : ndarray F) :
  nd_dtype v = nd_dtype a -> nd_app v (nd_drop (nd_len a) a) = v.
Proof.
  destruct v, a; simpl; try discriminate; intros _;
    now rewrite skipn_all, app_nil_r.
Qed.

Lemma assoc_app_fresh {A : Type} (k : string) (v : A) (done todo : list (string * A)) :
  ~ In k (map fst done) ->
  assoc k (done ++ (k, v) :: todo) = Some v.
Proof.
  induction done as [|[k' v'] done IH]; simpl; intros Hk.
  - now rewrite String.eqb_refl.
  - destruct (String.eqb_spec k' k) as [->|_]; [tauto|]. apply IH. tauto.
Qed.

Lemma assoc_set_app_fresh {A : Type} (k : string) (v w : A)
  (done todo : list (string * A)) :
  ~ In k (map fst done) ->
  assoc_set k w (done ++ (k, v) :: todo) = done ++ (k, w) :: todo.
Proof.
  induction done as [|[k' v'] done IH]; simpl; intros Hk.
  - now rewrite String.eqb_refl.
  - destruct (String.eqb_spec k' k) as [->|_]; [tauto|]. f_equal. apply IH. tauto.
Qed.

Lemma array_field_schema :
  Forall (fun tn => array_field (snd tn) = Some (snd tn)) per_particle_vars.
Proof. repeat constructor. Qed.

Lemma schema_names_NoDup : NoDup (map snd per_particle_vars).
Proof.
  repeat (constructor; [cbn; intuition discriminate|]). constructor.
Qed.

(** A loop [for tt, nn in sch: vv = getattr(self, nn); body] over fields whose
    arrays are stored and fully visible rewrites each of them in turn. *)
Lemma loop_columns (body : string -> St (ndarray F) unit)
  (f : string -> ndarray F -> ndarray F) :
  forall (sch : list (dtype * string)) (todo done : list (string * ndarray F))
         (p : Particles F),
    _lim_arrays_name p = None ->
    per_particle p = done ++ todo ->
    map fst todo = map snd sch ->
    NoDup (map fst (done ++ todo)) ->
    Forall (fun c => array_field (fst c) = Some (fst c)) todo ->
    Forall (fun c => body (fst c) (snd c) = (f (fst c) (snd c), Ok tt) /\
                     nd_dtype (f (fst c) (snd c)) = nd_dtype (snd c)) todo ->
    for_ sch (fun '(_, nn) => with_view nn (body nn)) p
    = (set_per_particle (done ++ map_columns f todo) p, Ok tt).
Proof.
  induction sch as [|[t nn] sch IH]; intros [|[k a] todo] done p Hlim Hp Hn Hnd Hf Hb;
    try discriminate.
  - cbn. unfold ret. f_equal. destruct p; cbn in *. now subst.
  - cbn in Hn. injection Hn as -> Hn.
    inversion Hf as [|? ? Hf1 Hf2]; subst. inversion Hb as [|? ? [Hb1 Hb1'] Hb2]; subst.
    cbn [fst snd] in *.
    assert (Hfresh : ~ In nn (map fst done)).
    { rewrite map_app in Hnd. apply NoDup_remove_2 in Hnd.
      intros Hin. apply Hnd. apply in_or_app. now left. }
    cbn [for_]. unfold bind at 1. unfold with_view at 1.
    rewrite Hf1, Hp, (assoc_app_fresh nn a done todo Hfresh).
    unfold view_len. rewrite Hlim, nd_take_all, Hb1.
    rewrite (nd_app_drop_all _ _ Hb1'), (assoc_set_app_fresh nn a _ done todo Hfresh).
    rewrite (IH todo (done ++ [(nn, f nn a)])); cbn; auto.
    + f_equal. unfold set_per_particle; cbn. f_equal. now rewrite <- app_assoc.
    + now rewrite <- app_assoc.
    + rewrite <- app_assoc. cbn. rewrite !map_app in *. exact Hnd.
Qed.

Lemma bind_ok {S A B : Type} (m : St S A) (k : A -> St S B) (s s' : S) (a : A) :
  m s = (s', Ok a) -> bind m k s = k a s'.
Proof. unfold bind. now intros ->. Qed.

Lemma bind_raise {S A B : Type} (m : St S A) (k : A -> St S B) (s s' : S) (e : exn) :
  m s = (s', Raise e) -> bind m k s = (s', Raise e).
Proof. unfold bind. now intros ->. Qed.

Lemma assoc_set_same {A : Type} (k : string) (v : A) (l : list (string * A)) :
  assoc k l = Some v -> assoc_set k v l = l.
Proof.
  induction l as [|[k' v'] l IH]; simpl; [reflexivity|].
  destruct (String.eqb k' k); [now intros [= ->]|]. intros H. now rewrite IH.
Qed.

Lemma set_per_particle_same (p : Particles F) : set_per_particle (per_particle p) p = p.
Proof. now destruct p. Qed.

Lemma schema_lookup (cols : list (string * ndarray F)) (sch : list (dtype * string)) :
  map (fun c => (nd_dtype (snd c), fst c)) cols = sch ->
  forall t nn, In (t, nn) sch -> NoDup (map snd sch) ->
  exists a, assoc nn cols = Some a /\ nd_dtype a = t /\ In (nn, a) cols.
Proof.
  revert sch; induction cols as [|[k a] cols IH]; intros sch <- t nn Hin Hnd;
    cbn in *; [tauto|].
  destruct (String.eqb_spec k nn) as [->|Hne].
  - destruct Hin as [[= <-]|Hin]; [eauto|].
    inversion Hnd as [|? ? Hfresh _]; subst. exfalso. apply Hfresh.
    rewrite map_map. cbn. change nn with (snd (t, nn)).
    apply in_map with (f := snd) in Hin. now rewrite map_map in Hin.
  - destruct Hin as [[= <- <-]|Hin]; [congruence|].
    inversion Hnd; subst.
    destruct (IH _ eq_refl t nn Hin) as (b & ? & ? & ?); eauto.
Qed.

Lemma wf_names (p : Particles F) :
  wf p -> map fst (per_particle p) = map snd per_particle_vars.
Proof.
  intros [Hs _ _]. rewrite <- Hs, map_map. reflexivity.
Qed.

Lemma wf_state (p : Particles F) :
  wf p -> assoc "state" (per_particle p) = Some (I64 (state_of p)) /\
          Z.of_nat (length (state_of p)) = _capacity p.
Proof.
  intros Hwf. destruct (schema_lookup _ _ (wf_schema p Hwf) Int64 "state")
    as (a & Ha & Ht & Hin).
  - cbn. tauto.
  - apply schema_names_NoDup.
  - unfold state_of, int_column. rewrite Ha.
    pose proof (wf_length p Hwf) as Hl. rewrite Forall_forall in Hl.
    specialize (Hl _ Hin). destruct a; try discriminate. split; [reflexivity|exact Hl].
Qed.

(** Reading an array that is stored and fully visible. *)
Lemma getattr_visible (nn f : string) (a : ndarray F) (p : Particles F) :
  array_field nn = Some f ->
  _lim_arrays_name p = None ->
  assoc f (per_particle p) = Some a ->
  getattr nn p = (p, Ok a).
Proof.
  intros Hf Hlim Ha. unfold getattr, with_view, view_len.
  rewrite Hf, Ha, Hlim, nd_take_all.
  rewrite nd_app_drop_all by reflexivity.
  now rewrite (assoc_set_same _ _ _ Ha), set_per_particle_same.
Qed.

Definition n_active_of (p : Particles F) : Z :=
  Np.sum (mask_active_of (state_of p)).

Definition n_lost_of (p : Particles F) : Z :=
  Np.sum (mask_lost_of (state_of p)).

(** The ensemble [reorganize] leaves behind. *)
Definition reorganized (p : Particles F) : Particles F :=
  mkParticles (context p) (_lim_arrays_name p) (_capacity p)
    (if is_cpu (context p) then n_active_of p else _num_active_particles p)
    (if is_cpu (context p) then n_lost_of p else _num_lost_particles p)
    (q0 p) (mass0 p)
    (map_columns
       (fun _ => nd_compact (mask_active_of (state_of p)) (mask_lost_of (state_of p)))
       (per_particle p)).

Lemma reorganize_body (ma ml : list bool) (a : ndarray F) :
  length ma = nd_len a -> length ml = nd_len a ->
  Np.sum ma + Np.sum ml <= Z.of_nat (nd_len a) ->
  (vv_active <- nd_index ma ;;
   vv_lost <- nd_index ml ;;
   nd_set_slice None (Some (Np.sum ma)) vv_active ;;
   nd_set_slice (Some (Np.sum ma)) (Some (Np.sum ma + Np.sum ml)) vv_lost ;;
   nd_fill (Some (Np.sum ma + Np.sum ml)) None LAST_INVALID_STATE) a
  = (nd_compact ma ml a, Ok tt).
Proof.
  intros Ha Hl Hs.
  destruct a as [l|l|l]; cbn [nd_len] in *;
    [ destruct (slices_compact (of_int LAST_INVALID_STATE) ma ml l Ha Hl Hs)
        as (l1 & l2 & E1 & E2 & E3)
    | destruct (slices_compact LAST_INVALID_STATE ma ml l Ha Hl Hs)
        as (l1 & l2 & E1 & E2 & E3)
    | destruct (slices_compact (Np.wrap_u32 LAST_INVALID_STATE) ma ml l Ha Hl Hs)
        as (l1 & l2 & E1 & E2 & E3) ];
    unfold bind, nd_index, nd_set_slice, nd_fill, Np.bool_index;
    rewrite Ha, Hl, Nat.eqb_refl; cbn [result_map];
    rewrite E1; cbn [result_map]; rewrite E2; cbn [result_map nd_compact];
    now rewrite E3.
Qed.

Lemma nd_compact_dtype (ma ml : list bool) (a : ndarray F) :
  nd_dtype (nd_compact ma ml a) = nd_dtype a.
Proof. now destruct a. Qed.

Lemma reorganize_spec (p : Particles F) :
  wf p -> is_pyopencl (context p) = false ->
  reorganize p = (reorganized p, Ok (n_active_of p, n_lost_of p)).
Proof.
  intros Hwf Hctx.
  destruct (wf_state p Hwf) as [Hst Hcap].
  pose proof (wf_names p Hwf) as Hnames.
  set (p0 := set_lim_arrays_name None p).
  assert (Hloop :
    for_ per_particle_vars (fun '(_, nn) =>
      with_view nn (
        vv_active <- nd_index (mask_active_of (state_of p)) ;;
        vv_lost <- nd_index (mask_lost_of (state_of p)) ;;
        nd_set_slice None (Some (n_active_of p)) vv_active ;;
        nd_set_slice (Some (n_active_of p)) (Some (n_active_of p + n_lost_of p)) vv_lost ;;
        nd_fill (Some (n_active_of p + n_lost_of p)) None LAST_INVALID_STATE)) p0
    = (set_per_particle (per_particle (reorganized p)) p0, Ok tt)).
  { apply (loop_columns (fun _ => _) (fun _ => _) per_particle_vars
             (per_particle p) [] p0); try reflexivity.
    - exact Hnames.
    - cbn [app]. rewrite Hnames. apply schema_names_NoDup.
    - pose proof array_field_schema as H. rewrite Forall_forall in *.
      intros c Hc. apply in_map with (f := fst) in Hc. rewrite Hnames in Hc.
      apply in_map_iff in Hc. destruct Hc as (tn & <- & Htn). now apply H.
    - pose proof (wf_length p Hwf) as Hl. rewrite Forall_forall in *.
      intros c Hc. specialize (Hl c Hc). split; [|apply nd_compact_dtype].
      apply reorganize_body.
      + unfold mask_active_of. rewrite length_map. lia.
      + unfold mask_lost_of. rewrite length_map. lia.
      + pose proof (masks_disjoint_sum (state_of p)). lia. }
  assert (Hget : getattr "state" p0 = (p0, Ok (I64 (state_of p)))).
  { apply (getattr_visible "state" "state"); auto. }
  unfold reorganize.
  rewrite (bind_ok _ _ p p (context p)) by reflexivity.
  rewrite Hctx. cbn [negb assert_].
  rewrite (bind_ok _ _ p p tt) by reflexivity.
  rewrite (bind_ok _ _ p p (lost_particles_are_hidden p)) by reflexivity.
  destruct (wf_lim p Hwf) as [Hlim|Hlim].
  - assert (Hp0 : p0 = p) by (unfold p0; destruct p; cbn in *; now subst).
    rewrite Hp0 in *.
    unfold lost_particles_are_hidden at 1. rewrite Hlim.
    rewrite (bind_ok _ _ p p false) by reflexivity.
    rewrite (bind_ok _ _ _ _ _ Hget).
    rewrite (bind_ok _ _ p p (state_of p)) by reflexivity.
    fold (n_active_of p) (n_lost_of p).
    rewrite (bind_ok _ _ _ _ _ Hloop).
    unfold reorganized. destruct p. cbn in *. subst.
    destruct (is_cpu context0); reflexivity.
  - unfold lost_particles_are_hidden at 1. rewrite Hlim.
    cbn [String.eqb Ascii.eqb Bool.eqb].
    rewrite (bind_ok _ _ p p0 true)
      by (unfold bind, unhide_lost_particles; now rewrite Hlim).
    rewrite (bind_ok _ _ _ _ _ Hget).
    rewrite (bind_ok _ _ p0 p0 (state_of p)) by reflexivity.
    fold (n_active_of p) (n_lost_of p).
    rewrite (bind_ok _ _ _ _ _ Hloop).
    unfold reorganized, p0. destruct p. cbn in *. subst.
    destruct (is_cpu context0); reflexivity.
Qed.

Lemma assoc_map_columns (f : string -> ndarray F -> ndarray F) (k : string)
  (cols : list (string * ndarray F)) :
  assoc k (map_columns f cols) = option_map (f k) (assoc k cols).
Proof.
  induction cols as [|[k' a] cols IH]; cbn; [reflexivity|].
  destruct (String.eqb_spec k' k) as [->|_]; [reflexivity|exact IH].
Qed.

Lemma state_of_reorganized (p : Particles F) :
  wf p ->
  state_of (reorganized p)
  = compact LAST_INVALID_STATE (mask_active_of (state_of p))
      (mask_lost_of (state_of p)) (state_of p).
Proof.
  intros Hwf. destruct (wf_state p Hwf) as [Hst _].
  unfold state_of at 1, int_column, reorganized. cbn [per_particle].
  now rewrite assoc_map_columns, Hst.
Qed.

Lemma wf_reorganized (p : Particles F) : wf p -> wf (reorganized p).
Proof.
  intros Hwf. pose proof (wf_length p Hwf) as Hlen.
  pose proof (wf_state p Hwf) as [_ Hcap].
  split; unfold reorganized;
    cbn [per_particle _capacity _lim_arrays_name].
  - rewrite <- (wf_schema p Hwf). unfold map_columns. rewrite map_map.
    apply map_ext. intros [k a]. cbn. now rewrite nd_compact_dtype.
  - unfold map_columns. rewrite Forall_map. rewrite Forall_forall in *.
    intros c Hc. specialize (Hlen c Hc). cbn. rewrite <- Hlen.
    assert (Hs := masks_disjoint_sum (state_of p)).
    destruct (snd c); cbn [nd_compact nd_len] in *; f_equal;
      apply compact_length;
      unfold mask_active_of, mask_lost_of in *; rewrite ?length_map; lia.
  - exact (wf_lim p Hwf).
Qed.

End EnsembleFacts.

(** ** The compacted [state] array *)

Definition alive (v : Z) : bool := 0 <? v.

Definition lost_valid (v : Z) : bool := (v <? 1) && (LAST_INVALID_STATE <? v).

Lemma sum_map_filter {A : Type} (P : A -> bool) (l : list A) :
  Np.sum (map P l) = Z.of_nat (length (filter P l)).
Proof.
  induction l as [|x l IH]; [reflexivity|].
  cbn [map filter]. rewrite sum_cons, IH. destruct (P x); cbn [length]; lia.
Qed.

Lemma alive_not_lost (v : Z) : alive v = true -> lost_valid v = false.
Proof. unfold alive, lost_valid. intros H. apply Z.ltb_lt in H.
  replace (v <? 1) with false; [reflexivity|]. symmetry. apply Z.ltb_ge. lia. Qed.

Lemma lost_not_alive (v : Z) : lost_valid v = true -> alive v = false.
Proof. unfold alive, lost_valid. intros H. apply andb_prop in H as [H _].
  apply Z.ltb_lt in H. apply Z.ltb_ge. lia. Qed.

Lemma masks_of_compact (st : list Z) :
  let sa := Np.select st (mask_active_of st) in
  let sl := Np.select st (mask_lost_of st) in
  let k := (length st - length sa - length sl)%nat in
  mask_active_of (compact LAST_INVALID_STATE (mask_active_of st) (mask_lost_of st) st)
  = repeat true (length sa) ++ repeat false (length sl) ++ repeat false k /\
  mask_lost_of (compact LAST_INVALID_STATE (mask_active_of st) (mask_lost_of st) st)
  = repeat false (length sa) ++ repeat true (length sl) ++ repeat false k.
Proof.
  intros sa sl k. unfold compact. fold sa sl k.
  assert (Ha : Forall (fun v => alive v = true) sa)
    by apply (select_map_Forall alive).
  assert (Hl : Forall (fun v => lost_valid v = true) sl)
    by apply (select_map_Forall lost_valid).
  assert (Hk : Forall (fun v => v = LAST_INVALID_STATE) (repeat LAST_INVALID_STATE k)).
  { apply Forall_forall. intros v Hv. now apply repeat_spec in Hv. }
  change mask_active_of with (map alive). change mask_lost_of with (map lost_valid).
  rewrite !map_app. split.
  - rewrite (map_Forall_repeat alive true sa Ha).
    rewrite (map_Forall_repeat alive false sl)
      by (eapply Forall_impl; [|exact Hl]; apply lost_not_alive).
    rewrite (map_Forall_repeat alive false (repeat _ k))
      by (eapply Forall_impl; [|exact Hk]; now intros v ->).
    now rewrite repeat_length.
  - rewrite (map_Forall_repeat lost_valid false sa)
      by (eapply Forall_impl; [|exact Ha]; apply alive_not_lost).
    rewrite (map_Forall_repeat lost_valid true sl Hl).
    rewrite (map_Forall_repeat lost_valid false (repeat _ k))
      by (eapply Forall_impl; [|exact Hk]; now intros v ->).
    now rewrite repeat_length.
Qed.

(** Compacting an array that the same masks have compacted changes nothing. *)
Lemma compact_idem {A : Type} (x : A) (ma ml : list bool) (l : list A) (na nl : nat) :
  length ma = length l -> length ml = length l ->
  Np.sum ma = Z.of_nat na -> Np.sum ml = Z.of_nat nl ->
  (na + nl <= length l)%nat ->
  let k := (length l - na - nl)%nat in
  compact x (repeat true na ++ repeat false nl ++ repeat false k)
            (repeat false na ++ repeat true nl ++ repeat false k)
            (compact x ma ml l)
  = compact x ma ml l.
Proof.
  intros Ha Hl Ea El Hle k.
  pose proof (sum_select l ma Ha) as Sa. pose proof (sum_select l ml Hl) as Sl.
  assert (La : length (Np.select l ma) = na) by lia.
  assert (Ll : length (Np.select l ml) = nl) by lia.
  assert (E : compact x ma ml l
              = Np.select l ma ++ Np.select l ml ++ repeat x k).
  { unfold compact. cbv zeta. now rewrite La, Ll. }
  rewrite E. set (va := Np.select l ma) in *. set (vl := Np.select l ml) in *.
  unfold compact. cbv zeta.
  rewrite !select_app by (rewrite ?repeat_length; lia).
  replace (Np.select va (repeat true na)) with va
    by (rewrite <- La; now rewrite select_all_true).
  replace (Np.select vl (repeat true nl)) with vl
    by (rewrite <- Ll; now rewrite select_all_true).
  rewrite !select_all_false. cbn [app]. rewrite !app_nil_r.
  rewrite !length_app, repeat_length, La, Ll.
  do 3 f_equal. lia.
Qed.

Section Compaction.

Context {F : Type} {FO : Float64Ops F}.

Lemma reorganized_fixed (p : Particles F) :
  wf p ->
  reorganized (reorganized p) = reorganized p /\
  n_active_of (reorganized p) = n_active_of p /\
  n_lost_of (reorganized p) = n_lost_of p.
Proof.
  intros Hwf.
  pose proof (state_of_reorganized p Hwf) as Hst.
  destruct (masks_of_compact (state_of p)) as [Hma Hml].
  cbv zeta in Hma, Hml. rewrite <- Hst in Hma, Hml.
  set (st := state_of p) in *.
  set (ma := mask_active_of st) in *. set (ml := mask_lost_of st) in *.
  assert (Lma : length ma = length st) by (unfold ma, mask_active_of; apply length_map).
  assert (Lml : length ml = length st) by (unfold ml, mask_lost_of; apply length_map).
  pose proof (sum_select st ma Lma) as Sa. pose proof (sum_select st ml Lml) as Sl.
  pose proof (masks_disjoint_sum st) as Hs. fold ma ml in Hs.
  assert (Ena : n_active_of (reorganized p) = n_active_of p).
  { unfold n_active_of. fold st ma. rewrite Hma, !sum_app, sum_repeat_true,
      !sum_repeat_false. lia. }
  assert (Enl : n_lost_of (reorganized p) = n_lost_of p).
  { unfold n_lost_of. fold st ml. rewrite Hml, !sum_app, sum_repeat_true,
      !sum_repeat_false. lia. }
  split; [|split; assumption].
  assert (Ecols :
    map_columns (fun _ => nd_compact (mask_active_of (state_of (reorganized p)))
                            (mask_lost_of (state_of (reorganized p))))
      (map_columns (fun _ => nd_compact ma ml) (per_particle p))
    = map_columns (fun _ => nd_compact ma ml) (per_particle p)).
  { rewrite Hma, Hml.
    unfold map_columns. rewrite map_map. apply map_ext_in. intros [k a] Hin.
    cbn [fst snd]. f_equal.
    pose proof (wf_length p Hwf) as Hlen. rewrite Forall_forall in Hlen.
    specialize (Hlen _ Hin). cbn [snd] in Hlen.
    destruct (wf_state p Hwf) as [_ Hcap]. fold st in Hcap.
    assert (Hll : nd_len a = length st) by lia.
    destruct a as [l|l|l]; cbn [nd_len nd_compact] in *; f_equal;
      rewrite <- Hll; apply compact_idem; lia. }
  unfold reorganized at 1. rewrite Ena, Enl.
  change (per_particle (reorganized p))
    with (map_columns (fun _ => nd_compact ma ml) (per_particle p)).
  rewrite Ecols. unfold reorganized.
  cbn [context _lim_arrays_name _capacity _num_active_particles
       _num_lost_particles q0 mass0 per_particle].
  fold st ma ml. destruct (is_cpu (context p)); reflexivity.
Qed.

End Compaction.

(** ** Claims on compaction *)

(** C1. After [reorganize()] has returned [(num_active, num_lost)], the
    [state] array is partitioned three ways: alive slots ([state > 0]) in
    [[0, num_active)], lost slots ([sentinel < state <= 0]) in the next
    [num_lost] slots, the sentinel in all others; the two numbers returned
    are the counts of alive and of lost slots before the call. *)
Theorem reorganize_partition {F : Type} {FO : Float64Ops F} (p : Particles F) :
  wf p -> is_pyopencl (context p) = false ->
  exists (p' : Particles F) (num_active num_lost : Z),
    reorganize p = (p', Ok (num_active, num_lost)) /\
    num_active = Z.of_nat (length (filter (fun v => 0 <? v) (state_of p))) /\
    num_lost = Z.of_nat (length (filter
        (fun v => (LAST_INVALID_STATE <? v) && (v <=? 0)) (state_of p))) /\
    Z.of_nat (length (state_of p')) = _capacity p /\
    forall (i : nat) (v : Z), nth_error (state_of p') i = Some v ->
      (Z.of_nat i < num_active -> 0 < v) /\
      (num_active <= Z.of_nat i < num_active + num_lost ->
       LAST_INVALID_STATE < v <= 0) /\
      (num_active + num_lost <= Z.of_nat i -> v = LAST_INVALID_STATE).
Proof.
  intros Hwf Hctx.
  exists (reorganized p), (n_active_of p), (n_lost_of p).
  pose proof (state_of_reorganized p Hwf) as Hst.
  destruct (wf_state p Hwf) as [_ Hcap].
  set (st := state_of p) in *.
  set (ma := mask_active_of st) in *. set (ml := mask_lost_of st) in *.
  assert (Lma : length ma = length st) by (unfold ma, mask_active_of; apply length_map).
  assert (Lml : length ml = length st) by (unfold ml, mask_lost_of; apply length_map).
  pose proof (sum_select st ma Lma) as Sa. pose proof (sum_select st ml Lml) as Sl.
  pose proof (masks_disjoint_sum st) as Hs. fold ma ml in Hs.
  split; [now apply reorganize_spec|].
  split; [unfold n_active_of; apply sum_map_filter|].
  split.
  { unfold n_lost_of, mask_lost_of. fold st. rewrite sum_map_filter.
    do 2 f_equal. apply filter_ext. intros v.
    rewrite andb_comm. f_equal.
    destruct (Z.ltb_spec v 1), (Z.leb_spec v 0); try reflexivity; lia. }
  split.
  { rewrite Hst, compact_length; lia. }
  intros i v Hi. rewrite Hst in Hi. unfold compact in Hi. cbv zeta in Hi.
  unfold n_active_of, n_lost_of. fold st ma ml. rewrite Sa, Sl.
  assert (Ha : Forall (fun v => alive v = true) (Np.select st ma))
    by apply (select_map_Forall alive).
  assert (Hl : Forall (fun v => lost_valid v = true) (Np.select st ml))
    by apply (select_map_Forall lost_valid).
  rewrite Forall_forall in Ha, Hl.
  destruct (Nat.lt_ge_cases i (length (Np.select st ma))) as [H1|H1].
  - rewrite nth_error_app1 in Hi by exact H1.
    apply nth_error_In, Ha in Hi. unfold alive in Hi. apply Z.ltb_lt in Hi.
    repeat split; intros; lia.
  - rewrite nth_error_app2 in Hi by exact H1.
    destruct (Nat.lt_ge_cases (i - length (Np.select st ma))
                (length (Np.select st ml))) as [H2|H2].
    + rewrite nth_error_app1 in Hi by exact H2.
      apply nth_error_In, Hl in Hi. unfold lost_valid in Hi.
      apply andb_prop in Hi as [Hi1 Hi2].
      apply Z.ltb_lt in Hi1, Hi2.
      repeat split; intros; lia.
    + rewrite nth_error_app2 in Hi by exact H2.
      apply nth_error_In, repeat_spec in Hi.
      repeat split; intros; try lia.
Qed.

Example reorganize_partition_witness :
  exists (p' : Particles float) (num_active num_lost : Z),
    reorganize (ensemble 3 [0; -999999999; 1] [7; 8; 9])
    = (p', Ok (num_active, num_lost)) /\
    num_active = 1 /\ num_lost = 1 /\ state_of p' = [1; 0; -999999999].
Proof.
  destruct (reorganize_partition (ensemble 3 [0; -999999999; 1] [7; 8; 9]))
    as (p' & na & nl & Hr & Ha & Hl & _).
  - apply wfb_sound; vm_compute; reflexivity.
  - reflexivity.
  - exists p', na, nl. split; [exact Hr|]. split; [exact Ha|]. split; [exact Hl|].
    vm_compute in Hr. injection Hr as <- _ _. reflexivity.
Defined.

(** C4. [reorganize()] is idempotent: a second call right after a first one
    leaves the ensemble, every per-particle array included, as the first call
    left it, and returns the same pair. *)
Theorem reorganize_idempotent {F : Type} {FO : Float64Ops F} (p : Particles F) :
  wf p ->
  reorganize (fst (reorganize p)) = reorganize p.
Proof.
  intros Hwf. destruct (is_pyopencl (context p)) eqn:Hctx.
  - assert (E : reorganize p = (p, Raise AssertionError)).
    { unfold reorganize. rewrite (bind_ok _ _ p p (context p)) by reflexivity.
      now rewrite Hctx. }
    rewrite E. exact E.
  - rewrite (reorganize_spec p Hwf Hctx). cbn [fst].
    destruct (reorganized_fixed p Hwf) as (E1 & E2 & E3).
    rewrite (reorganize_spec _ (wf_reorganized p Hwf) Hctx).
    now rewrite E1, E2, E3.
Qed.

Example reorganize_idempotent_witness :
  reorganize (fst (reorganize (ensemble 3 [0; -999999999; 1] [7; 8; 9])))
  = reorganize (ensemble 3 [0; -999999999; 1] [7; 8; 9]).
Proof.
  apply reorganize_idempotent.
  apply wfb_sound; vm_compute; reflexivity.
Defined.

(** ** Merge: the arrays after the copy *)

(** [l] with [d] written from slot [i] on. *)
Definition splice {A : Type} (l : list A) (i : nat) (d : list A) : list A :=
  firstn i l ++ d ++ skipn (i + length d) l.

Lemma splice_length {A : Type} (l : list A) (i : nat) (d : list A) :
  (i + length d <= length l)%nat -> length (splice l i d) = length l.
Proof.
  intros H. unfold splice. rewrite !length_app, length_firstn, length_skipn. lia.
Qed.

Lemma set_slice_splice {A : Type} (l : list A) (i n : Z) (d : list A) :
  0 <= i -> n = Z.of_nat (length d) -> i + n <= Z.of_nat (length l) ->
  Np.set_slice l (Some i) (Some (i + n)) d = Ok (splice l (Z.to_nat i) d).
Proof.
  intros Hi -> Hle.
  unfold Np.set_slice, Np.slice_bounds, Np.slice_lo, Np.slice_hi, Np.norm_index.
  replace (i <? 0) with false by (symmetry; apply Z.ltb_ge; lia).
  replace (i + Z.of_nat (length d) <? 0) with false
    by (symmetry; apply Z.ltb_ge; lia).
  rewrite !Z.min_l by lia.
  replace (i + Z.of_nat (length d) - i) with (Z.of_nat (length d)) by lia.
  rewrite Z.max_r by lia. rewrite Nat2Z.id, Nat.eqb_refl. reflexivity.
Qed.

Lemma splice_tail {A : Type} (x : A) (body d : list A) (k : nat) :
  (length d <= k)%nat ->
  splice (body ++ repeat x k) (length body) d
  = body ++ d ++ repeat x (k - length d).
Proof.
  intros H. unfold splice.
  rewrite firstn_app, firstn_all, Nat.sub_diag, firstn_O, app_nil_r.
  rewrite skipn_app, skipn_all2 by lia. cbn [app].
  replace (length body + length d - length body)%nat with (length d) by lia.
  do 2 f_equal. clear H. revert k.
  induction (length d) as [|n IH]; intros [|k]; cbn; auto.
Qed.

Lemma splice_tail_at {A : Type} (x : A) (body d : list A) (k i : nat) :
  i = length body -> (length d <= k)%nat ->
  splice (body ++ repeat x k) i d = body ++ d ++ repeat x (k - length d).
Proof. intros ->. apply splice_tail. Qed.

(** The masks of the [state] array once alive donor particles have been
    written behind the compacted particles. *)
Lemma masks_after_copy (sa sl ds : list Z) (r : nat) :
  Forall (fun v => alive v = true) sa ->
  Forall (fun v => lost_valid v = true) sl ->
  Forall (fun v => alive v = true) ds ->
  mask_active_of (sa ++ sl ++ ds ++ repeat LAST_INVALID_STATE r)
  = repeat true (length sa) ++ repeat false (length sl)
    ++ repeat true (length ds) ++ repeat false r /\
  mask_lost_of (sa ++ sl ++ ds ++ repeat LAST_INVALID_STATE r)
  = repeat false (length sa) ++ repeat true (length sl)
    ++ repeat false (length ds) ++ repeat false r.
Proof.
  intros Ha Hl Hd.
  assert (Hk : Forall (fun v => v = LAST_INVALID_STATE) (repeat LAST_INVALID_STATE r)).
  { apply Forall_forall. intros v Hv. now apply repeat_spec in Hv. }
  change mask_active_of with (map alive). change mask_lost_of with (map lost_valid).
  rewrite !map_app. split.
  - rewrite (map_Forall_repeat alive true sa Ha).
    rewrite (map_Forall_repeat alive false sl)
      by (eapply Forall_impl; [|exact Hl]; apply lost_not_alive).
    rewrite (map_Forall_repeat alive true ds Hd).
    rewrite (map_Forall_repeat alive false (repeat _ r))
      by (eapply Forall_impl; [|exact Hk]; now intros v ->).
    now rewrite repeat_length.
  - rewrite (map_Forall_repeat lost_valid false sa)
      by (eapply Forall_impl; [|exact Ha]; apply alive_not_lost).
    rewrite (map_Forall_repeat lost_valid true sl Hl).
    rewrite (map_Forall_repeat lost_valid false ds)
      by (eapply Forall_impl; [|exact Hd]; apply alive_not_lost).
    rewrite (map_Forall_repeat lost_valid false (repeat _ r))
      by (eapply Forall_impl; [|exact Hk]; now intros v ->).
    now rewrite repeat_length.
Qed.

(** Compaction moves the copied particles between the alive and the lost. *)
Lemma compact_after_copy {A : Type} (x : A) (va vl d : list A) (r : nat) :
  compact x
    (repeat true (length va) ++ repeat false (length vl)
     ++ repeat true (length d) ++ repeat false r)
    (repeat false (length va) ++ repeat true (length vl)
     ++ repeat false (length d) ++ repeat false r)
    (va ++ vl ++ d ++ repeat x r)
  = (va ++ d) ++ vl ++ repeat x r.
Proof.
  unfold compact. cbv zeta.
  rewrite !select_app by (rewrite ?repeat_length; lia).
  rewrite !select_all_true, !select_all_false. cbn [app]. rewrite !app_nil_r.
  rewrite !length_app, repeat_length.
  do 2 f_equal. f_equal. lia.
Qed.

Section Merge.

Context {F : Type} {FO : Float64Ops F}.

(** The statements of [add_particles] that follow its first [reorganize]. *)
Definition merge_tail (part : Particles F) (mask_copy : list bool)
  (n_active n_lost : Z) : St (Particles F) unit :=
  let n_copy := Np.sum mask_copy in
  let i_start_copy := n_active + n_lost in
  capacity <- gets _capacity ;;
  let n_free := capacity - n_active - n_lost in
  particle_id <- getattr "particle_id" ;;
  particle_id <- lift (as_int particle_id) ;;
  max_id <- lift (Np.max (Np.get_slice particle_id None (Some (n_active + n_lost)))) ;;
  (if n_free <? n_copy then raise NotImplementedError else ret tt) ;;
  for_ scalar_vars (fun '(_, nn) =>
    mine <- (fun p => (p, scalar_attr nn p)) ;;
    theirs <- lift (scalar_attr nn part) ;;
    assert_ (isclose mine theirs)) ;;
  for_ per_particle_vars (fun '(_, nn) =>
    with_view nn (
      src <- lift (getattr_of part nn) ;;
      vv_copy <- lift (snd (nd_index mask_copy src)) ;;
      nd_set_slice (Some i_start_copy) (Some (i_start_copy + n_copy)) vv_copy)) ;;
  (let first_id := Np.wrap64 (max_id + 1) in
   with_view "particle_id"
     (nd_set_slice (Some i_start_copy) (Some (i_start_copy + n_copy))
        (I64 (Np.arange first_id (Np.wrap64 (first_id + n_copy)))))) ;;
  reorganize ;;
  ret tt.

Lemma add_particles_unfold (part p : Particles F) :
  wf p -> is_pyopencl (context p) = false ->
  add_particles part false p
  = match getattr_of part "state" with
    | Raise e => (p, Raise e)
    | Ok a =>
        match as_int a with
        | Raise e => (p, Raise e)
        | Ok part_state =>
            merge_tail part (mask_active_of part_state)
              (n_active_of p) (n_lost_of p) (reorganized p)
        end
    end.
Proof.
  intros Hwf Hctx. unfold add_particles.
  rewrite (bind_ok _ _ p p tt) by reflexivity.
  rewrite (bind_ok _ _ p p (context p)) by reflexivity.
  rewrite Hctx. cbn [negb assert_].
  rewrite (bind_ok _ _ p p tt) by reflexivity.
  destruct (getattr_of part "state") as [a|e];
    [|now rewrite (bind_raise _ _ p p e) by reflexivity].
  rewrite (bind_ok _ _ p p a) by reflexivity.
  destruct (as_int a) as [pst|e];
    [|now rewrite (bind_raise _ _ p p e) by reflexivity].
  rewrite (bind_ok _ _ p p pst) by reflexivity.
  rewrite (bind_ok _ _ _ _ _ (reorganize_spec p Hwf Hctx)).
  reflexivity.
Qed.

Lemma nd_take_drop (n : nat) (a : ndarray F) : nd_app (nd_take n a) (nd_drop n a) = a.
Proof. destruct a; cbn; now rewrite firstn_skipn. Qed.

(** Reading an array of a well-formed ensemble, hidden lost particles or not. *)
Lemma getattr_wf (nn f : string) (a : ndarray F) (p : Particles F) :
  wf p -> array_field nn = Some f ->
  assoc f (per_particle p) = Some a ->
  exists n : nat,
    getattr nn p = (p, Ok (nd_take n a)) /\
    (_lim_arrays_name p = None -> n = nd_len a).
Proof.
  intros Hwf Hf Ha. unfold getattr, with_view, view_len. rewrite Hf, Ha.
  destruct (wf_lim p Hwf) as [Hlim|Hlim]; rewrite Hlim.
  - exists (nd_len a). split; [|reflexivity].
    now rewrite nd_take_drop, (assoc_set_same _ _ _ Ha), set_per_particle_same.
  - cbn [size_var String.eqb Ascii.eqb Bool.eqb].
    eexists. split; [|discriminate].
    now rewrite nd_take_drop, (assoc_set_same _ _ _ Ha), set_per_particle_same.
Qed.

Lemma wf_particle_id (p : Particles F) :
  wf p ->
  assoc "particle_id" (per_particle p) = Some (I64 (int_column "particle_id" p)) /\
  Z.of_nat (length (int_column "particle_id" p)) = _capacity p.
Proof.
  intros Hwf. destruct (schema_lookup _ _ (wf_schema p Hwf) Int64 "particle_id")
    as (a & Ha & Ht & Hin).
  - cbn. tauto.
  - apply schema_names_NoDup.
  - unfold int_column. rewrite Ha.
    pose proof (wf_length p Hwf) as Hl. rewrite Forall_forall in Hl.
    specialize (Hl _ Hin). destruct a; try discriminate. split; [reflexivity|exact Hl].
Qed.

(** With no valid particle in the receiver the maximum is taken of nothing. *)
Lemma merge_tail_empty (part p : Particles F) (mask_copy : list bool) :
  wf p ->
  merge_tail part mask_copy 0 0 p = (p, Raise ValueError).
Proof.
  intros Hwf. destruct (wf_particle_id p Hwf) as [Hid _].
  destruct (getattr_wf "particle_id" "particle_id" _ p Hwf eq_refl Hid)
    as (n & Hget & _).
  unfold merge_tail.
  rewrite (bind_ok _ _ p p (_capacity p)) by reflexivity.
  rewrite (bind_ok _ _ _ _ _ Hget). cbn [nd_take as_int].
  rewrite (bind_ok _ _ p p (firstn n (int_column "particle_id" p))) by reflexivity.
  apply bind_raise. unfold lift. f_equal.
  unfold Np.get_slice, Np.slice_bounds, Np.slice_lo, Np.slice_hi, Np.norm_index.
  cbn [Z.add Z.ltb Z.compare]. rewrite Z.min_l by lia. reflexivity.
Qed.

Lemma getattr_of_visible (nn f : string) (a : ndarray F) (part : Particles F) :
  array_field nn = Some f ->
  _lim_arrays_name part = None ->
  assoc f (per_particle part) = Some a ->
  getattr_of part nn = Ok a.
Proof.
  intros Hf Hlim Ha. unfold getattr_of.
  now rewrite (getattr_visible nn f a part Hf Hlim Ha).
Qed.

Lemma max_cons (x : Z) (l : list Z) : exists m, Np.max (x :: l) = Ok m.
Proof. eexists. reflexivity. Qed.

(** More alive donor particles than free slots: nothing is copied. *)
Lemma merge_tail_full (part p : Particles F) (mask_copy : list bool)
  (n_active n_lost : Z) :
  wf p -> _lim_arrays_name p = None ->
  0 <= n_active -> 0 <= n_lost -> 0 < n_active + n_lost ->
  n_active + n_lost <= _capacity p ->
  _capacity p - n_active - n_lost < Np.sum mask_copy ->
  merge_tail part mask_copy n_active n_lost p = (p, Raise NotImplementedError).
Proof.
  intros Hwf Hlim Hna Hnl Hpos Hcap Hfull.
  destruct (wf_particle_id p Hwf) as [Hid Hlen].
  pose proof (getattr_visible "particle_id" "particle_id" _ p eq_refl Hlim Hid)
    as Hget.
  unfold merge_tail.
  rewrite (bind_ok _ _ p p (_capacity p)) by reflexivity.
  rewrite (bind_ok _ _ _ _ _ Hget). cbn [as_int].
  rewrite (bind_ok _ _ p p (int_column "particle_id" p)) by reflexivity.
  set (ids := int_column "particle_id" p) in *.
  assert (Hslice : exists x rest,
             Np.get_slice ids None (Some (n_active + n_lost)) = x :: rest).
  { unfold Np.get_slice, Np.slice_bounds, Np.slice_lo, Np.slice_hi, Np.norm_index.
    replace (n_active + n_lost <? 0) with false by (symmetry; apply Z.ltb_ge; lia).
    rewrite Z.min_l by lia. rewrite Z.sub_0_r, Z.max_r by lia. cbn [Z.to_nat skipn].
    destruct ids as [|x ids']; [cbn [length] in Hlen; lia|].
    destruct (Z.to_nat (n_active + n_lost)) eqn:E; [lia|]. cbn [firstn]. eauto. }
  destruct Hslice as (x & rest & ->).
  rewrite (bind_ok _ _ p p (fold_left Z.max rest x)) by reflexivity.
  apply bind_raise.
  apply Z.ltb_lt in Hfull. now rewrite Hfull.
Qed.

Lemma counts_bounds (p : Particles F) :
  wf p ->
  0 <= n_active_of p /\ 0 <= n_lost_of p /\
  n_active_of p + n_lost_of p <= _capacity p.
Proof.
  intros Hwf. destruct (wf_state p Hwf) as [_ Hcap].
  pose proof (masks_disjoint_sum (state_of p)).
  pose proof (sum_nonneg (mask_active_of (state_of p))).
  pose proof (sum_nonneg (mask_lost_of (state_of p))).
  unfold n_active_of, n_lost_of. lia.
Qed.

Lemma counts_empty (p : Particles F) :
  Forall (fun v => v = LAST_INVALID_STATE) (state_of p) ->
  n_active_of p = 0 /\ n_lost_of p = 0.
Proof.
  intros H. unfold n_active_of, n_lost_of.
  change mask_active_of with (map alive). change mask_lost_of with (map lost_valid).
  rewrite (map_Forall_repeat alive false)
    by (eapply Forall_impl; [|exact H]; now intros v ->).
  rewrite (map_Forall_repeat lost_valid false)
    by (eapply Forall_impl; [|exact H]; now intros v ->).
  now rewrite sum_repeat_false.
Qed.

End Merge.

(** ** Claims on the merge: the failures *)

(** C10. When every slot of the receiver is invalid ([state] is the sentinel
    everywhere), [add_particles] raises: with [keep_lost] unset and masking
    available, the exception is the [ValueError] of [np.max] on the empty
    array of existing identifiers, and the receiver is left as its own
    compaction left it, nothing of the donor copied. *)
Theorem add_particles_empty_receiver {F : Type} {FO : Float64Ops F}
  (p part : Particles F) :
  wf p ->
  Forall (fun v => v = LAST_INVALID_STATE) (state_of p) ->
  (forall keep_lost : bool,
      exists p' e, add_particles part keep_lost p = (p', Raise e)) /\
  (is_pyopencl (context p) = false ->
   _lim_arrays_name part = None -> wf part ->
   add_particles part false p = (reorganized p, Raise ValueError)).
Proof.
  intros Hwf Hempty. destruct (counts_empty p Hempty) as [Ha Hl].
  assert (Htail : forall mc, merge_tail part mc (n_active_of p) (n_lost_of p)
                               (reorganized p)
                             = (reorganized p, Raise ValueError)).
  { intros mc. rewrite Ha, Hl. apply merge_tail_empty. now apply wf_reorganized. }
  split.
  - intros [|]; [do 2 eexists; reflexivity|].
    destruct (is_pyopencl (context p)) eqn:Hctx.
    + exists p, AssertionError. unfold add_particles.
      rewrite (bind_ok _ _ p p tt) by reflexivity.
      rewrite (bind_ok _ _ p p (context p)) by reflexivity.
      now rewrite Hctx.
    + rewrite (add_particles_unfold part p Hwf Hctx).
      destruct (getattr_of part "state") as [a|e]; [|eauto].
      destruct (as_int a) as [pst|e]; [|eauto].
      rewrite Htail. eauto.
  - intros Hctx Hlim Hpart.
    rewrite (add_particles_unfold part p Hwf Hctx).
    destruct (wf_state part Hpart) as [Hst _].
    rewrite (getattr_of_visible "state" "state" _ part eq_refl Hlim Hst).
    cbn [as_int]. apply Htail.
Qed.

Example add_particles_empty_receiver_witness :
  add_particles (ensemble 2 [1; 0] [0; 1]) false
    (ensemble 2 [-999999999; -999999999] [0; 1])
  = (reorganized (ensemble 2 [-999999999; -999999999] [0; 1]), Raise ValueError).
Proof.
  apply add_particles_empty_receiver.
  - apply wfb_sound; vm_compute; reflexivity.
  - repeat constructor.
  - reflexivity.
  - reflexivity.
  - apply wfb_sound; vm_compute; reflexivity.
Defined.




(** ** Merge: the successful copy *)

Section MergeCopy.

Context {F : Type} {FO : Float64Ops F}.

Definition nd_select (mask : list bool) (a : ndarray F) : ndarray F :=
  match a with
  | F64 l => F64 (Np.select l mask)
  | I64 l => I64 (Np.select l mask)
  | U32 l => U32 (Np.select l mask)
  end.

Definition nd_splice (a : ndarray F) (i : nat) (d : ndarray F) : ndarray F :=
  match a, d with
  | F64 l, F64 s => F64 (splice l i s)
  | I64 l, I64 s => I64 (splice l i s)
  | U32 l, U32 s => U32 (splice l i s)
  | _, _ => a
  end.

(** The array of the field [nn] once the alive donor particles are written
    from slot [i] on. *)
Definition copy_column (part : Particles F) (mask_copy : list bool) (i : nat)
  (nn : string) (a : ndarray F) : ndarray F :=
  match assoc nn (per_particle part) with
  | Some src => nd_splice a i (nd_select mask_copy src)
  | None => a
  end.

(** The statements of [add_particles] that follow the check of the scalars. *)
Definition merge_copy (part : Particles F) (mask_copy : list bool)
  (i_start_copy max_id : Z) : St (Particles F) unit :=
  let n_copy := Np.sum mask_copy in
  for_ per_particle_vars (fun '(_, nn) =>
    with_view nn (
      src <- lift (getattr_of part nn) ;;
      vv_copy <- lift (snd (nd_index mask_copy src)) ;;
      nd_set_slice (Some i_start_copy) (Some (i_start_copy + n_copy)) vv_copy)) ;;
  (let first_id := Np.wrap64 (max_id + 1) in
   with_view "particle_id"
     (nd_set_slice (Some i_start_copy) (Some (i_start_copy + n_copy))
        (I64 (Np.arange first_id (Np.wrap64 (first_id + n_copy)))))) ;;
  reorganize ;;
  ret tt.

Definition check_scalars (part : Particles F) : St (Particles F) unit :=
  for_ scalar_vars (fun '(_, nn) =>
    mine <- (fun p => (p, scalar_attr nn p)) ;;
    theirs <- lift (scalar_attr nn part) ;;
    assert_ (isclose mine theirs)).

Lemma check_scalars_spec (part p : Particles F) :
  check_scalars part p
  = (p, if isclose (q0 p) (q0 part) && isclose (mass0 p) (mass0 part)
        then Ok tt else Raise AssertionError).
Proof.
  unfold check_scalars, scalar_vars. cbn [for_].
  unfold bind, lift, scalar_attr, assert_, ret, raise.
  cbn [String.eqb Ascii.eqb Bool.eqb].
  destruct (isclose (q0 p) (q0 part)); [|reflexivity].
  destruct (isclose (mass0 p) (mass0 part)); reflexivity.
Qed.

Lemma firstn_nonempty_max (ids : list Z) (n : nat) :
  (0 < n)%nat -> (0 < length ids)%nat ->
  exists m, Np.max (firstn n ids) = Ok m /\
            In m (firstn n ids) /\ Forall (fun v => v <= m) (firstn n ids).
Proof.
  intros Hn Hl. destruct n as [|n]; [lia|]. destruct ids as [|x ids]; [cbn in Hl; lia|].
  cbn [firstn Np.max]. exists (fold_left Z.max (firstn n ids) x). split; [reflexivity|].
  clear Hn Hl. generalize (firstn n ids) as l. intros l. revert x.
  induction l as [|y l IH]; intros x; cbn [fold_left].
  - split; [now left|]. repeat constructor. lia.
  - destruct (IH (Z.max x y)) as [Hin Hall]. split.
    + destruct Hin as [Hin|Hin]; [|now right; right].
      destruct (Z.max_spec x y) as [[_ E]|[_ E]]; rewrite E in *;
        [right|]; now left.
    + inversion Hall as [|? ? H1 H2]; subst. constructor; [lia|]. constructor; [lia|].
      exact H2.
Qed.

Lemma get_slice_prefix {A : Type} (l : list A) (n : Z) :
  0 <= n <= Z.of_nat (length l) ->
  Np.get_slice l None (Some n) = firstn (Z.to_nat n) l.
Proof.
  intros H.
  unfold Np.get_slice, Np.slice_bounds, Np.slice_lo, Np.slice_hi, Np.norm_index.
  replace (n <? 0) with false by (symmetry; apply Z.ltb_ge; lia).
  rewrite Z.min_l by lia. rewrite Z.sub_0_r, Z.max_r by lia. reflexivity.
Qed.

(** Up to the check of the scalars: the maximum exists, the space suffices. *)
Lemma merge_tail_prefix (part p : Particles F) (mask_copy : list bool)
  (n_active n_lost : Z) :
  wf p -> _lim_arrays_name p = None ->
  0 <= n_active -> 0 <= n_lost -> 0 < n_active + n_lost ->
  n_active + n_lost <= _capacity p ->
  Np.sum mask_copy <= _capacity p - n_active - n_lost ->
  exists max_id,
    Np.max (firstn (Z.to_nat (n_active + n_lost)) (int_column "particle_id" p))
    = Ok max_id /\
    merge_tail part mask_copy n_active n_lost p
    = (check_scalars part ;;
       merge_copy part mask_copy (n_active + n_lost) max_id) p.
Proof.
  intros Hwf Hlim Hna Hnl Hpos Hcap Hfree.
  destruct (wf_particle_id p Hwf) as [Hid Hlen].
  pose proof (getattr_visible "particle_id" "particle_id" _ p eq_refl Hlim Hid)
    as Hget.
  destruct (firstn_nonempty_max (int_column "particle_id" p)
              (Z.to_nat (n_active + n_lost))) as (m & Hm & _); try lia.
  exists m. split; [exact Hm|].
  unfold merge_tail.
  rewrite (bind_ok _ _ p p (_capacity p)) by reflexivity.
  rewrite (bind_ok _ _ _ _ _ Hget). cbn [as_int].
  rewrite (bind_ok _ _ p p (int_column "particle_id" p)) by reflexivity.
  rewrite get_slice_prefix by lia. rewrite Hm.
  rewrite (bind_ok _ _ p p m) by reflexivity.
  replace (_capacity p - n_active - n_lost <? Np.sum mask_copy) with false
    by (symmetry; apply Z.ltb_ge; lia).
  rewrite (bind_ok _ _ p p tt) by reflexivity.
  reflexivity.
Qed.

Lemma with_view_visible {A : Type} (nn f : string) (a v : ndarray F)
  (r : result A) (body : St (ndarray F) A) (p : Particles F) :
  array_field nn = Some f ->
  _lim_arrays_name p = None ->
  assoc f (per_particle p) = Some a ->
  body a = (v, r) -> nd_dtype v = nd_dtype a ->
  with_view nn body p = (store f v p, r).
Proof.
  intros Hf Hlim Ha Hb Hd. unfold with_view, view_len, store.
  rewrite Hf, Ha, Hlim, nd_take_all, Hb.
  now rewrite (nd_app_drop_all _ _ Hd).
Qed.

Lemma nd_select_len (mask : list bool) (a : ndarray F) :
  length mask = nd_len a ->
  Z.of_nat (nd_len (nd_select mask a)) = Np.sum mask.
Proof.
  intros H. destruct a; cbn [nd_select nd_len] in *; symmetry; now apply sum_select.
Qed.

Lemma nd_select_dtype (mask : list bool) (a : ndarray F) :
  nd_dtype (nd_select mask a) = nd_dtype a.
Proof. now destruct a. Qed.

Lemma nd_splice_dtype (a d : ndarray F) (i : nat) :
  nd_dtype (nd_splice a i d) = nd_dtype a.
Proof. now destruct a, d. Qed.

Lemma nd_splice_len (a d : ndarray F) (i : nat) :
  (i + nd_len d <= nd_len a)%nat -> nd_len (nd_splice a i d) = nd_len a.
Proof.
  destruct a, d; cbn [nd_splice nd_len]; intros H; try reflexivity;
    now apply splice_length.
Qed.

Lemma nd_set_slice_splice (a d : ndarray F) (i n : Z) :
  nd_dtype d = nd_dtype a ->
  0 <= i -> n = Z.of_nat (nd_len d) -> i + n <= Z.of_nat (nd_len a) ->
  nd_set_slice (Some i) (Some (i + n)) d a = (nd_splice a (Z.to_nat i) d, Ok tt).
Proof.
  intros Hd Hi Hn Hle. unfold nd_set_slice.
  destruct a, d; try discriminate; cbn [nd_len nd_splice] in *;
    now rewrite (set_slice_splice _ i n _ Hi Hn Hle).
Qed.

(** The body of the copy loop on one array of the receiver. *)
Lemma copy_body (part : Particles F) (mask_copy : list bool) (i : Z)
  (nn : string) (a src : ndarray F) :
  getattr_of part nn = Ok src ->
  assoc nn (per_particle part) = Some src ->
  nd_dtype src = nd_dtype a ->
  length mask_copy = nd_len src ->
  0 <= i -> i + Np.sum mask_copy <= Z.of_nat (nd_len a) ->
  (src <- lift (getattr_of part nn) ;;
   vv_copy <- lift (snd (nd_index mask_copy src)) ;;
   nd_set_slice (Some i) (Some (i + Np.sum mask_copy)) vv_copy) a
  = (copy_column part mask_copy (Z.to_nat i) nn a, Ok tt).
Proof.
  intros Hget Hsrc Hd Hlen Hi Hle.
  rewrite (bind_ok _ _ a a src) by (unfold lift; now rewrite Hget).
  assert (Hidx : snd (nd_index mask_copy src) = Ok (nd_select mask_copy src)).
  { unfold nd_index, Np.bool_index.
    destruct src; cbn [nd_len snd nd_select] in *;
      now rewrite Hlen, Nat.eqb_refl. }
  rewrite (bind_ok _ _ a a (nd_select mask_copy src))
    by (unfold lift; now rewrite Hidx).
  unfold copy_column. rewrite Hsrc.
  apply nd_set_slice_splice; auto.
  - now rewrite nd_select_dtype.
  - now rewrite nd_select_len.
Qed.

Lemma wf_column (p : Particles F) (t : dtype) (nn : string) :
  wf p -> In (t, nn) per_particle_vars ->
  exists a, assoc nn (per_particle p) = Some a /\ nd_dtype a = t /\
            Z.of_nat (nd_len a) = _capacity p.
Proof.
  intros Hwf Hin.
  destruct (schema_lookup _ _ (wf_schema p Hwf) t nn Hin schema_names_NoDup)
    as (a & Ha & Ht & Hina).
  exists a. repeat split; auto.
  pose proof (wf_length p Hwf) as Hl. rewrite Forall_forall in Hl.
  exact (Hl _ Hina).
Qed.

Lemma wf_column_of (p : Particles F) (nn : string) (a : ndarray F) :
  wf p -> In (nn, a) (per_particle p) ->
  In (nd_dtype a, nn) per_particle_vars /\
  assoc nn (per_particle p) = Some a /\
  Z.of_nat (nd_len a) = _capacity p.
Proof.
  intros Hwf Hin.
  assert (Hs : In (nd_dtype a, nn) per_particle_vars).
  { rewrite <- (wf_schema p Hwf).
    change (nd_dtype a, nn) with ((fun c : string * ndarray F => (nd_dtype (snd c), fst c)) (nn, a)).
    now apply in_map. }
  split; [exact Hs|].
  destruct (wf_column p _ _ Hwf Hs) as (b & Hb & Ht & Hl).
  pose proof (wf_length p Hwf) as Hlen. rewrite Forall_forall in Hlen.
  split; [|exact (Hlen _ Hin)].
  rewrite Hb. f_equal.
  (* the names are distinct: the array found under [nn] is [a] *)
  pose proof (wf_names p Hwf) as Hn.
  assert (Hnd : NoDup (map fst (per_particle p)))
    by (rewrite Hn; apply schema_names_NoDup).
  clear - Hin Hb Hnd. induction (per_particle p) as [|[k v] l IH]; [easy|].
  cbn in *. inversion Hnd as [|? ? Hfresh Hnd']; subst.
  destruct (String.eqb_spec k nn) as [->|Hne].
  - destruct Hin as [[= ->]|Hin]; [congruence|].
    exfalso. apply Hfresh. change nn with (fst (nn, a)). now apply in_map.
  - destruct Hin as [[= -> _]|Hin]; [congruence|]. auto.
Qed.

Lemma wrap64_small (z : Z) : - 2 ^ 63 <= z < 2 ^ 63 -> Np.wrap64 z = z.
Proof.
  intros H. unfold Np.wrap64. rewrite Z.mod_small by lia. lia.
Qed.

Lemma wrap64_mod (z : Z) : (Np.wrap64 z - z) mod 2 ^ 64 = 0.
Proof.
  unfold Np.wrap64.
  replace ((z + 2 ^ 63) mod 2 ^ 64 - 2 ^ 63 - z)
    with ((z + 2 ^ 63) mod 2 ^ 64 - (z + 2 ^ 63)) by lia.
  rewrite (Z.mod_eq (z + 2 ^ 63) (2 ^ 64)) by lia.
  replace (z + 2 ^ 63 - 2 ^ 64 * ((z + 2 ^ 63) / 2 ^ 64) - (z + 2 ^ 63))
    with (- ((z + 2 ^ 63) / 2 ^ 64) * 2 ^ 64) by lia.
  apply Z.mod_mul. lia.
Qed.

Lemma wrap64_range (z : Z) : - 2 ^ 63 <= Np.wrap64 z < 2 ^ 63.
Proof.
  unfold Np.wrap64. pose proof (Z.mod_pos_bound (z + 2 ^ 63) (2 ^ 64)). lia.
Qed.

(** Two numbers that agree modulo [2^64] wrap to the same value. *)
Lemma wrap64_congr (x y : Z) : (x - y) mod 2 ^ 64 = 0 -> Np.wrap64 x = Np.wrap64 y.
Proof.
  intros H. unfold Np.wrap64. f_equal.
  apply Z.mod_divide in H; [|lia]. destruct H as [k Hk].
  replace (x + 2 ^ 63) with (y + 2 ^ 63 + k * 2 ^ 64) by lia.
  apply Z.mod_add. lia.
Qed.

Lemma wrap64_add_l (x y : Z) : Np.wrap64 (Np.wrap64 x + y) = Np.wrap64 (x + y).
Proof.
  apply wrap64_congr.
  replace (Np.wrap64 x + y - (x + y)) with (Np.wrap64 x - x) by lia.
  apply wrap64_mod.
Qed.

Lemma wrap64_sub (x y : Z) :
  Np.wrap64 (Np.wrap64 x - Np.wrap64 y) = Np.wrap64 (x - y).
Proof.
  apply wrap64_congr.
  pose proof (wrap64_mod x) as Hx. pose proof (wrap64_mod y) as Hy.
  apply Z.mod_divide in Hx; [|lia]. apply Z.mod_divide in Hy; [|lia].
  destruct Hx as [k Hk], Hy as [j Hj].
  replace (Np.wrap64 x - Np.wrap64 y - (x - y)) with ((k - j) * 2 ^ 64) by lia.
  apply Z.mod_mul. lia.
Qed.

(** The bounds of [np.arange] may be given wrapped or not. *)
Lemma arange_wrap_args (a n : Z) :
  Np.arange (Np.wrap64 a) (Np.wrap64 (Np.wrap64 a + n)) = Np.arange a (a + n).
Proof.
  unfold Np.arange.
  replace (Np.wrap64 (Np.wrap64 (Np.wrap64 a + n) - Np.wrap64 a))
    with (Np.wrap64 (a + n - a)).
  - apply map_ext. intros k. apply wrap64_add_l.
  - rewrite (wrap64_sub (Np.wrap64 a + n) a). symmetry. apply wrap64_congr.
    replace (Np.wrap64 a + n - a - (a + n - a)) with (Np.wrap64 a - a) by lia.
    apply wrap64_mod.
Qed.

Lemma arange_length (a b : Z) :
  0 <= b - a < 2 ^ 63 -> length (Np.arange a b) = Z.to_nat (b - a).
Proof.
  intros H. unfold Np.arange. rewrite length_map, length_seq.
  now rewrite wrap64_small by lia.
Qed.

Lemma wf_store (p : Particles F) (nn : string) (a v : ndarray F) :
  wf p -> assoc nn (per_particle p) = Some a ->
  nd_dtype v = nd_dtype a -> nd_len v = nd_len a ->
  wf (store nn v p).
Proof.
  intros Hwf Ha Hd Hl. pose proof (wf_schema p Hwf) as Hs.
  pose proof (wf_length p Hwf) as Hlen.
  split; unfold store; cbn [per_particle set_per_particle _capacity _lim_arrays_name].
  - rewrite <- Hs. clear Hs Hlen.
    induction (per_particle p) as [|[k b] l IH]; [reflexivity|].
    cbn in Ha |- *. destruct (String.eqb_spec k nn) as [->|Hne].
    + injection Ha as ->. cbn. now rewrite Hd.
    + cbn. f_equal. now apply IH.
  - clear Hs. induction (per_particle p) as [|[k b] l IH]; [constructor|].
    cbn in Ha |- *. inversion Hlen as [|? ? H1 H2]; subst.
    destruct (String.eqb_spec k nn) as [->|Hne].
    + injection Ha as ->. constructor; [|exact H2]. cbn in *. now rewrite Hl.
    + constructor; [exact H1|]. now apply IH.
  - exact (wf_lim p Hwf).
Qed.

(** The receiver after the copy loop. *)
Definition copied (part : Particles F) (mask_copy : list bool) (i : nat)
  (p : Particles F) : Particles F :=
  set_per_particle
    (map_columns (copy_column part mask_copy i) (per_particle p)) p.

Lemma copy_column_ok (part p : Particles F) (mask_copy : list bool) (i : Z)
  (nn : string) (a : ndarray F) :
  wf p -> wf part -> _lim_arrays_name part = None ->
  Z.of_nat (length mask_copy) = _capacity part ->
  0 <= i -> i + Np.sum mask_copy <= _capacity p ->
  In (nn, a) (per_particle p) ->
  (src <- lift (getattr_of part nn) ;;
   vv_copy <- lift (snd (nd_index mask_copy src)) ;;
   nd_set_slice (Some i) (Some (i + Np.sum mask_copy)) vv_copy) a
  = (copy_column part mask_copy (Z.to_nat i) nn a, Ok tt) /\
  nd_dtype (copy_column part mask_copy (Z.to_nat i) nn a) = nd_dtype a /\
  nd_len (copy_column part mask_copy (Z.to_nat i) nn a) = nd_len a.
Proof.
  intros Hwf Hpart Hlim Hmask Hi Hle Hin.
  destruct (wf_column_of p nn a Hwf Hin) as (Hs & Ha & Hlen).
  destruct (wf_column part _ _ Hpart Hs) as (src & Hsrc & Hd & Hl).
  assert (Hfield : array_field nn = Some nn).
  { pose proof array_field_schema as H. rewrite Forall_forall in H.
    exact (H _ Hs). }
  assert (Hm : length mask_copy = nd_len src) by lia.
  split; [|split].
  - apply (copy_body part mask_copy i nn a src); auto; try lia.
    now apply (getattr_of_visible nn nn).
  - unfold copy_column. rewrite Hsrc. apply nd_splice_dtype.
  - unfold copy_column. rewrite Hsrc. apply nd_splice_len.
    pose proof (nd_select_len mask_copy src Hm). lia.
Qed.

Lemma wf_copied (part p : Particles F) (mask_copy : list bool) (i : Z) :
  wf p -> wf part -> _lim_arrays_name part = None ->
  Z.of_nat (length mask_copy) = _capacity part ->
  0 <= i -> i + Np.sum mask_copy <= _capacity p ->
  wf (copied part mask_copy (Z.to_nat i) p).
Proof.
  intros Hwf Hpart Hlim Hmask Hi Hle.
  assert (Hcol : forall c, In c (per_particle p) ->
            nd_dtype (copy_column part mask_copy (Z.to_nat i) (fst c) (snd c))
            = nd_dtype (snd c) /\
            nd_len (copy_column part mask_copy (Z.to_nat i) (fst c) (snd c))
            = nd_len (snd c)).
  { intros [nn a] Hin.
    now destruct (copy_column_ok part p mask_copy i nn a) as (_ & ? & ?). }
  split; unfold copied;
    cbn [per_particle set_per_particle _capacity _lim_arrays_name].
  - rewrite <- (wf_schema p Hwf). unfold map_columns. rewrite map_map.
    apply map_ext_in. intros c Hc. cbn [fst snd]. f_equal. now apply Hcol.
  - unfold map_columns. rewrite Forall_map.
    pose proof (wf_length p Hwf) as Hlen. rewrite Forall_forall in *.
    intros c Hc. cbn [snd]. destruct (Hcol c Hc) as [_ ->]. now apply Hlen.
  - exact (wf_lim p Hwf).
Qed.

(** The whole copy: every array, then the new identifiers, then the second
    compaction. *)
Lemma merge_copy_spec (part p : Particles F) (mask_copy : list bool) (i max_id : Z) :
  wf p -> _lim_arrays_name p = None -> is_pyopencl (context p) = false ->
  wf part -> _lim_arrays_name part = None ->
  Z.of_nat (length mask_copy) = _capacity part ->
  0 <= i -> i + Np.sum mask_copy <= _capacity p -> _capacity p < 2 ^ 63 ->
  let p2 := copied part mask_copy (Z.to_nat i) p in
  let p3 := store "particle_id"
              (I64 (splice (int_column "particle_id" p2) (Z.to_nat i)
                      (Np.arange (max_id + 1) (max_id + 1 + Np.sum mask_copy))))
              p2 in
  merge_copy part mask_copy i max_id p = (reorganized p3, Ok tt) /\ wf p3.
Proof.
  intros Hwf Hlim Hctx Hpart Hlimp Hmask Hi Hle Hcap p2 p3.
  pose proof (sum_nonneg mask_copy) as Hnc.
  assert (Hwf2 : wf p2) by (apply wf_copied; auto).
  destruct (wf_particle_id p2 Hwf2) as [Hid2 Hlen2].
  assert (Hcap2 : _capacity p2 = _capacity p) by reflexivity.
  assert (Hwf3 : wf p3).
  { apply (wf_store p2 _ _ _ Hwf2 Hid2); [reflexivity|].
    cbn [nd_len]. apply splice_length. rewrite arange_length; lia. }
  split; [|exact Hwf3].
  assert (Hloop :
    for_ per_particle_vars (fun '(_, nn) =>
      with_view nn (
        src <- lift (getattr_of part nn) ;;
        vv_copy <- lift (snd (nd_index mask_copy src)) ;;
        nd_set_slice (Some i) (Some (i + Np.sum mask_copy)) vv_copy)) p
    = (p2, Ok tt)).
  { apply (loop_columns (fun nn => _) (copy_column part mask_copy (Z.to_nat i))
             per_particle_vars (per_particle p) [] p); try reflexivity; auto.
    - exact (wf_names p Hwf).
    - cbn [app]. rewrite (wf_names p Hwf). apply schema_names_NoDup.
    - pose proof array_field_schema as H. rewrite Forall_forall in *.
      intros c Hc. apply in_map with (f := fst) in Hc.
      rewrite (wf_names p Hwf) in Hc.
      apply in_map_iff in Hc. destruct Hc as (tn & <- & Htn). now apply H.
    - rewrite Forall_forall. intros [nn a] Hin. cbn [fst snd].
      destruct (copy_column_ok part p mask_copy i nn a) as (? & ? & _); auto. }
  assert (Hids :
    with_view "particle_id"
      (nd_set_slice (Some i) (Some (i + Np.sum mask_copy))
         (I64 (Np.arange (Np.wrap64 (max_id + 1))
                 (Np.wrap64 (Np.wrap64 (max_id + 1) + Np.sum mask_copy))))) p2
    = (p3, Ok tt)).
  { rewrite arange_wrap_args.
    apply (with_view_visible "particle_id" "particle_id"
             (I64 (int_column "particle_id" p2))); auto.
    apply nd_set_slice_splice; auto; cbn [nd_len]; try lia.
    rewrite arange_length; lia. }
  unfold merge_copy.
  rewrite (bind_ok _ _ _ _ _ Hloop).
  rewrite (bind_ok _ _ _ _ _ Hids).
  rewrite (bind_ok _ _ _ _ _ (reorganize_spec p3 Hwf3 Hctx)).
  reflexivity.
Qed.

End MergeCopy.

(** One array after the merge: the alive, the copied, the lost, the rest. *)
Definition merged_list {A : Type} (x : A) (ma ml : list bool) (l d : list A)
  : list A :=
  let va := Np.select l ma in
  let vl := Np.select l ml in
  (va ++ d) ++ vl ++ repeat x (length l - length va - length vl - length d).

Lemma column_after_merge {A : Type} (x : A) (st ds : list Z) (l d : list A) :
  length l = length st -> length d = length ds ->
  Forall (fun v => alive v = true) ds ->
  let ma := mask_active_of st in
  let ml := mask_lost_of st in
  let i := (length (Np.select st ma) + length (Np.select st ml))%nat in
  (i + length ds <= length st)%nat ->
  let st2 := splice (compact LAST_INVALID_STATE ma ml st) i ds in
  compact x (mask_active_of st2) (mask_lost_of st2)
    (splice (compact x ma ml l) i d)
  = merged_list x ma ml l d.
Proof.
  intros Hl Hd Hds ma ml i Hle st2.
  assert (Lma : length ma = length st) by (unfold ma, mask_active_of; apply length_map).
  assert (Lml : length ml = length st) by (unfold ml, mask_lost_of; apply length_map).
  assert (Ea : length (Np.select l ma) = length (Np.select st ma)).
  { pose proof (sum_select l ma). pose proof (sum_select st ma). lia. }
  assert (El : length (Np.select l ml) = length (Np.select st ml)).
  { pose proof (sum_select l ml). pose proof (sum_select st ml). lia. }
  set (sa := Np.select st ma) in *. set (sl := Np.select st ml) in *.
  set (va := Np.select l ma) in *. set (vl := Np.select l ml) in *.
  assert (Hst2 : st2 = sa ++ sl ++ ds
                       ++ repeat LAST_INVALID_STATE (length st - i - length ds)).
  { unfold st2, compact. cbv zeta. fold sa sl.
    rewrite (app_assoc sa sl).
    rewrite (splice_tail_at _ (sa ++ sl) ds _ i)
      by (rewrite ?length_app; unfold i in *; lia).
    rewrite <- app_assoc. do 3 f_equal. f_equal. unfold i. lia. }
  assert (Hl2 : splice (compact x ma ml l) i d
                = va ++ vl ++ d ++ repeat x (length st - i - length ds)).
  { unfold compact. cbv zeta. fold va vl.
    rewrite (app_assoc va vl).
    rewrite (splice_tail_at _ (va ++ vl) d _ i)
      by (rewrite ?length_app; unfold i in *; lia).
    rewrite <- app_assoc. do 3 f_equal. f_equal. unfold i. lia. }
  destruct (masks_after_copy sa sl ds (length st - i - length ds)) as [Hma Hml];
    auto; try apply (select_map_Forall alive); try apply (select_map_Forall lost_valid).
  rewrite Hst2, Hma, Hml, Hl2, <- Ea, <- El, <- Hd.
  rewrite compact_after_copy. unfold merged_list. cbv zeta. fold va vl.
  do 3 f_equal. unfold i. lia.
Qed.

Section MergeResult.

Context {F : Type} {FO : Float64Ops F}.

Lemma assoc_assoc_set_other {A : Type} (k k' : string) (v : A)
  (l : list (string * A)) :
  k <> k' -> assoc k (assoc_set k' v l) = assoc k l.
Proof.
  intros Hne. induction l as [|[k0 v0] l IH]; [reflexivity|].
  cbn. destruct (String.eqb_spec k0 k') as [->|H0]; cbn.
  - destruct (String.eqb_spec k' k) as [->|_]; [congruence|reflexivity].
  - destruct (String.eqb_spec k0 k); [reflexivity|exact IH].
Qed.

Lemma assoc_assoc_set_same {A : Type} (k : string) (v w : A)
  (l : list (string * A)) :
  assoc k l = Some w -> assoc k (assoc_set k v l) = Some v.
Proof.
  induction l as [|[k0 v0] l IH]; [discriminate|].
  cbn. destruct (String.eqb_spec k0 k) as [->|H0]; cbn.
  - now rewrite String.eqb_refl.
  - destruct (String.eqb_spec k0 k); [congruence|exact IH].
Qed.

Lemma int_column_reorganized (p : Particles F) (nn : string) :
  wf p -> In (Int64, nn) per_particle_vars ->
  int_column nn (reorganized p)
  = compact LAST_INVALID_STATE (mask_active_of (state_of p))
      (mask_lost_of (state_of p)) (int_column nn p).
Proof.
  intros Hwf Hin. destruct (wf_column p _ _ Hwf Hin) as (a & Ha & Ht & _).
  unfold int_column, reorganized. cbn [per_particle].
  rewrite assoc_map_columns, Ha. destruct a; try discriminate. reflexivity.
Qed.

(** The receiver just before the second compaction. *)
Definition before_compaction (part p : Particles F) (max_id : Z) : Particles F :=
  let mask_copy := mask_active_of (state_of part) in
  let i := Z.to_nat (n_active_of p + n_lost_of p) in
  let p2 := copied part mask_copy i (reorganized p) in
  store "particle_id"
    (I64 (splice (int_column "particle_id" p2) i
            (Np.arange (max_id + 1) (max_id + 1 + n_active_of part))))
    p2.

(** The receiver after a successful merge. *)
Definition merged (part p : Particles F) (max_id : Z) : Particles F :=
  reorganized (before_compaction part p max_id).

Lemma splice_splice {A : Type} (l d d' : list A) (i : nat) :
  length d = length d' -> (i + length d <= length l)%nat ->
  splice (splice l i d) i d' = splice l i d'.
Proof.
  intros Hd Hle. unfold splice.
  rewrite firstn_app, firstn_firstn, Nat.min_id, length_firstn.
  replace (i - Nat.min i (length l))%nat with 0%nat by lia. rewrite firstn_O, app_nil_r.
  do 2 f_equal. rewrite <- Hd.
  rewrite skipn_app, length_firstn, skipn_all2 by (rewrite length_firstn; lia).
  cbn [app]. rewrite skipn_app, skipn_all2 by lia. cbn [app].
  replace (i + length d - Nat.min i (length l) - length d)%nat with 0%nat by lia.
  reflexivity.
Qed.

Lemma state_before_compaction (part p : Particles F) (max_id : Z) :
  wf p -> wf part ->
  state_of (before_compaction part p max_id)
  = splice (compact LAST_INVALID_STATE (mask_active_of (state_of p))
              (mask_lost_of (state_of p)) (state_of p))
      (Z.to_nat (n_active_of p + n_lost_of p))
      (Np.select (state_of part) (mask_active_of (state_of part))).
Proof.
  intros Hwf Hpart.
  destruct (wf_state p Hwf) as [Hst _]. destruct (wf_state part Hpart) as [Hpst _].
  unfold state_of at 1, int_column, before_compaction, store, copied.
  cbn [per_particle set_per_particle].
  rewrite assoc_assoc_set_other by discriminate.
  rewrite assoc_map_columns. unfold reorganized at 1. cbn [per_particle].
  rewrite assoc_map_columns, Hst. cbn [option_map nd_compact].
  unfold copy_column. rewrite Hpst. reflexivity.
Qed.

Lemma ids_before_compaction (part p : Particles F) (max_id : Z) :
  wf p -> wf part -> _lim_arrays_name part = None ->
  n_active_of p + n_lost_of p + n_active_of part <= _capacity p ->
  _capacity p < 2 ^ 63 ->
  int_column "particle_id" (before_compaction part p max_id)
  = splice (compact LAST_INVALID_STATE (mask_active_of (state_of p))
              (mask_lost_of (state_of p)) (int_column "particle_id" p))
      (Z.to_nat (n_active_of p + n_lost_of p))
      (Np.arange (max_id + 1) (max_id + 1 + n_active_of part)).
Proof.
  intros Hwf Hpart Hlimp Hle Hcap63.
  destruct (wf_particle_id p Hwf) as [Hid Hlen].
  destruct (wf_particle_id part Hpart) as [Hpid Hplen].
  destruct (wf_state p Hwf) as [_ Hcap]. destruct (wf_state part Hpart) as [_ Hpcap].
  destruct (counts_bounds p Hwf) as (Ha & Hl & _).
  destruct (counts_bounds part Hpart) as (Hnc & _ & _).
  set (mc := mask_active_of (state_of part)) in *.
  set (i := Z.to_nat (n_active_of p + n_lost_of p)) in *.
  assert (Lmc : Z.of_nat (length mc) = _capacity part)
    by (unfold mc, mask_active_of; now rewrite length_map).
  assert (Hwf2 : wf (copied part mc i (reorganized p))).
  { apply (wf_copied part (reorganized p) mc (n_active_of p + n_lost_of p));
      auto; try lia.
    now apply wf_reorganized. }
  assert (Hids2 :
    int_column "particle_id" (copied part mc i (reorganized p))
    = splice (compact LAST_INVALID_STATE (mask_active_of (state_of p))
                (mask_lost_of (state_of p)) (int_column "particle_id" p))
        i (Np.select (int_column "particle_id" part) mc)).
  { unfold int_column at 1, copied. cbn [per_particle set_per_particle].
    rewrite assoc_map_columns. unfold reorganized at 1. cbn [per_particle].
    rewrite assoc_map_columns, Hid. cbn [option_map nd_compact].
    unfold copy_column. rewrite Hpid. reflexivity. }
  unfold before_compaction. cbv zeta. fold mc i.
  unfold int_column at 1, store. cbn [per_particle set_per_particle].
  rewrite (assoc_assoc_set_same _ _ _ _ (proj1 (wf_particle_id _ Hwf2))).
  rewrite Hids2.
  assert (Hsel : Z.of_nat (length (Np.select (int_column "particle_id" part) mc))
                 = n_active_of part).
  { symmetry. apply sum_select. lia. }
  apply splice_splice.
  - rewrite arange_length; lia.
  - rewrite compact_length.
    + lia.
    + unfold mask_active_of. rewrite length_map. lia.
    + unfold mask_lost_of. rewrite length_map. lia.
    + pose proof (masks_disjoint_sum (state_of p)). lia.
Qed.

Definition nd_merged (ma ml : list bool) (a d : ndarray F) : ndarray F :=
  match a, d with
  | F64 l, F64 s => F64 (merged_list (of_int LAST_INVALID_STATE) ma ml l s)
  | I64 l, I64 s => I64 (merged_list LAST_INVALID_STATE ma ml l s)
  | U32 l, U32 s => U32 (merged_list (Np.wrap_u32 LAST_INVALID_STATE) ma ml l s)
  | _, _ => a
  end.

(** The facts about sizes every array of receiver and donor shares. *)
Record merge_sizes (part p : Particles F) : Prop := {
  ms_len : Z.of_nat (length (state_of p)) = _capacity p;
  ms_plen : Z.of_nat (length (state_of part)) = _capacity part;
  ms_i : Z.to_nat (n_active_of p + n_lost_of p)
         = (length (Np.select (state_of p) (mask_active_of (state_of p)))
            + length (Np.select (state_of p) (mask_lost_of (state_of p))))%nat;
  ms_nc : Z.of_nat (length (Np.select (state_of part)
                              (mask_active_of (state_of part))))
          = n_active_of part;
  ms_alive : Forall (fun v => alive v = true)
               (Np.select (state_of part) (mask_active_of (state_of part)));
  ms_pos : 0 <= n_active_of p + n_lost_of p
}.

Lemma merge_sizes_wf (part p : Particles F) :
  wf p -> wf part -> merge_sizes part p.
Proof.
  intros Hwf Hpart.
  destruct (wf_state p Hwf) as [_ Hcap]. destruct (wf_state part Hpart) as [_ Hpcap].
  split; auto.
  - unfold n_active_of, n_lost_of.
    rewrite (sum_select (state_of p) (mask_active_of (state_of p)))
      by (unfold mask_active_of; apply length_map).
    rewrite (sum_select (state_of p) (mask_lost_of (state_of p)))
      by (unfold mask_lost_of; apply length_map).
    lia.
  - symmetry. apply sum_select. unfold mask_active_of. apply length_map.
  - apply (select_map_Forall alive).
  - destruct (counts_bounds p Hwf) as (? & ? & _). lia.
Qed.

Lemma state_merged (part p : Particles F) (max_id : Z) :
  wf p -> wf part -> wf (before_compaction part p max_id) ->
  n_active_of p + n_lost_of p + n_active_of part <= _capacity p ->
  state_of (merged part p max_id)
  = merged_list LAST_INVALID_STATE (mask_active_of (state_of p))
      (mask_lost_of (state_of p)) (state_of p)
      (Np.select (state_of part) (mask_active_of (state_of part))).
Proof.
  intros Hwf Hpart Hwf3 Hle.
  destruct (merge_sizes_wf part p Hwf Hpart) as [Hlen Hplen Hi Hnc Halive Hpos].
  unfold merged. rewrite (state_of_reorganized _ Hwf3).
  rewrite (state_before_compaction part p max_id Hwf Hpart), Hi.
  apply column_after_merge; auto. lia.
Qed.

Lemma ids_merged (part p : Particles F) (max_id : Z) :
  wf p -> wf part -> _lim_arrays_name part = None ->
  wf (before_compaction part p max_id) ->
  n_active_of p + n_lost_of p + n_active_of part <= _capacity p ->
  _capacity p < 2 ^ 63 ->
  int_column "particle_id" (merged part p max_id)
  = merged_list LAST_INVALID_STATE (mask_active_of (state_of p))
      (mask_lost_of (state_of p)) (int_column "particle_id" p)
      (Np.arange (max_id + 1) (max_id + 1 + n_active_of part)).
Proof.
  intros Hwf Hpart Hlimp Hwf3 Hle Hcap63.
  destruct (merge_sizes_wf part p Hwf Hpart) as [Hlen Hplen Hi Hnc Halive Hpos].
  destruct (wf_particle_id p Hwf) as [_ Hidlen].
  destruct (counts_bounds part Hpart) as (Hncp & _ & _).
  unfold merged. rewrite (int_column_reorganized _ "particle_id" Hwf3)
    by (cbn; tauto).
  rewrite (state_before_compaction part p max_id Hwf Hpart).
  rewrite (ids_before_compaction part p max_id Hwf Hpart Hlimp Hle Hcap63), Hi.
  apply column_after_merge; auto; try lia.
  rewrite arange_length; lia.
Qed.

(** Every other array holds, behind the alive particles of the receiver, the
    values of the alive donor particles in the donor's order. *)
Lemma column_merged (part p : Particles F) (max_id : Z) (nn : string)
  (a src : ndarray F) :
  wf p -> wf part -> wf (before_compaction part p max_id) ->
  n_active_of p + n_lost_of p + n_active_of part <= _capacity p ->
  nn <> "particle_id" ->
  In (nn, a) (per_particle p) ->
  assoc nn (per_particle part) = Some src ->
  assoc nn (per_particle (merged part p max_id))
  = Some (nd_merged (mask_active_of (state_of p)) (mask_lost_of (state_of p)) a
            (nd_select (mask_active_of (state_of part)) src)).
Proof.
  intros Hwf Hpart Hwf3 Hle Hnn Hin Hsrc.
  destruct (merge_sizes_wf part p Hwf Hpart) as [Hlen Hplen Hi Hnc Halive Hpos].
  destruct (wf_column_of p nn a Hwf Hin) as (Hs & Ha & Halen).
  destruct (wf_column part _ _ Hpart Hs) as (src' & Hsrc' & Hd & Hsl).
  rewrite Hsrc in Hsrc'. injection Hsrc' as <-.
  unfold merged, reorganized at 1. cbn [per_particle].
  rewrite assoc_map_columns.
  rewrite (state_before_compaction part p max_id Hwf Hpart), Hi.
  unfold before_compaction, store, copied. cbn [per_particle set_per_particle].
  rewrite assoc_assoc_set_other by exact Hnn.
  rewrite assoc_map_columns. unfold reorganized at 1. cbn [per_particle].
  rewrite assoc_map_columns, Ha. cbn [option_map].
  unfold copy_column. rewrite Hsrc, Hi. f_equal.
  assert (Hsel : forall (A : Type) (s : list A),
             Z.of_nat (length s) = _capacity part ->
             length (Np.select s (mask_active_of (state_of part)))
             = length (Np.select (state_of part) (mask_active_of (state_of part)))).
  { intros A s Hs'.
    pose proof (sum_select s (mask_active_of (state_of part))) as H1.
    pose proof (sum_select (state_of part) (mask_active_of (state_of part))) as H2.
    unfold mask_active_of in H1 at 1, H2 at 1. rewrite length_map in H1, H2.
    specialize (H1 ltac:(lia)). specialize (H2 eq_refl). lia. }
  destruct a as [l|l|l], src as [s0|s0|s0]; try discriminate;
    cbn [nd_compact nd_select nd_splice nd_merged nd_len] in *; f_equal;
    apply column_after_merge; auto; try lia.
Qed.

End MergeResult.

(** ** The identifiers of the valid particles *)

Definition valid (v : Z) : bool := LAST_INVALID_STATE <? v.

Definition non_sentinel (v : Z) : bool := negb (v =? LAST_INVALID_STATE).

Lemma firstn_compact {A : Type} (x : A) (ma ml : list bool) (l : list A) :
  firstn (length (Np.select l ma) + length (Np.select l ml)) (compact x ma ml l)
  = Np.select l ma ++ Np.select l ml.
Proof.
  unfold compact. cbv zeta. rewrite app_assoc.
  rewrite firstn_app, firstn_all2 by (rewrite length_app; lia).
  rewrite length_app, Nat.sub_diag, firstn_O. apply app_nil_r.
Qed.

Lemma select_valid_perm (ids st : list Z) :
  length ids = length st ->
  Permutation (Np.select ids (map valid st))
    (Np.select ids (mask_active_of st) ++ Np.select ids (mask_lost_of st)).
Proof.
  revert st; induction ids as [|x ids IH]; intros [|v st] Hlen;
    try discriminate; [constructor|].
  injection Hlen as Hlen. specialize (IH st Hlen).
  unfold mask_active_of, mask_lost_of in *. cbn [map Np.select].
  unfold valid at 1.
  destruct (Z.ltb_spec 0 v) as [H0|H0].
  - replace (LAST_INVALID_STATE <? v) with true
      by (symmetry; apply Z.ltb_lt; unfold LAST_INVALID_STATE; lia).
    replace (v <? 1) with false by (symmetry; apply Z.ltb_ge; lia).
    cbn [andb app]. now constructor.
  - replace (v <? 1) with true by (symmetry; apply Z.ltb_lt; lia).
    cbn [andb]. destruct (LAST_INVALID_STATE <? v).
    + now apply Permutation_cons_app.
    + exact IH.
Qed.

(** Without overflow [np.arange(a, b)] is the run [a, a+1, ..., b-1]. *)
Lemma arange_In (a b x : Z) :
  - 2 ^ 63 <= a -> b <= 2 ^ 63 -> 0 <= b - a < 2 ^ 63 ->
  In x (Np.arange a b) <-> a <= x < b.
Proof.
  intros Ha Hb Hn. unfold Np.arange. rewrite in_map_iff.
  rewrite (wrap64_small (b - a)) by lia. split.
  - intros (k & <- & Hk). apply in_seq in Hk. rewrite wrap64_small; lia.
  - intros H. exists (Z.to_nat (x - a)). split; [|apply in_seq; lia].
    rewrite wrap64_small; lia.
Qed.

Lemma arange_NoDup (a b : Z) : NoDup (Np.arange a b).
Proof.
  unfold Np.arange. pose proof (wrap64_range (b - a)) as Hn.
  set (n := Z.to_nat (Np.wrap64 (b - a))).
  assert (Hlt : Z.of_nat n <= 2 ^ 63) by (unfold n; lia).
  apply NoDup_nth_error. intros i j Hi E.
  rewrite length_map, length_seq in Hi.
  rewrite !nth_error_map in E.
  rewrite (nth_error_nth' _ 0%nat) in E by (now rewrite length_seq).
  rewrite seq_nth in E by exact Hi. cbn [option_map Nat.add] in E.
  destruct (nth_error (seq 0 n) j) as [k|] eqn:Ej; [|discriminate].
  assert (Hj : (j < n)%nat).
  { rewrite <- (length_seq n 0). apply nth_error_Some. congruence. }
  rewrite (nth_error_nth' _ 0%nat) in Ej by (now rewrite length_seq).
  rewrite seq_nth in Ej by exact Hj. injection Ej as <-. cbn [Nat.add] in E.
  injection E as E.
  pose proof (wrap64_mod (a + Z.of_nat i)) as Mi.
  pose proof (wrap64_mod (a + Z.of_nat j)) as Mj.
  apply Z.mod_divide in Mi; [|lia]. apply Z.mod_divide in Mj; [|lia].
  destruct Mi as [x Hx], Mj as [y Hy]. rewrite E in Hx.
  assert (Hd : Z.of_nat i - Z.of_nat j = (y - x) * 2 ^ 64) by lia.
  assert (y - x = 0) by nia. lia.
Qed.

(** The merged identifiers are distinct when the old ones were and the new
    ones lie above them. *)
Lemma merged_ids_NoDup (ida idl new : list Z) (m : Z) :
  NoDup (ida ++ idl) -> NoDup new ->
  Forall (fun v => v <= m) (ida ++ idl) -> Forall (fun v => m < v) new ->
  NoDup ((ida ++ new) ++ idl).
Proof.
  intros Hold Hnew Hle Hgt.
  apply (Permutation_NoDup (l := new ++ ida ++ idl)).
  - rewrite <- app_assoc. apply Permutation_app_swap_app.
  - apply NoDup_app; auto.
    intros x Hx Hx'. rewrite Forall_forall in Hle, Hgt.
    specialize (Hle x Hx'). specialize (Hgt x Hx). lia.
Qed.

(** The slots of the valid particles in a merged [state] array. *)
Lemma merged_valid_ids (st ds ids new : list Z) :
  length ids = length st -> length new = length ds ->
  Forall (fun v => alive v = true) ds ->
  let ma := mask_active_of st in
  let ml := mask_lost_of st in
  Np.select (merged_list LAST_INVALID_STATE ma ml ids new)
    (map non_sentinel (merged_list LAST_INVALID_STATE ma ml st ds))
  = (Np.select ids ma ++ new) ++ Np.select ids ml.
Proof.
  intros Hlen Hnew Hds ma ml.
  assert (Lma : length ma = length st) by (unfold ma, mask_active_of; apply length_map).
  assert (Lml : length ml = length st) by (unfold ml, mask_lost_of; apply length_map).
  assert (Ea : length (Np.select ids ma) = length (Np.select st ma)).
  { pose proof (sum_select ids ma). pose proof (sum_select st ma). lia. }
  assert (El : length (Np.select ids ml) = length (Np.select st ml)).
  { pose proof (sum_select ids ml). pose proof (sum_select st ml). lia. }
  assert (Ha : Forall (fun v => alive v = true) (Np.select st ma))
    by apply (select_map_Forall alive).
  assert (Hl : Forall (fun v => lost_valid v = true) (Np.select st ml))
    by apply (select_map_Forall lost_valid).
  assert (Hns_alive : forall v, alive v = true -> non_sentinel v = true).
  { unfold alive, non_sentinel. intros v H. apply Z.ltb_lt in H.
    apply negb_true_iff, Z.eqb_neq. unfold LAST_INVALID_STATE. lia. }
  assert (Hns_lost : forall v, lost_valid v = true -> non_sentinel v = true).
  { unfold lost_valid, non_sentinel. intros v H. apply andb_prop in H as [_ H].
    apply Z.ltb_lt in H. apply negb_true_iff, Z.eqb_neq. lia. }
  unfold merged_list. cbv zeta.
  set (sa := Np.select st ma) in *. set (sl := Np.select st ml) in *.
  set (va := Np.select ids ma) in *. set (vl := Np.select ids ml) in *.
  rewrite !map_app.
  rewrite (map_Forall_repeat non_sentinel true sa)
    by (eapply Forall_impl; [|exact Ha]; exact Hns_alive).
  rewrite (map_Forall_repeat non_sentinel true ds)
    by (eapply Forall_impl; [|exact Hds]; exact Hns_alive).
  rewrite (map_Forall_repeat non_sentinel true sl)
    by (eapply Forall_impl; [|exact Hl]; exact Hns_lost).
  rewrite (map_Forall_repeat non_sentinel false (repeat _ _))
    by (apply Forall_forall; intros v Hv; apply repeat_spec in Hv; now subst).
  rewrite <- !app_assoc.
  rewrite !select_app by (rewrite ?repeat_length; lia).
  rewrite <- Ea, <- Hnew, <- El, !select_all_true, select_all_false.
  now rewrite app_nil_r.
Qed.

Lemma merged_slice {A : Type} (x : A) (ma ml : list bool) (l d : list A)
  (na nc : Z) :
  na = Z.of_nat (length (Np.select l ma)) -> nc = Z.of_nat (length d) ->
  (length (Np.select l ma) + length (Np.select l ml) + length d <= length l)%nat ->
  Np.get_slice (merged_list x ma ml l d) (Some na) (Some (na + nc)) = d.
Proof.
  intros -> -> Hle. unfold merged_list. cbv zeta.
  set (va := Np.select l ma) in *. set (vl := Np.select l ml) in *.
  unfold Np.get_slice, Np.slice_bounds, Np.slice_lo, Np.slice_hi, Np.norm_index.
  rewrite !length_app, repeat_length.
  replace (Z.of_nat (length va) <? 0) with false by (symmetry; apply Z.ltb_ge; lia).
  replace (Z.of_nat (length va) + Z.of_nat (length d) <? 0) with false
    by (symmetry; apply Z.ltb_ge; lia).
  rewrite !Z.min_l by lia.
  replace (Z.of_nat (length va) + Z.of_nat (length d) - Z.of_nat (length va))
    with (Z.of_nat (length d)) by lia.
  rewrite Z.max_r by lia. rewrite !Nat2Z.id.
  rewrite <- !app_assoc, skipn_app, skipn_all, Nat.sub_diag. cbn [app skipn].
  rewrite firstn_app, firstn_all, Nat.sub_diag, firstn_O. apply app_nil_r.
Qed.

Lemma np_max_spec (l : list Z) (m : Z) :
  Np.max l = Ok m -> In m l /\ Forall (fun v => v <= m) l.
Proof.
  destruct l as [|x l]; [discriminate|]. cbn [Np.max]. intros [= <-].
  revert x. induction l as [|y l IH]; intros x; cbn [fold_left].
  - split; [now left|]. repeat constructor. lia.
  - destruct (IH (Z.max x y)) as [Hin Hall]. split.
    + destruct Hin as [Hin|Hin]; [|now right; right].
      destruct (Z.max_spec x y) as [[_ E]|[_ E]]; rewrite E in *;
        [right|]; now left.
    + inversion Hall as [|? ? H1 H2]; subst. constructor; [lia|].
      constructor; [lia|]. exact H2.
Qed.

Section MergeIdentifiers.

Context {F : Type} {FO : Float64Ops F}.

(** The identifiers of the alive and of the lost particles of an ensemble. *)
Definition particle_ids (p : Particles F) : list Z :=
  Np.select (int_column "particle_id" p) (map valid (state_of p)).

Definition nd_get_slice (a : ndarray F) (start stop : option Z) : ndarray F :=
  match a with
  | F64 l => F64 (Np.get_slice l start stop)
  | I64 l => I64 (Np.get_slice l start stop)
  | U32 l => U32 (Np.get_slice l start stop)
  end.

Lemma visible_ids (p : Particles F) :
  wf p ->
  firstn (Z.to_nat (n_active_of p + n_lost_of p))
    (int_column "particle_id" (reorganized p))
  = Np.select (int_column "particle_id" p) (mask_active_of (state_of p))
    ++ Np.select (int_column "particle_id" p) (mask_lost_of (state_of p)) /\
  Permutation (particle_ids p)
    (Np.select (int_column "particle_id" p) (mask_active_of (state_of p))
     ++ Np.select (int_column "particle_id" p) (mask_lost_of (state_of p))).
Proof.
  intros Hwf. destruct (wf_state p Hwf) as [_ Hcap].
  destruct (wf_particle_id p Hwf) as [_ Hlen].
  destruct (counts_bounds p Hwf) as (Ha & Hl & _).
  split.
  - rewrite (int_column_reorganized p "particle_id" Hwf) by (cbn; tauto).
    rewrite <- firstn_compact with (x := LAST_INVALID_STATE). f_equal.
    unfold n_active_of, n_lost_of.
    rewrite (sum_select (int_column "particle_id" p) (mask_active_of (state_of p)))
      by (unfold mask_active_of; rewrite length_map; lia).
    rewrite (sum_select (int_column "particle_id" p) (mask_lost_of (state_of p)))
      by (unfold mask_lost_of; rewrite length_map; lia).
    lia.
  - apply select_valid_perm. lia.
Qed.

(** What a successful call has established and returned. *)
Lemma add_particles_success (part p p' : Particles F) (keep_lost : bool) :
  wf p -> wf part ->
  _lim_arrays_name p = None -> _lim_arrays_name part = None ->
  _capacity p < 2 ^ 63 ->
  add_particles part keep_lost p = (p', Ok tt) ->
  exists max_id,
    In max_id (particle_ids p) /\
    Forall (fun id => id <= max_id) (particle_ids p) /\
    n_active_of p + n_lost_of p + n_active_of part <= _capacity p /\
    wf (before_compaction part p max_id) /\
    p' = merged part p max_id.
Proof.
  intros Hwf Hpart Hlim Hlimp Hcap63 Hs.
  destruct keep_lost; [discriminate|].
  destruct (is_pyopencl (context p)) eqn:Hctx.
  { unfold add_particles in Hs.
    rewrite (bind_ok _ _ p p tt) in Hs by reflexivity.
    rewrite (bind_ok _ _ p p (context p)) in Hs by reflexivity.
    rewrite Hctx in Hs. discriminate. }
  rewrite (add_particles_unfold part p Hwf Hctx) in Hs.
  destruct (wf_state part Hpart) as [Hst Hpcap].
  rewrite (getattr_of_visible "state" "state" _ part eq_refl Hlimp Hst) in Hs.
  cbn [as_int] in Hs. fold (n_active_of part) in Hs.
  destruct (counts_bounds p Hwf) as (Ha & Hl & Hle).
  destruct (counts_bounds part Hpart) as (Hnc & _ & _).
  pose proof (wf_reorganized p Hwf) as Hwf1.
  assert (Hlim1 : _lim_arrays_name (reorganized p) = None) by exact Hlim.
  assert (Hcap1 : _capacity (reorganized p) = _capacity p) by reflexivity.
  destruct (Z.eq_dec (n_active_of p + n_lost_of p) 0) as [Hz|Hnz].
  { assert (n_active_of p = 0) as Ea by lia. assert (n_lost_of p = 0) as El by lia.
    rewrite Ea, El, merge_tail_empty in Hs by exact Hwf1. discriminate. }
  destruct (Z.lt_ge_cases (_capacity p - n_active_of p - n_lost_of p)
              (n_active_of part)) as [Hfull|Hfit].
  { rewrite merge_tail_full in Hs; auto; try lia. discriminate. }
  destruct (merge_tail_prefix part (reorganized p)
              (mask_active_of (state_of part)) (n_active_of p) (n_lost_of p))
    as (max_id & Hmax & Htail); auto; try lia.
  rewrite Htail in Hs. unfold bind at 1 in Hs.
  rewrite check_scalars_spec in Hs.
  destruct (isclose (q0 (reorganized p)) (q0 part)
            && isclose (mass0 (reorganized p)) (mass0 part)); [|discriminate].
  destruct (visible_ids p Hwf) as [Hvis Hperm].
  rewrite Hvis in Hmax. apply np_max_spec in Hmax as [Hin Hall].
  assert (Hin' : In max_id (particle_ids p))
    by (eapply Permutation_in; [symmetry; exact Hperm|exact Hin]).
  assert (Hall' : Forall (fun id => id <= max_id) (particle_ids p)).
  { rewrite Forall_forall in *. intros x Hx. apply Hall.
    eapply Permutation_in; [exact Hperm|exact Hx]. }
  destruct (merge_copy_spec part (reorganized p) (mask_active_of (state_of part))
              (n_active_of p + n_lost_of p) max_id) as [Hcopy Hwf3];
    auto;
    try (fold (n_active_of part); rewrite ?Hcap1; lia);
    try (unfold mask_active_of; rewrite length_map; lia).
  cbv zeta in Hcopy, Hwf3. fold (n_active_of part) in Hcopy, Hwf3.
  rewrite Hcopy in Hs. injection Hs as <-.
  exists max_id. split; [exact Hin'|]. split; [exact Hall'|]. split; [lia|].
  split; [exact Hwf3|reflexivity].
Qed.

End MergeIdentifiers.

(** ** Claim on the merge: the identifiers *)

(** C5, as the code has it. After a successful
    [add_particles(receiver, donor)] on a receiver whose lost particles are
    not hidden, the identifiers in the non-sentinel slots of the receiver are
    pairwise distinct; the copied donor particles sit, in the donor's order,
    behind the alive particles of the receiver and carry the contiguous
    identifiers [max_id + 1, max_id + 2, ...], [max_id] being the largest
    identifier of a valid particle of the receiver before the call; each of
    them is greater than every such identifier. Receiver and donor are
    distinct well-formed ensembles, the donor's lost particles are not hidden
    either, the identifiers of the receiver are distinct before the call, and
    the largest new identifier, [max_id + n_copy], fits in 64 bits. *)
Theorem add_particles_identifiers {F : Type} {FO : Float64Ops F}
  (part p p' : Particles F) (keep_lost : bool) :
  wf p -> wf part ->
  _lim_arrays_name p = None -> _lim_arrays_name part = None ->
  _capacity p < 2 ^ 63 ->
  NoDup (particle_ids p) ->
  Forall (fun id => - 2 ^ 63 <= id /\ id + n_active_of part < 2 ^ 63)
    (particle_ids p) ->
  add_particles part keep_lost p = (p', Ok tt) ->
  let first := Some (n_active_of p) in
  let last := Some (n_active_of p + n_active_of part) in
  let new_ids := Np.get_slice (int_column "particle_id" p') first last in
  NoDup (Np.select (int_column "particle_id" p') (map non_sentinel (state_of p'))) /\
  (exists max_id,
      In max_id (particle_ids p) /\
      Forall (fun id => id <= max_id) (particle_ids p) /\
      new_ids = Np.arange (max_id + 1) (max_id + 1 + n_active_of part)) /\
  (forall nn a src,
      nn <> "particle_id" ->
      In (nn, a) (per_particle p) -> assoc nn (per_particle part) = Some src ->
      exists a', assoc nn (per_particle p') = Some a' /\
                 nd_get_slice a' first last
                 = nd_select (mask_active_of (state_of part)) src) /\
  Forall (fun new => Forall (fun old => old < new) (particle_ids p)) new_ids.
Proof.
  intros Hwf Hpart Hlim Hlimp Hcap63 Hnd Hrange Hs first last new_ids.
  destruct (add_particles_success part p p' keep_lost Hwf Hpart Hlim Hlimp Hcap63 Hs)
    as (max_id & Hin & Hall & Hfit & Hwf3 & ->).
  pose proof (proj1 (Forall_forall _ _) Hrange max_id Hin) as [Hlo Hhi].
  destruct (counts_bounds part Hpart) as (Hnc0 & _ & _).
  destruct (merge_sizes_wf part p Hwf Hpart) as [Hlen Hplen Hi Hnc Halive Hpos].
  destruct (wf_particle_id p Hwf) as [_ Hidlen].
  destruct (counts_bounds p Hwf) as (Hna & Hnl & _).
  destruct (visible_ids p Hwf) as [_ Hperm].
  pose proof (ids_merged part p max_id Hwf Hpart Hlimp Hwf3 Hfit Hcap63) as Hids.
  pose proof (state_merged part p max_id Hwf Hpart Hwf3 Hfit) as Hst.
  set (ma := mask_active_of (state_of p)) in *.
  set (ml := mask_lost_of (state_of p)) in *.
  set (mc := mask_active_of (state_of part)) in *.
  set (new := Np.arange (max_id + 1) (max_id + 1 + n_active_of part)) in *.
  assert (Lnew : Z.of_nat (length new) = n_active_of part).
  { unfold new. rewrite arange_length; lia. }
  assert (Lma : length ma = length (state_of p))
    by (unfold ma, mask_active_of; apply length_map).
  assert (Lml : length ml = length (state_of p))
    by (unfold ml, mask_lost_of; apply length_map).
  assert (Lmc : length mc = length (state_of part))
    by (unfold mc, mask_active_of; apply length_map).
  assert (Hcount : forall (A : Type) (l : list A),
             Z.of_nat (length l) = _capacity p ->
             n_active_of p = Z.of_nat (length (Np.select l ma)) /\
             n_lost_of p = Z.of_nat (length (Np.select l ml))).
  { intros A l Hl. unfold n_active_of, n_lost_of. fold ma ml.
    split; apply sum_select; lia. }
  assert (Hnew : new_ids = new).
  { unfold new_ids. rewrite Hids.
    destruct (Hcount _ _ Hidlen) as [Ea El].
    apply merged_slice; auto; lia. }
  assert (Hgt : Forall (fun v => max_id < v) new).
  { apply Forall_forall. intros v Hv. apply arange_In in Hv; lia. }
  split; [|split; [|split]].
  - rewrite Hids, Hst.
    pose proof (merged_valid_ids (state_of p) (Np.select (state_of part) mc)
                  (int_column "particle_id" p) new) as Hv.
    cbv zeta in Hv. fold ma ml in Hv. rewrite Hv by (auto; lia). clear Hv.
    eapply merged_ids_NoDup with (m := max_id); auto.
    + eapply Permutation_NoDup; [exact Hperm|exact Hnd].
    + apply arange_NoDup.
    + rewrite Forall_forall in *. intros x Hx. apply Hall.
      eapply Permutation_in; [symmetry; exact Hperm|exact Hx].
  - exists max_id. auto.
  - intros nn a src Hnn Hina Hsrc.
    rewrite (column_merged part p max_id nn a src Hwf Hpart Hwf3 Hfit Hnn Hina Hsrc).
    eexists. split; [reflexivity|].
    destruct (wf_column_of p nn a Hwf Hina) as (Hs' & _ & Halen).
    destruct (wf_column part _ _ Hpart Hs') as (src' & Hsrc' & Hd & Hsl).
    rewrite Hsrc in Hsrc'. injection Hsrc' as <-.
    fold ma ml mc.
    assert (Hsel : forall (A : Type) (s : list A),
               Z.of_nat (length s) = _capacity part ->
               n_active_of part = Z.of_nat (length (Np.select s mc))).
    { intros A s Hs0. unfold n_active_of. fold mc. apply sum_select. lia. }
    destruct a as [l|l|l], src as [s0|s0|s0]; try discriminate;
      cbn [nd_merged nd_select nd_get_slice nd_len] in *; f_equal;
      destruct (Hcount _ l Halen) as [Ea El];
      pose proof (Hsel _ s0 Hsl) as Ec;
      apply merged_slice; auto; lia.
  - rewrite Hnew. apply Forall_forall. intros v Hv.
    apply Forall_forall. intros old Hold.
    pose proof (proj1 (Forall_forall _ _) Hgt v Hv) as H1.
    pose proof (proj1 (Forall_forall _ _) Hall old Hold) as H2.
    cbv beta in H1, H2. lia.
Qed.

Example add_particles_identifiers_witness :
  exists p' : Particles float,
    add_particles (ensemble 2 [1; 0] [0; 1]) false
      (ensemble 3 [0; -999999999; 1] [7; 8; 9]) = (p', Ok tt) /\
    state_of p' = [1; 1; 0] /\
    int_column "particle_id" p' = [9; 10; 7] /\
    NoDup (Np.select (int_column "particle_id" p') (map non_sentinel (state_of p'))).
Proof.
  eexists. split; [vm_compute; reflexivity|].
  split; [reflexivity|]. split; [reflexivity|].
  refine (proj1 (add_particles_identifiers (ensemble 2 [1; 0] [0; 1])
                   (ensemble 3 [0; -999999999; 1] [7; 8; 9]) _ false
                   _ _ _ _ _ _ _ _)).
  - apply wfb_sound; vm_compute; reflexivity.
  - apply wfb_sound; vm_compute; reflexivity.
  - reflexivity.
  - reflexivity.
  - reflexivity.
  - vm_compute. repeat constructor; cbn; intuition discriminate.
  - replace (particle_ids (ensemble 3 [0; -999999999; 1] [7; 8; 9]))
      with [7; 9] by (vm_compute; reflexivity).
    replace (n_active_of (ensemble 2 [1; 0] [0; 1]))
      with 1 by (vm_compute; reflexivity).
    repeat constructor; lia.
  - vm_compute. reflexivity.
Defined.

(** C5 as stated fails twice. With the largest identifier of the receiver
    at [2^63 - 1] the call succeeds and gives the copied particle the
    identifier [-2^63], the sum having wrapped around: it is smaller than
    the identifier that was there. With the lost particles of the receiver
    hidden, the arrays the method writes into end behind the alive
    particles; a donor with one alive particle is broadcast into an empty
    slice, the call returns normally, and the receiver holds neither the
    particle nor a new identifier. *)
Lemma add_particles_identifiers_counterexample :
  (let receiver := ensemble 2 [1; -999999999] [9223372036854775807; 0] in
   let donor := ensemble 1 [1] [5] in
   particle_ids receiver = [9223372036854775807] /\
   exists p' : Particles float,
     add_particles donor false receiver = (p', Ok tt) /\
     state_of p' = [1; 1] /\
     int_column "particle_id" p' = [9223372036854775807; -9223372036854775808]) /\
  (let receiver := set_lim_arrays_name (Some "_num_active_particles")
                     (ensemble 3 [1; 0; -999999999] [7; 8; 9]) in
   let donor := ensemble 1 [1] [5] in
   lost_particles_are_hidden receiver = true /\ n_active_of donor = 1 /\
   exists p' : Particles float,
     add_particles donor false receiver = (p', Ok tt) /\
     state_of p' = [1; 0; -999999999] /\
     int_column "particle_id" p' = [7; 8; -999999999]).
Proof.
  split; cbv zeta.
  - split; [reflexivity|]. eexists. split; [vm_compute; reflexivity|].
    split; reflexivity.
  - split; [reflexivity|]. split; [reflexivity|].
    eexists. split; [vm_compute; reflexivity|]. split; reflexivity.
Qed.

(** * Longitudinal kinematics *)

Declare Scope np_scope.
Delimit Scope np_scope with np.

Section Kinematics.

Context {F : Type} {FO : Float64Ops F}.

(** A numpy operand: a Python float or an array of doubles. *)
Inductive npv : Type :=
| Scalar (x : F)
| Array (l : list F).

Fixpoint map2 (f : F -> F -> F) (l1 l2 : list F) : list F :=
  match l1, l2 with
  | x :: l1', y :: l2' => f x y :: map2 f l1' l2'
  | _, _ => []
  end.

(** An elementwise operation with numpy's broadcasting; the operands are
    evaluated from left to right. *)
Definition bop (f : F -> F -> F) (a b : result npv) : result npv :=
  match a, b with
  | Raise e, _ => Raise e
  | Ok _, Raise e => Raise e
  | Ok (Scalar x), Ok (Scalar y) => Ok (Scalar (f x y))
  | Ok (Scalar x), Ok (Array l) => Ok (Array (map (f x) l))
  | Ok (Array l), Ok (Scalar y) => Ok (Array (map (fun v => f v y) l))
  | Ok (Array l1), Ok (Array l2) =>
      if Nat.eqb (length l1) (length l2) then Ok (Array (map2 f l1 l2))
      else
        match l1, l2 with
        | [x], _ => Ok (Array (map (f x) l2))
        | _, [y] => Ok (Array (map (fun v => f v y) l1))
        | _, _ => Raise ValueError
        end
  end.

(** [np.sqrt(a)]; on an array, [a ** 0.5] is computed by the same loop. *)
Definition np_sqrt (a : result npv) : result npv :=
  match a with
  | Raise e => Raise e
  | Ok (Scalar x) => Ok (Scalar (fsqrt x))
  | Ok (Array l) => Ok (Array (map fsqrt l))
  end.

(** [a / b]. Between two Python floats the division raises on a zero
    divisor; numpy's elementwise division, which is used as soon as one
    operand is an array, does not. *)
Definition truediv (a b : result npv) : result npv :=
  match a, b with
  | Ok (Scalar _), Ok (Scalar y) =>
      if is_zero y then Raise ZeroDivisionError else bop fdiv a b
  | _, _ => bop fdiv a b
  end.

Notation "a + b" := (bop fadd a b) : np_scope.
Notation "a - b" := (bop fsub a b) : np_scope.
Notation "a * b" := (bop fmul a b) : np_scope.
Notation "a / b" := (truediv a b) : np_scope.

(** A Python number in an expression. *)
Definition lit (z : Z) : result npv := Ok (Scalar (of_int z)).

(** [vv[start:stop] = value] on an array of doubles. *)
Definition nd_assign (start stop : option Z) (value : npv)
  : St (ndarray F) unit :=
  fun vv =>
    match vv, value with
    | F64 l, Scalar x => (F64 (Np.fill_slice l start stop x), Ok tt)
    | F64 l, Array s =>
        match Np.set_slice l start stop s with
        | Ok l' => (F64 l', Ok tt)
        | Raise e => (vv, Raise e)
        end
    | _, _ => (vv, Raise TypeError)
    end.

(** [self.nn] of an array of doubles, as an operand. *)
Definition getattr_f (nn : string) : St (Particles F) npv :=
  a <- getattr nn ;;
  l <- lift (as_float a) ;;
  ret (Array l).

(** [Particles.energy0] *)
Definition energy0 : St (Particles F) npv :=
  p0c <- getattr_f "p0c" ;;
  m0 <- gets mass0 ;;
  lift (np_sqrt (Ok p0c * Ok p0c + Ok (Scalar m0) * Ok (Scalar m0)))%np.

(** [Particles.energy] *)
Definition energy : St (Particles F) npv :=
  e0 <- energy0 ;;
  psigma <- getattr_f "psigma" ;;
  p0c <- getattr_f "p0c" ;;
  beta0 <- getattr_f "beta0" ;;
  lift (Ok e0 + Ok psigma * Ok p0c * Ok beta0)%np.

(** [Particles.ptau]; [x ** 2] is [x * x]. *)
Definition ptau : St (Particles F) npv :=
  delta <- getattr_f "delta" ;;
  beta0 <- getattr_f "beta0" ;;
  lift (np_sqrt (Ok delta * Ok delta + lit 2 * Ok delta
                 + lit 1 / (Ok beta0 * Ok beta0))
        - lit 1 / Ok beta0)%np.

(** [Particles._set_p0c] *)
Definition _set_p0c : St (Particles F) unit :=
  p0c <- getattr_f "p0c" ;;
  m0 <- gets mass0 ;;
  e0 <- lift (np_sqrt (Ok p0c * Ok p0c + Ok (Scalar m0) * Ok (Scalar m0)))%np ;;
  p0c <- getattr_f "p0c" ;;
  beta0 <- lift (Ok p0c / Ok e0)%np ;;
  setattr "beta0" (nd_assign None None beta0) ;;
  m0 <- gets mass0 ;;
  gamma0 <- lift (Ok e0 / Ok (Scalar m0))%np ;;
  setattr "gamma0" (nd_assign None None gamma0).

(** [Particles.set_reference] *)
Definition set_reference (p0c mass0 q0 : F) : St (Particles F) unit :=
  modify (set_q0 q0) ;;
  modify (set_mass0 mass0) ;;
  setattr "p0c" (nd_assign None None (Scalar p0c)).

(** [Particles.update_delta] *)
Definition update_delta (new_delta_value : npv) : St (Particles F) unit :=
  beta0 <- getattr_f "beta0" ;;
  delta_beta0 <- lift (Ok new_delta_value * Ok beta0)%np ;;
  ptau_beta0 <- lift (np_sqrt (Ok delta_beta0 * Ok delta_beta0
                               + lit 2 * Ok delta_beta0 * Ok beta0 + lit 1)
                      - lit 1)%np ;;
  one_plus_delta <- lift (lit 1 + Ok new_delta_value)%np ;;
  rvv <- lift (Ok one_plus_delta / (lit 1 + Ok ptau_beta0))%np ;;
  rpp <- lift (lit 1 / Ok one_plus_delta)%np ;;
  psigma <- lift (Ok ptau_beta0 / (Ok beta0 * Ok beta0))%np ;;
  with_view "delta" (nd_assign None None new_delta_value) ;;
  with_view "rvv" (nd_assign None None rvv) ;;
  with_view "rpp" (nd_assign None None rpp) ;;
  with_view "psigma" (nd_assign None None psigma).

(** [Particles.add_to_energy]. [self.delta = delta] and the three
    assignments like it go through [setattr]: [delta], [psigma], [rvv] and
    [rpp] are properties of the class. *)
Definition add_to_energy (delta_energy : npv) : St (Particles F) unit :=
  beta0 <- getattr_f "beta0" ;;
  delta <- getattr_f "delta" ;;
  delta_beta0 <- lift (Ok delta * Ok beta0)%np ;;
  e0 <- energy0 ;;
  ptau_beta0 <- lift (Ok delta_energy / Ok e0
                      + np_sqrt (Ok delta_beta0 * Ok delta_beta0
                                 + lit 2 * Ok delta_beta0 * Ok beta0 + lit 1)
                      - lit 1)%np ;;
  ptau <- lift (Ok ptau_beta0 / Ok beta0)%np ;;
  psigma <- lift (Ok ptau / Ok beta0)%np ;;
  delta <- lift (np_sqrt (Ok ptau * Ok ptau + lit 2 * Ok psigma + lit 1)
                 - lit 1)%np ;;
  one_plus_delta <- lift (Ok delta + lit 1)%np ;;
  rvv <- lift (Ok one_plus_delta / (lit 1 + Ok ptau_beta0))%np ;;
  setattr "delta" (nd_assign None None delta) ;;
  setattr "psigma" (nd_assign None None psigma) ;;
  old_rvv <- getattr_f "rvv" ;;
  zeta <- getattr_f "zeta" ;;
  zeta <- lift (Ok zeta * (Ok rvv / Ok old_rvv))%np ;;
  setattr "zeta" (nd_assign None None zeta) ;;
  setattr "rvv" (nd_assign None None rvv) ;;
  rpp <- lift (lit 1 / Ok one_plus_delta)%np ;;
  setattr "rpp" (nd_assign None None rpp).

End Kinematics.

Arguments npv : clear implicits.

Notation "a + b" := (bop fadd a b) : np_scope.
Notation "a - b" := (bop fsub a b) : np_scope.
Notation "a * b" := (bop fmul a b) : np_scope.
Notation "a / b" := (truediv a b) : np_scope.

Section KinematicsFacts.

Context {F : Type} {FO : Float64Ops F}.

(** The number of slots the descriptors of a well-formed ensemble expose. *)
Definition visible (p : Particles F) : nat :=
  match _lim_arrays_name p with
  | None => Z.to_nat (_capacity p)
  | Some _ =>
      Z.to_nat (Np.norm_index (_capacity p) (_num_active_particles p))
  end.

Lemma view_len_visible (p : Particles F) (len : nat) :
  wf p -> Z.of_nat len = _capacity p ->
  view_len p len = Ok (visible p) /\ (visible p <= len)%nat.
Proof.
  intros Hwf Hlen. unfold view_len, visible.
  destruct (wf_lim p Hwf) as [Hlim|Hlim]; rewrite Hlim.
  - split; [f_equal|]; lia.
  - cbn [size_var String.eqb Ascii.eqb Bool.eqb]. rewrite Hlen.
    split; [reflexivity|]. unfold Np.norm_index.
    destruct (Z.ltb_spec (_num_active_particles p) 0); lia.
Qed.

Lemma assoc_In {A : Type} (k : string) (v : A) (l : list (string * A)) :
  assoc k l = Some v -> In (k, v) l.
Proof.
  induction l as [|[k' v'] l IH]; [discriminate|]. cbn.
  destruct (String.eqb_spec k' k) as [->|_]; [intros [= ->]; now left|].
  intros H. right. now apply IH.
Qed.

Lemma with_view_wf {A : Type} (nn f : string) (a v : ndarray F) (r : result A)
  (body : St (ndarray F) A) (p : Particles F) :
  wf p -> array_field nn = Some f ->
  assoc f (per_particle p) = Some a ->
  body (nd_take (visible p) a) = (v, r) ->
  with_view nn body p = (store f (nd_app v (nd_drop (visible p) a)) p, r).
Proof.
  intros Hwf Hf Ha Hb. unfold with_view, store. rewrite Hf, Ha.
  destruct (wf_column_of p f a Hwf (assoc_In _ _ _ Ha)) as (_ & _ & Hlen).
  destruct (view_len_visible p (nd_len a) Hwf Hlen) as [-> _].
  now rewrite Hb.
Qed.

Lemma wf_float_column (p : Particles F) (nn : string) :
  wf p -> In (Float64, nn) per_particle_vars ->
  exists l, assoc nn (per_particle p) = Some (F64 l) /\
            Z.of_nat (length l) = _capacity p.
Proof.
  intros Hwf Hin. destruct (wf_column p _ _ Hwf Hin) as (a & Ha & Ht & Hl).
  destruct a as [l| |]; try discriminate. eauto.
Qed.

(** Reading a field of doubles: the visible part of its array. *)
Lemma getattr_f_wf (p : Particles F) (nn : string) (l : list F) :
  wf p -> array_field nn = Some nn ->
  assoc nn (per_particle p) = Some (F64 l) ->
  getattr_f nn p = (p, Ok (Array (firstn (visible p) l))).
Proof.
  intros Hwf Hf Ha. unfold getattr_f, getattr.
  rewrite (bind_ok _ _ p p (F64 (firstn (visible p) l))).
  - reflexivity.
  - rewrite (with_view_wf nn nn (F64 l) (F64 (firstn (visible p) l))
               (Ok (F64 (firstn (visible p) l))) _ p Hwf Hf Ha eq_refl).
    cbn [nd_drop nd_app]. rewrite firstn_skipn.
    unfold store. now rewrite (assoc_set_same _ _ _ Ha), set_per_particle_same.
Qed.

(** Broadcasting on arrays that are images of one array. *)
Lemma map2_map (f : F -> F -> F) (g1 g2 : F -> F) (l : list F) :
  map2 f (map g1 l) (map g2 l) = map (fun b => f (g1 b) (g2 b)) l.
Proof. induction l; cbn; congruence. Qed.

Lemma bop_arrays (f : F -> F -> F) (g1 g2 : F -> F) (l : list F) :
  bop f (Ok (Array (map g1 l))) (Ok (Array (map g2 l)))
  = Ok (Array (map (fun b => f (g1 b) (g2 b)) l)).
Proof.
  cbn [bop]. now rewrite !length_map, Nat.eqb_refl, map2_map.
Qed.

Lemma bop_scalar_array (f : F -> F -> F) (x : F) (g : F -> F) (l : list F) :
  bop f (Ok (Scalar x)) (Ok (Array (map g l)))
  = Ok (Array (map (fun b => f x (g b)) l)).
Proof. cbn [bop]. now rewrite map_map. Qed.

Lemma bop_array_scalar (f : F -> F -> F) (y : F) (g : F -> F) (l : list F) :
  bop f (Ok (Array (map g l))) (Ok (Scalar y))
  = Ok (Array (map (fun b => f (g b) y) l)).
Proof. cbn [bop]. now rewrite map_map. Qed.

Lemma truediv_array_r (a : result (npv F)) (l : list F) :
  (a / Ok (Array l))%np = bop fdiv a (Ok (Array l)).
Proof. now destruct a as [[x|l']|e]. Qed.

Lemma truediv_array_l (l : list F) (b : result (npv F)) :
  (Ok (Array l) / b)%np = bop fdiv (Ok (Array l)) b.
Proof. reflexivity. Qed.

Lemma truediv_scalars (x y : F) :
  (Ok (Scalar x) / Ok (Scalar y))%np
  = if is_zero y then Raise ZeroDivisionError else Ok (Scalar (x / y)%fl).
Proof. unfold truediv. now destruct (is_zero y). Qed.

Lemma np_sqrt_array (g : F -> F) (l : list F) :
  np_sqrt (Ok (Array (map g l))) = Ok (Array (map (fun b => fsqrt (g b)) l)).
Proof. cbn [np_sqrt]. now rewrite map_map. Qed.

(** The formulas of [update_delta] for one particle. *)
Definition ptau_beta0_of (delta beta0 : F) : F :=
  (fsqrt ((delta * beta0) * (delta * beta0)
          + (of_int 2 * (delta * beta0)) * beta0 + of_int 1) - of_int 1)%fl.

Definition rvv_of (delta beta0 : F) : F :=
  ((of_int 1 + delta) / (of_int 1 + ptau_beta0_of delta beta0))%fl.

Definition rpp_of (delta : F) : F := (of_int 1 / (of_int 1 + delta))%fl.

Definition psigma_of (delta beta0 : F) : F :=
  (ptau_beta0_of delta beta0 / (beta0 * beta0))%fl.

(** The ensemble after [v] has been written into the visible part of the
    field [nn] of doubles. *)
Definition write_view (nn : string) (v : list F) (p : Particles F) : Particles F :=
  match assoc nn (per_particle p) with
  | Some (F64 l) => store nn (F64 (v ++ skipn (visible p) l)) p
  | _ => p
  end.

Lemma fill_all {A : Type} (l : list A) (x : A) :
  Np.fill_slice l None None x = repeat x (length l).
Proof.
  unfold Np.fill_slice, Np.slice_bounds, Np.slice_lo, Np.slice_hi.
  rewrite Z.sub_0_r, Z.max_r, Nat2Z.id by lia. cbn [Z.to_nat firstn app Nat.add].
  now rewrite skipn_all, app_nil_r.
Qed.

Lemma set_all {A : Type} (l s : list A) :
  length s = length l -> Np.set_slice l None None s = Ok s.
Proof.
  intros H. unfold Np.set_slice, Np.slice_bounds, Np.slice_lo, Np.slice_hi.
  rewrite Z.sub_0_r, Z.max_r, Nat2Z.id by lia. cbn [Z.to_nat firstn app Nat.add].
  now rewrite H, Nat.eqb_refl, skipn_all, app_nil_r.
Qed.

Lemma assign_scalar (nn : string) (x : F) (p : Particles F) :
  wf p -> In (Float64, nn) per_particle_vars ->
  with_view nn (nd_assign None None (Scalar x)) p
  = (write_view nn (repeat x (visible p)) p, Ok tt).
Proof.
  intros Hwf Hin. destruct (wf_float_column p nn Hwf Hin) as (l & Ha & Hl).
  pose proof array_field_schema as Hf. rewrite Forall_forall in Hf.
  specialize (Hf _ Hin). cbn [snd] in Hf.
  destruct (view_len_visible p (length l) Hwf Hl) as [_ Hn].
  unfold write_view. rewrite Ha.
  rewrite (with_view_wf nn nn (F64 l) (F64 (repeat x (visible p))) (Ok tt) _ p
             Hwf Hf Ha); [reflexivity|].
  cbn [nd_take nd_assign]. rewrite fill_all, length_firstn.
  now rewrite Nat.min_l by lia.
Qed.

Lemma assign_array (nn : string) (v : list F) (p : Particles F) :
  wf p -> In (Float64, nn) per_particle_vars -> length v = visible p ->
  with_view nn (nd_assign None None (Array v)) p = (write_view nn v p, Ok tt).
Proof.
  intros Hwf Hin Hv. destruct (wf_float_column p nn Hwf Hin) as (l & Ha & Hl).
  pose proof array_field_schema as Hf. rewrite Forall_forall in Hf.
  specialize (Hf _ Hin). cbn [snd] in Hf.
  destruct (view_len_visible p (length l) Hwf Hl) as [_ Hn].
  unfold write_view. rewrite Ha.
  rewrite (with_view_wf nn nn (F64 l) (F64 v) (Ok tt) _ p Hwf Hf Ha); [reflexivity|].
  cbn [nd_take nd_assign]. rewrite set_all; [reflexivity|].
  rewrite length_firstn. lia.
Qed.

Lemma write_view_wf (nn : string) (v : list F) (p : Particles F) :
  wf p -> In (Float64, nn) per_particle_vars -> length v = visible p ->
  wf (write_view nn v p) /\ visible (write_view nn v p) = visible p.
Proof.
  intros Hwf Hin Hv. destruct (wf_float_column p nn Hwf Hin) as (l & Ha & Hl).
  destruct (view_len_visible p (length l) Hwf Hl) as [_ Hn].
  unfold write_view. rewrite Ha. split; [|reflexivity].
  apply (wf_store p nn (F64 l)); auto.
  cbn [nd_len]. rewrite length_app, length_skipn. lia.
Qed.

Lemma write_view_other (nn nn' : string) (v : list F) (p : Particles F) :
  nn' <> nn ->
  assoc nn' (per_particle (write_view nn v p)) = assoc nn' (per_particle p).
Proof.
  intros Hne. unfold write_view.
  destruct (assoc nn (per_particle p)) as [[l| |]|]; try reflexivity.
  unfold store. cbn [per_particle set_per_particle].
  now apply assoc_assoc_set_other.
Qed.

(** Reading back what was written. *)
Lemma read_written (nn : string) (v : list F) (p : Particles F) :
  wf p -> In (Float64, nn) per_particle_vars -> length v = visible p ->
  getattr_f nn (write_view nn v p) = (write_view nn v p, Ok (Array v)).
Proof.
  intros Hwf Hin Hv. destruct (wf_float_column p nn Hwf Hin) as (l & Ha & Hl).
  destruct (write_view_wf nn v p Hwf Hin Hv) as [Hwf' Hvis].
  pose proof array_field_schema as Hf. rewrite Forall_forall in Hf.
  specialize (Hf _ Hin). cbn [snd] in Hf.
  rewrite (getattr_f_wf _ nn (v ++ skipn (visible p) l) Hwf' Hf).
  - rewrite Hvis, firstn_app, firstn_all2, Hv, Nat.sub_diag, firstn_O, app_nil_r
      by lia. reflexivity.
  - unfold write_view. rewrite Ha. unfold store. cbn [per_particle set_per_particle].
    now apply (assoc_assoc_set_same nn _ (F64 l)).
Qed.

Lemma read_other (nn nn' : string) (v l' : list F) (p : Particles F) :
  wf p -> In (Float64, nn) per_particle_vars -> length v = visible p ->
  In (Float64, nn') per_particle_vars -> nn' <> nn ->
  getattr_f nn' p = (p, Ok (Array l')) ->
  getattr_f nn' (write_view nn v p) = (write_view nn v p, Ok (Array l')).
Proof.
  intros Hwf Hin Hv Hin' Hne Hget.
  destruct (wf_float_column p nn' Hwf Hin') as (l & Ha & Hl).
  destruct (write_view_wf nn v p Hwf Hin Hv) as [Hwf' Hvis].
  pose proof array_field_schema as Hf. rewrite Forall_forall in Hf.
  specialize (Hf _ Hin'). cbn [snd] in Hf.
  rewrite (getattr_f_wf p nn' l Hwf Hf Ha) in Hget. injection Hget as <-.
  rewrite (getattr_f_wf _ nn' l Hwf' Hf), Hvis; [reflexivity|].
  now rewrite write_view_other.
Qed.

(** The ensemble [update_delta(delta)] leaves, [delta] a Python float. *)
Definition updated (delta : F) (p : Particles F) : Particles F :=
  let beta0 := match assoc "beta0" (per_particle p) with
               | Some (F64 l) => firstn (visible p) l
               | _ => []
               end in
  write_view "psigma" (map (psigma_of delta) beta0)
    (write_view "rpp" (repeat (rpp_of delta) (visible p))
       (write_view "rvv" (map (rvv_of delta) beta0)
          (write_view "delta" (repeat delta (visible p)) p))).

(** What [update_delta(delta)] does, [delta] a Python float: with
    [1. + delta == 0.] the division [1. / one_plus_delta] raises before
    anything is written; otherwise the four arrays are written. *)
Lemma update_delta_run (delta : F) (p : Particles F) :
  wf p ->
  update_delta (Scalar delta) p
  = if is_zero (of_int 1 + delta)%fl then (p, Raise ZeroDivisionError)
    else (updated delta p, Ok tt).
Proof.
  intros Hwf.
  destruct (wf_float_column p "beta0" Hwf) as (b & Hb & Hbl); [cbn; tauto|].
  destruct (view_len_visible p (length b) Hwf Hbl) as [_ Hn].
  unfold updated. rewrite Hb. set (bs := firstn (visible p) b).
  assert (Lbs : length bs = visible p) by (unfold bs; rewrite length_firstn; lia).
  unfold update_delta.
  rewrite (bind_ok _ _ _ _ _ (getattr_f_wf p "beta0" b Hwf eq_refl Hb)). fold bs.
  unfold lit.
  replace (Ok (Array bs)) with (Ok (Array (map (fun v : F => v) bs)))
    by (now rewrite map_id).
  rewrite bop_scalar_array.
  rewrite (bind_ok _ _ p p (Array (map (fun b0 => (delta * b0)%fl) bs)))
    by reflexivity.
  rewrite !bop_arrays, !bop_scalar_array, !bop_arrays, bop_array_scalar,
    np_sqrt_array, bop_array_scalar.
  rewrite (bind_ok _ _ p p (Array (map (ptau_beta0_of delta) bs))) by reflexivity.
  rewrite (bind_ok _ _ p p (Scalar (of_int 1 + delta)%fl)) by reflexivity.
  rewrite bop_scalar_array, truediv_array_r, bop_scalar_array.
  rewrite (bind_ok _ _ p p (Array (map (rvv_of delta) bs))) by reflexivity.
  rewrite truediv_scalars.
  destruct (is_zero (of_int 1 + delta)%fl); [reflexivity|].
  rewrite (bind_ok _ _ p p (Scalar (rpp_of delta))) by reflexivity.
  replace (Ok (Array (map (ptau_beta0_of delta) bs)) : result (npv F))
    with (Ok (Array (map (fun v => ptau_beta0_of delta v) bs)) : result (npv F))
    by reflexivity.
  rewrite truediv_array_l, !bop_arrays.
  rewrite (bind_ok _ _ p p (Array (map (psigma_of delta) bs))) by reflexivity.
  assert (S1 : In (Float64, "delta") per_particle_vars) by (cbn; tauto).
  assert (S2 : In (Float64, "rvv") per_particle_vars) by (cbn; tauto).
  assert (S3 : In (Float64, "rpp") per_particle_vars) by (cbn; tauto).
  assert (S4 : In (Float64, "psigma") per_particle_vars) by (cbn; tauto).
  rewrite (bind_ok _ _ _ _ _ (assign_scalar "delta" delta p Hwf S1)).
  destruct (write_view_wf "delta" (repeat delta (visible p)) p Hwf S1)
    as [Hwf1 Hv1]; [apply repeat_length|].
  set (p1 := write_view "delta" _ p) in *.
  rewrite (bind_ok _ _ p1 (write_view "rvv" (map (rvv_of delta) bs) p1) tt)
    by (apply assign_array; auto; rewrite length_map; lia).
  destruct (write_view_wf "rvv" (map (rvv_of delta) bs) p1 Hwf1 S2)
    as [Hwf2 Hv2]; [rewrite length_map; lia|].
  set (p2 := write_view "rvv" _ p1) in *.
  rewrite (bind_ok _ _ p2 (write_view "rpp" (repeat (rpp_of delta) (visible p)) p2) tt)
    by (rewrite <- Hv1, <- Hv2; apply assign_scalar; auto).
  destruct (write_view_wf "rpp" (repeat (rpp_of delta) (visible p)) p2 Hwf2 S3)
    as [Hwf3 Hv3]; [rewrite repeat_length; lia|].
  set (p3 := write_view "rpp" _ p2) in *.
  apply assign_array; auto. rewrite length_map. lia.
Qed.

Lemma update_delta_scalar (delta : F) (p : Particles F) :
  wf p -> is_zero (of_int 1 + delta)%fl = false ->
  update_delta (Scalar delta) p = (updated delta p, Ok tt).
Proof. intros Hwf Hnz. now rewrite update_delta_run, Hnz. Qed.

End KinematicsFacts.

(** ** What a method leaves untouched *)

Section Frames.

Context {F : Type} {FO : Float64Ops F}.

(** [p'] is [p] but for the arrays of the fields [names]. *)
Record same_except (names : list string) (p p' : Particles F) : Prop := {
  se_context : context p' = context p;
  se_lim : _lim_arrays_name p' = _lim_arrays_name p;
  se_capacity : _capacity p' = _capacity p;
  se_num_active : _num_active_particles p' = _num_active_particles p;
  se_num_lost : _num_lost_particles p' = _num_lost_particles p;
  se_q0 : q0 p' = q0 p;
  se_mass0 : mass0 p' = mass0 p;
  se_arrays : forall nn, ~ In nn names ->
                assoc nn (per_particle p') = assoc nn (per_particle p)
}.

Definition frames (names : list string) {A : Type} (m : St (Particles F) A)
  : Prop :=
  forall p, same_except names p (fst (m p)).

Lemma same_except_refl (names : list string) (p : Particles F) :
  same_except names p p.
Proof. now split. Qed.

Lemma same_except_trans (names : list string) (p1 p2 p3 : Particles F) :
  same_except names p1 p2 -> same_except names p2 p3 -> same_except names p1 p3.
Proof.
  intros [] []. split; try congruence.
  intros nn Hn. rewrite se_arrays1 by exact Hn. now apply se_arrays0.
Qed.

Lemma frames_ret (names : list string) {A : Type} (a : A) : frames names (ret a).
Proof. intros p. apply same_except_refl. Qed.

Lemma frames_lift (names : list string) {A : Type} (r : result A) :
  frames names (lift r).
Proof. intros p. apply same_except_refl. Qed.

Lemma frames_raise (names : list string) {A : Type} (e : exn) :
  frames names (raise (A := A) e).
Proof. intros p. apply same_except_refl. Qed.

Lemma frames_gets (names : list string) {A : Type} (f : Particles F -> A) :
  frames names (gets f).
Proof. intros p. apply same_except_refl. Qed.

Lemma frames_bind (names : list string) {A B : Type}
  (m : St (Particles F) A) (k : A -> St (Particles F) B) :
  frames names m -> (forall a, frames names (k a)) -> frames names (bind m k).
Proof.
  intros Hm Hk p. unfold bind. specialize (Hm p).
  destruct (m p) as [p1 [a|e]]; cbn [fst] in *; [|exact Hm].
  eapply same_except_trans; [exact Hm|apply Hk].
Qed.

Lemma frames_with_view (names : list string) {A : Type} (nn : string)
  (body : St (ndarray F) A) :
  (forall f, array_field nn = Some f -> In f names) ->
  frames names (with_view nn body).
Proof.
  intros Hf p. unfold with_view.
  destruct (array_field nn) as [f|]; [|apply same_except_refl].
  destruct (assoc f (per_particle p)) as [a|]; [|apply same_except_refl].
  destruct (view_len p (nd_len a)) as [n|e]; [|apply same_except_refl].
  destruct (body (nd_take n a)) as [v r]. cbn [fst].
  split; try reflexivity. intros nn' Hn. cbn [per_particle set_per_particle].
  apply assoc_assoc_set_other. intros ->. apply Hn. now apply Hf.
Qed.

Lemma frames_getattr (names : list string) (nn : string) :
  frames names (getattr nn).
Proof.
  intros p. unfold getattr, with_view.
  destruct (array_field nn) as [f|]; [|apply same_except_refl].
  destruct (assoc f (per_particle p)) as [a|] eqn:Ha; [|apply same_except_refl].
  destruct (view_len p (nd_len a)) as [n|e]; [|apply same_except_refl].
  cbn [fst]. rewrite nd_take_drop, (assoc_set_same _ _ _ Ha), set_per_particle_same.
  apply same_except_refl.
Qed.

Lemma frames_getattr_f (names : list string) (nn : string) :
  frames names (getattr_f nn).
Proof.
  unfold getattr_f. apply frames_bind; [apply frames_getattr|]. intros a.
  apply frames_bind; [apply frames_lift|]. intros l. apply frames_ret.
Qed.

End Frames.

(** ** Claims on [update_delta] *)

(** C6. [update_delta(new_delta)] writes into the arrays of [delta], [rvv],
    [rpp] and [psigma] only: whatever its argument and whether it returns or
    raises, the array of every other field is the one before the call, among
    them [zeta], [px], [py], [x], [y], [s], [p0c], [beta0] and [gamma0], and
    so are the scalars of the ensemble. *)
Theorem update_delta_frame {F : Type} {FO : Float64Ops F}
  (new_delta_value : npv F) (p : Particles F) :
  same_except ["delta"; "rvv"; "rpp"; "psigma"] p
    (fst (update_delta new_delta_value p)) /\
  Forall (fun nn =>
            assoc nn (per_particle (fst (update_delta new_delta_value p)))
            = assoc nn (per_particle p))
    ["zeta"; "px"; "py"; "x"; "y"; "s"; "p0c"; "beta0"; "gamma0"].
Proof.
  assert (H : frames ["delta"; "rvv"; "rpp"; "psigma"]
                (update_delta new_delta_value)).
  { unfold update_delta.
    apply frames_bind; [apply frames_getattr_f|]. intros beta0.
    do 6 (apply frames_bind; [apply frames_lift|]; intros ?).
    repeat (apply frames_bind; [|intros ?]);
      apply frames_with_view; intros f [= <-]; cbn; tauto. }
  split; [apply H|].
  repeat constructor; apply (se_arrays _ _ _ (H p)); cbn; intuition discriminate.
Qed.

Section UpdateDeltaReads.

Context {F : Type} {FO : Float64Ops F}.

(** What the four fields and [beta0] read after [update_delta(delta)]. *)
Lemma updated_reads (delta : F) (p : Particles F) (bs : list F) :
  wf p -> getattr_f "beta0" p = (p, Ok (Array bs)) ->
  let p' := updated delta p in
  length bs = visible p /\
  getattr_f "delta" p' = (p', Ok (Array (repeat delta (visible p)))) /\
  getattr_f "rvv" p' = (p', Ok (Array (map (rvv_of delta) bs))) /\
  getattr_f "rpp" p' = (p', Ok (Array (repeat (rpp_of delta) (visible p)))) /\
  getattr_f "psigma" p' = (p', Ok (Array (map (psigma_of delta) bs))) /\
  getattr_f "beta0" p' = (p', Ok (Array bs)).
Proof.
  intros Hwf Hget p'.
  destruct (wf_float_column p "beta0" Hwf) as (b & Hb & Hbl); [cbn; tauto|].
  destruct (view_len_visible p (length b) Hwf Hbl) as [_ Hn].
  rewrite (getattr_f_wf p "beta0" b Hwf eq_refl Hb) in Hget.
  injection Hget as <-.
  assert (Lbs : length (firstn (visible p) b) = visible p)
    by (rewrite length_firstn; lia).
  unfold p', updated. rewrite Hb. set (bs := firstn (visible p) b) in *.
  assert (S0 : In (Float64, "beta0") per_particle_vars) by (cbn; tauto).
  assert (S1 : In (Float64, "delta") per_particle_vars) by (cbn; tauto).
  assert (S2 : In (Float64, "rvv") per_particle_vars) by (cbn; tauto).
  assert (S3 : In (Float64, "rpp") per_particle_vars) by (cbn; tauto).
  assert (S4 : In (Float64, "psigma") per_particle_vars) by (cbn; tauto).
  destruct (write_view_wf "delta" (repeat delta (visible p)) p Hwf S1)
    as [Hwf1 Hv1]; [apply repeat_length|].
  set (p1 := write_view "delta" _ p) in *.
  destruct (write_view_wf "rvv" (map (rvv_of delta) bs) p1 Hwf1 S2)
    as [Hwf2 Hv2]; [rewrite length_map; lia|].
  set (p2 := write_view "rvv" _ p1) in *.
  destruct (write_view_wf "rpp" (repeat (rpp_of delta) (visible p)) p2 Hwf2 S3)
    as [Hwf3 Hv3]; [rewrite repeat_length; lia|].
  set (p3 := write_view "rpp" _ p2) in *.
  assert (L2 : length (map (rvv_of delta) bs) = visible p1)
    by (rewrite length_map; lia).
  assert (L3 : length (repeat (rpp_of delta) (visible p)) = visible p2)
    by (rewrite repeat_length; lia).
  assert (L4 : length (map (psigma_of delta) bs) = visible p3)
    by (rewrite length_map; lia).
  assert (L1 : length (repeat delta (visible p)) = visible p)
    by apply repeat_length.
  split; [exact Lbs|].
  split.
  { apply read_other; auto; try discriminate.
    apply read_other; auto; try discriminate.
    apply read_other; auto; try discriminate.
    now apply read_written. }
  split.
  { apply read_other; auto; try discriminate.
    apply read_other; auto; try discriminate.
    now apply read_written. }
  split.
  { apply read_other; auto; try discriminate.
    now apply read_written. }
  split.
  { now apply read_written. }
  apply read_other; auto; try discriminate.
  apply read_other; auto; try discriminate.
  apply read_other; auto; try discriminate.
  apply read_other; auto; try discriminate.
  now apply (getattr_f_wf p "beta0" b).
Qed.

End UpdateDeltaReads.

(** *** In double precision *)

(** One particle on the CPU with the given [beta0]. *)
Definition one_particle {F : Type} {FO : Float64Ops F} (beta0 : F) : Particles F :=
  store "beta0" (F64 [beta0]) (fst (__init__ ContextCpu (Some 1))).

Lemma one_particle_beta0 {F : Type} {FO : Float64Ops F} (beta0 : F) :
  wf (one_particle beta0) /\
  getattr_f "beta0" (one_particle beta0) = (one_particle beta0, Ok (Array [beta0])).
Proof.
  split; [apply wfb_sound|]; vm_compute; reflexivity.
Qed.

(** The product of zero and a double of [(0, 1)] is zero. *)
Lemma float_mul_zero_l (b : float) :
  PrimFloat.ltb 0 b = true -> PrimFloat.ltb b 1 = true ->
  (0 * b)%float = 0%float.
Proof.
  intros H0 H1. apply Prim2SF_inj. rewrite mul_spec.
  rewrite ltb_spec in H0, H1.
  change (Prim2SF 0) with (S754_zero false) in *.
  change (Prim2SF 1) with (S754_finite false 4503599627370496 (-52)) in *.
  destruct (Prim2SF b) as [s|s| |s m e]; try discriminate.
  - destruct s; discriminate.
  - destruct s; [discriminate|reflexivity].
Qed.

(** At [delta = 0] the formulas of [update_delta] give [rvv = 1]. *)
Lemma rvv_at_zero (b : float) :
  PrimFloat.ltb 0 b = true -> PrimFloat.ltb b 1 = true ->
  rvv_of 0%float b = 1%float.
Proof.
  intros H0 H1. unfold rvv_of, ptau_beta0_of.
  cbn [fadd fsub fmul fdiv fsqrt of_int BinaryOps].
  rewrite (float_mul_zero_l b H0 H1).
  change (float_of_int 2 * 0)%float with 0%float.
  rewrite (float_mul_zero_l b H0 H1). reflexivity.
Qed.

(** The sum [1. + delta] in double precision, on the specification of the
    primitive floats. *)

Section Binary64.

Local Open Scope Z_scope.

Lemma iter_pos_iter {A : Type} (f : A -> A) (p : positive) (x : A) :
  iter_pos f p x = Pos.iter f x p.
Proof.
  revert x; induction p as [p IH|p IH|]; intros x; cbn [iter_pos Pos.iter].
  - rewrite !IH. now rewrite <- !Pos.iter_swap.
  - now rewrite !IH.
  - reflexivity.
Qed.

Lemma shr_1_m (mrs : shr_record) :
  0 <= shr_m mrs -> shr_m (shr_1 mrs) = Z.div2 (shr_m mrs).
Proof.
  destruct mrs as [m r s]. cbn [shr_m]. intros H.
  destruct m as [|[q|q|]|q]; cbn; try reflexivity; lia.
Qed.

Lemma shr_m_iter (p : positive) (mrs : shr_record) :
  0 <= shr_m mrs ->
  shr_m (iter_pos shr_1 p mrs) = Z.shiftr (shr_m mrs) (Zpos p).
Proof.
  intros H. rewrite iter_pos_iter.
  change (Z.shiftr (shr_m mrs) (Zpos p)) with (Pos.iter Z.div2 (shr_m mrs) p).
  assert (G : 0 <= shr_m (Pos.iter shr_1 mrs p)
              /\ shr_m (Pos.iter shr_1 mrs p) = Pos.iter Z.div2 (shr_m mrs) p).
  { apply (Pos.iter_ind _ shr_1 mrs
             (fun q r => 0 <= shr_m r /\ shr_m r = Pos.iter Z.div2 (shr_m mrs) q)).
    - split; [|now apply shr_1_m].
      rewrite shr_1_m by exact H. rewrite Z.div2_div. apply Z.div_pos; lia.
    - intros q r [H0 E]. rewrite Pos.iter_succ, <- E, shr_1_m by exact H0.
      split; [|reflexivity]. rewrite Z.div2_div. apply Z.div_pos; lia. }
  apply G.
Qed.

Lemma digits2_size (m : positive) : digits2_pos m = Pos.size m.
Proof. induction m; cbn; congruence. Qed.

Lemma digits2_bounds (m : positive) :
  2 ^ (Zpos (digits2_pos m) - 1) <= Zpos m < 2 ^ Zpos (digits2_pos m).
Proof.
  rewrite digits2_size.
  pose proof (Pos.size_gt m) as Hg. pose proof (Pos.size_le m) as Hl.
  apply Pos2Z.pos_lt_pos in Hg. apply Pos2Z.pos_le_pos in Hl.
  rewrite Pos2Z.inj_pow in Hg, Hl. rewrite (Pos2Z.inj_xO m) in Hl.
  split; [|exact Hg].
  replace (2 ^ Zpos (Pos.size m)) with (2 * 2 ^ (Zpos (Pos.size m) - 1)) in Hl; [lia|].
  rewrite <- Z.pow_succ_r by lia. f_equal. lia.
Qed.

(** Cutting a mantissa to the precision of the format leaves it positive. *)
Lemma shr_fexp_pos (m : positive) (e : Z) (l : location) :
  emin <= e ->
  let '(mrs, e') := shr_fexp prec emax (Zpos m) e l in
  0 < shr_m mrs /\ emin <= e'.
Proof.
  intros He. unfold shr_fexp, shr. cbn [Zdigits2].
  pose proof (digits2_bounds m) as [Hlo Hhi].
  set (d := Zpos (digits2_pos m)) in *.
  assert (Hd : 0 < d) by (unfold d; lia).
  assert (Hm : shr_m (shr_record_of_loc (Zpos m) l) = Zpos m)
    by (destruct l as [|[| |]]; reflexivity).
  destruct (fexp prec emax (d + e) - e) as [|n|n] eqn:En;
    try (rewrite Hm; split; [lia|exact He]).
  assert (En' : Zpos n = d - 53).
  { unfold SpecFloat.fexp, SpecFloat.emin, prec, emax in *. lia. }
  rewrite shr_m_iter by (rewrite Hm; lia). rewrite Hm, En'.
  split; [|lia].
  rewrite Z.shiftr_div_pow2 by lia.
  apply Z.lt_le_trans with (2 ^ 52); [lia|].
  apply Z.div_le_lower_bound; [apply Z.pow_pos_nonneg; lia|].
  rewrite Z.mul_comm, <- Z.pow_add_r by lia.
  replace (52 + (d - 53)) with (d - 1) by lia. exact Hlo.
Qed.

Lemma round_nearest_even_pos (m : Z) (l : location) :
  0 < m -> 0 < round_nearest_even m l.
Proof.
  intros H. destruct l as [|[| |]]; cbn [round_nearest_even]; try lia.
  destruct (Z.even m); lia.
Qed.

Definition is_zero_sf (x : spec_float) : bool :=
  match x with S754_zero _ => true | _ => false end.

(** Rounding a nonzero mantissa that is a multiple of the least positive
    double does not give zero. *)
Lemma binary_round_aux_nonzero (s : bool) (m : positive) (e : Z) (l : location) :
  emin <= e -> is_zero_sf (binary_round_aux prec emax s (Zpos m) e l) = false.
Proof.
  intros He. unfold binary_round_aux.
  pose proof (shr_fexp_pos m e l He) as H1.
  destruct (shr_fexp prec emax (Zpos m) e l) as [mrs1 e1].
  destruct H1 as [Hm1 He1].
  pose proof (round_nearest_even_pos (shr_m mrs1) (loc_of_shr_record mrs1) Hm1) as Hr.
  destruct (round_nearest_even (shr_m mrs1) (loc_of_shr_record mrs1)) as [|m2|m2]
    eqn:E2; try lia.
  pose proof (shr_fexp_pos m2 e1 loc_Exact He1) as H2.
  destruct (shr_fexp prec emax (Zpos m2) e1 loc_Exact) as [mrs2 e2].
  destruct H2 as [Hm2 _].
  destruct (shr_m mrs2) as [|m3|m3]; try lia.
  now destruct (e2 <=? emax - prec).
Qed.

Lemma iter_xO (m d : positive) :
  Zpos (Pos.iter xO m d) = Zpos m * 2 ^ Zpos d.
Proof.
  apply (Pos.iter_ind _ xO m (fun q r => Zpos r = Zpos m * 2 ^ Zpos q)).
  - rewrite Pos2Z.inj_xO. change (2 ^ 1) with 2. lia.
  - intros q r E. rewrite Pos2Z.inj_xO, E, Pos2Z.inj_succ, Z.pow_succ_r by lia. lia.
Qed.

Lemma shl_align_spec (m : positive) (e e' : Z) :
  let '(m', e'') := shl_align m e e' in
  e'' = Z.min e e' /\ Zpos m' = Zpos m * 2 ^ (e - e'').
Proof.
  unfold shl_align. destruct (e' - e) as [|d|d] eqn:Ed.
  - split; [lia|]. rewrite Z.sub_diag. cbn. lia.
  - split; [lia|]. rewrite Z.sub_diag. cbn. lia.
  - split; [lia|]. rewrite iter_xO. f_equal. f_equal. lia.
Qed.

Lemma binary_round_nonzero (s : bool) (m : positive) (e : Z) :
  emin <= e -> is_zero_sf (binary_round prec emax s m e) = false.
Proof.
  intros He. unfold binary_round.
  pose proof (shl_align_spec m e (fexp prec emax (Zpos (digits2_pos m) + e))) as H.
  destruct (shl_align m e _) as [mz ez]. destruct H as [Hez _].
  apply binary_round_aux_nonzero.
  unfold SpecFloat.fexp in Hez. unfold SpecFloat.emin, prec, emax in *. lia.
Qed.

Lemma canonical_exponent (m : positive) (e : Z) :
  bounded prec emax m e = true ->
  emin <= e /\ Zpos (digits2_pos m) <= 53 /\
  (emin < e -> Zpos (digits2_pos m) = 53).
Proof.
  unfold bounded, canonical_mantissa. intros H.
  apply andb_prop in H as [H _]. apply Z.eqb_eq in H.
  unfold SpecFloat.fexp, SpecFloat.emin, prec, emax in *. lia.
Qed.

(** The sum of one and a double is zero for minus one only. *)
Lemma SFadd_one_zero (d : spec_float) :
  valid_binary d = true ->
  is_zero_sf (SF64add (S754_finite false 4503599627370496 (-52)) d) = true ->
  d = S754_finite true 4503599627370496 (-52).
Proof.
  intros Hv. destruct d as [s|s| |s m e]; cbn [SF64add SFadd is_zero_sf];
    try discriminate.
  cbn [valid_binary] in Hv.
  destruct (canonical_exponent m e Hv) as (He & Hd & Hn).
  pose proof (digits2_bounds m) as [Hlo Hhi].
  set (dg := Zpos (digits2_pos m)) in *.
  cbv zeta.
  pose proof (shl_align_spec 4503599627370496 (-52) (Z.min (-52) e)) as H1.
  pose proof (shl_align_spec m e (Z.min (-52) e)) as H2.
  destruct (shl_align 4503599627370496 (-52) (Z.min (-52) e)) as [a ea].
  destruct (shl_align m e (Z.min (-52) e)) as [b eb].
  destruct H1 as [Ea Va], H2 as [Eb Vb]. cbn [fst].
  assert (Emin : SpecFloat.emin prec emax <= Z.min (-52) e)
    by (unfold SpecFloat.emin, prec, emax in *; lia).
  unfold binary_normalize.
  destruct (cond_Zopp false (Zpos a) + cond_Zopp s (Zpos b)) as [|q|q] eqn:EM.
  - intros _. destruct s; cbn [cond_Zopp] in EM; [|lia].
    assert (Eab : Zpos a = Zpos b) by lia. rewrite Va, Vb in Eab.
    destruct (Z.le_gt_cases e (-52)) as [Hle|Hgt].
    + replace ea with e in Eab by lia. replace eb with e in Eab by lia.
      rewrite Z.sub_diag, Z.mul_1_r in Eab.
      change 4503599627370496 with (2 ^ 52) in Eab.
      rewrite <- Z.pow_add_r in Eab by lia.
      replace (52 + (-52 - e)) with (- e) in Eab by lia.
      assert (Ee : e = -52).
      { destruct (Z.eq_dec e (-52)) as [E|N]; [exact E|].
        assert (Hp : 2 ^ 53 <= 2 ^ (- e)) by (apply Z.pow_le_mono_r; lia).
        assert (Hq : 2 ^ dg <= 2 ^ 53) by (apply Z.pow_le_mono_r; lia).
        lia. }
      subst e. change (2 ^ (- -52)) with 4503599627370496 in Eab.
      injection Eab as <-. reflexivity.
    + exfalso. replace ea with (-52) in Eab by lia.
      replace eb with (-52) in Eab by lia.
      rewrite Z.sub_diag, Z.mul_1_r in Eab.
      assert (D53 : dg = 53) by (apply Hn; unfold SpecFloat.emin, prec, emax; lia).
      rewrite D53 in Hlo. change (2 ^ (53 - 1)) with 4503599627370496 in Hlo.
      assert (Hp : 2 ^ 1 <= 2 ^ (e - -52)) by (apply Z.pow_le_mono_r; lia).
      change (2 ^ 1) with 2 in Hp. nia.
  - intros H. now rewrite binary_round_nonzero in H.
  - intros H. now rewrite binary_round_nonzero in H.
Qed.

Lemma SFeqb_zero (x : spec_float) :
  SFeqb x (S754_zero false) = is_zero_sf x.
Proof.
  destruct x as [s|s| |s m e]; cbn; try reflexivity; now destruct s.
Qed.

(** [1. + delta == 0.] holds for [delta = -1.] only. *)
Lemma one_plus_zero (delta : float) :
  PrimFloat.eqb (1 + delta) 0 = true <-> delta = (-1)%float.
Proof.
  split; [|intros ->; reflexivity].
  rewrite eqb_spec, add_spec.
  change (Prim2SF 0) with (S754_zero false).
  change (Prim2SF 1) with (S754_finite false 4503599627370496 (-52)).
  rewrite SFeqb_zero. intros H.
  apply SFadd_one_zero in H; [|apply Prim2SF_valid].
  apply Prim2SF_inj. rewrite H. reflexivity.
Qed.

End Binary64.

(** C3, as the code has it, in double precision. [update_delta(delta)]
    raises [ZeroDivisionError] with nothing written when [delta] is [-1.],
    the one double for which [1. + delta == 0.], and returns for every other
    double, so on the whole of [(-1, 10)], whatever [beta0]; after it has
    returned, [delta] reads back as the value given, [rpp] reads
    [1. / (1. + delta)], [rvv] reads [(1. + delta) / (1. + ptau_beta0)] and
    [beta0] is unchanged. The identity [rvv * rpp * (1 + delta) = 1] holds,
    exactly, at [delta = 0] for every [beta0] in [(0, 1)]. *)
Theorem update_delta_roundtrip (delta : float) (p : Particles float) :
  wf p ->
  exists beta0 : list float,
    getattr_f "beta0" p = (p, Ok (Array beta0)) /\
    (delta = (-1)%float ->
     update_delta (Scalar delta) p = (p, Raise ZeroDivisionError)) /\
    (delta <> (-1)%float ->
     exists p' : Particles float,
       update_delta (Scalar delta) p = (p', Ok tt) /\
       getattr_f "delta" p' = (p', Ok (Array (repeat delta (length beta0)))) /\
       getattr_f "rpp" p' = (p', Ok (Array (repeat (rpp_of delta) (length beta0)))) /\
       getattr_f "rvv" p' = (p', Ok (Array (map (rvv_of delta) beta0))) /\
       getattr_f "beta0" p' = (p', Ok (Array beta0))) /\
    (PrimFloat.ltb (-1) delta = true -> delta <> (-1)%float) /\
    (delta = 0%float ->
     Forall (fun b => PrimFloat.ltb 0 b = true /\ PrimFloat.ltb b 1 = true) beta0 ->
     Forall (fun b => (rvv_of delta b * rpp_of delta * (1 + delta))%float = 1%float)
       beta0).
Proof.
  intros Hwf.
  destruct (wf_float_column p "beta0" Hwf) as (b & Hb & Hbl); [cbn; tauto|].
  pose proof (getattr_f_wf p "beta0" b Hwf eq_refl Hb) as Hget.
  destruct (updated_reads delta p _ Hwf Hget) as (Hlen & H1 & H2 & H3 & _ & H5).
  exists (firstn (visible p) b). rewrite Hlen.
  split; [exact Hget|]. split; [|split; [|split]].
  - intros ->. now rewrite update_delta_run.
  - intros Hne. exists (updated delta p).
    split; [|auto]. apply update_delta_scalar; [exact Hwf|].
    change (is_zero (of_int 1 + delta)%fl) with (PrimFloat.eqb (1 + delta) 0).
    destruct (PrimFloat.eqb (1 + delta) 0) eqn:E; [|reflexivity].
    now apply one_plus_zero in E.
  - intros Hlt ->. discriminate.
  - intros -> Hb01.
    eapply Forall_impl; [|exact Hb01]. intros x [H0 Hx].
    rewrite (rvv_at_zero x H0 Hx). reflexivity.
Qed.

Example update_delta_roundtrip_witness :
  exists p' : Particles float,
    update_delta (Scalar 1.5%float) (one_particle 0.6%float) = (p', Ok tt) /\
    getattr_f "delta" p' = (p', Ok (Array [1.5%float])) /\
    getattr_f "rpp" p' = (p', Ok (Array [rpp_of 1.5%float])) /\
    getattr_f "rvv" p' = (p', Ok (Array [rvv_of 1.5%float 0.6%float])).
Proof.
  destruct (update_delta_roundtrip 1.5%float (one_particle 0.6%float))
    as (beta0 & Hb & _ & Hok & Hne & _).
  - apply one_particle_beta0.
  - rewrite (proj2 (one_particle_beta0 _)) in Hb.
    assert (E : beta0 = [0.6%float]) by congruence. subst beta0.
    destruct (Hok (Hne eq_refl)) as (p' & Hu & Hd & Hp & Hv & _).
    exists p'. auto.
Defined.

(** C3 as stated fails: [delta = 1.5] lies in [(-1, 10)] and [beta0 = 0.6]
    in [(0, 1)]; the call returns, [delta] reads back, and the product
    [rvv * rpp * (1 + delta)] of the fields read is above [1.47], not
    within [1e-12] of [1]. *)
Lemma update_delta_identity_counterexample :
  exists (p' : Particles float) (rvv rpp : float),
    PrimFloat.ltb (-1) 1.5 = true /\ PrimFloat.ltb 1.5 10 = true /\
    PrimFloat.ltb 0 0.6 = true /\ PrimFloat.ltb 0.6 1 = true /\
    update_delta (Scalar 1.5%float) (one_particle 0.6%float) = (p', Ok tt) /\
    getattr_f "delta" p' = (p', Ok (Array [1.5%float])) /\
    getattr_f "rvv" p' = (p', Ok (Array [rvv])) /\
    getattr_f "rpp" p' = (p', Ok (Array [rpp])) /\
    PrimFloat.leb (PrimFloat.abs (rvv * rpp * (1 + 1.5) - 1)) 1e-12 = false /\
    PrimFloat.ltb 1.47 (rvv * rpp * (1 + 1.5)) = true.
Proof.
  eexists _, _, _. vm_compute. repeat split; reflexivity.
Qed.

(** * [add_to_energy] *)

Section AddToEnergy.

Context {F : Type} {FO : Float64Ops F}.

(** A method that returns on no ensemble. *)
Definition never_returns {A : Type} (m : St (Particles F) A) : Prop :=
  forall p, exists e, snd (m p) = Raise e.

Lemma never_returns_bind_l {A B : Type} (m : St (Particles F) A)
  (k : A -> St (Particles F) B) :
  never_returns m -> never_returns (bind m k).
Proof.
  intros Hm p. unfold bind. destruct (Hm p) as [e He].
  destruct (m p) as [p1 [a|e']]; cbn [snd] in *; [discriminate|eauto].
Qed.

Lemma never_returns_bind_r {A B : Type} (m : St (Particles F) A)
  (k : A -> St (Particles F) B) :
  (forall a, never_returns (k a)) -> never_returns (bind m k).
Proof.
  intros Hk p. unfold bind. destruct (m p) as [p1 [a|e]]; [apply Hk|].
  cbn [snd]. eauto.
Qed.

Lemma setattr_property (nn : string) (assign : St (ndarray F) unit) :
  mem nn properties = true -> setattr nn assign = raise AttributeError.
Proof. unfold setattr. now intros ->. Qed.

(** An operand that is a float or an array of [n] doubles, and an operand
    that is an array of [n] doubles. *)
Definition shaped (n : nat) (r : result (npv F)) : Prop :=
  exists v, r = Ok v /\
            match v with Scalar _ => True | Array l => length l = n end.

Definition arr (n : nat) (r : result (npv F)) : Prop :=
  exists l, r = Ok (Array l) /\ length l = n.

Lemma map2_length (f : F -> F -> F) (l1 l2 : list F) :
  length l1 = length l2 -> length (map2 f l1 l2) = length l1.
Proof.
  revert l2; induction l1 as [|x l1 IH]; intros [|y l2] H; cbn in *;
    try discriminate; auto.
Qed.

Lemma arr_shaped (n : nat) (r : result (npv F)) : arr n r -> shaped n r.
Proof. intros (l & -> & H). now exists (Array l). Qed.

Lemma bop_shaped (f : F -> F -> F) (n : nat) (a b : result (npv F)) :
  shaped n a -> shaped n b -> shaped n (bop f a b).
Proof.
  intros (va & -> & Ha) (vb & -> & Hb).
  destruct va as [x|l1], vb as [y|l2]; cbn [bop].
  - eexists; split; [reflexivity|exact I].
  - eexists; split; [reflexivity|]. cbv beta iota. now rewrite length_map.
  - eexists; split; [reflexivity|]. cbv beta iota. now rewrite length_map.
  - rewrite Ha, Hb, Nat.eqb_refl. eexists; split; [reflexivity|].
    cbv beta iota. rewrite map2_length; congruence.
Qed.

Lemma bop_arr_l (f : F -> F -> F) (n : nat) (a b : result (npv F)) :
  arr n a -> shaped n b -> arr n (bop f a b).
Proof.
  intros (l1 & -> & Ha) (vb & -> & Hb). destruct vb as [y|l2]; cbn [bop].
  - eexists; split; [reflexivity|]. now rewrite length_map.
  - rewrite Ha, Hb, Nat.eqb_refl. eexists; split; [reflexivity|].
    rewrite map2_length; congruence.
Qed.

Lemma bop_arr_r (f : F -> F -> F) (n : nat) (a b : result (npv F)) :
  shaped n a -> arr n b -> arr n (bop f a b).
Proof.
  intros (va & -> & Ha) (l2 & -> & Hb). destruct va as [x|l1]; cbn [bop].
  - eexists; split; [reflexivity|]. now rewrite length_map.
  - rewrite Ha, Hb, Nat.eqb_refl. eexists; split; [reflexivity|].
    rewrite map2_length; congruence.
Qed.

Lemma truediv_arr_l (n : nat) (a b : result (npv F)) :
  arr n a -> shaped n b -> arr n (a / b)%np.
Proof.
  intros Ha Hb. destruct Ha as (l & -> & Ha). rewrite truediv_array_l.
  apply bop_arr_l; [now exists l|exact Hb].
Qed.

Lemma truediv_arr_r (n : nat) (a b : result (npv F)) :
  shaped n a -> arr n b -> arr n (a / b)%np.
Proof.
  intros Ha Hb. destruct Hb as (l & -> & Hb). rewrite truediv_array_r.
  apply bop_arr_r; [exact Ha|now exists l].
Qed.

Lemma sqrt_arr (n : nat) (a : result (npv F)) : arr n a -> arr n (np_sqrt a).
Proof.
  intros (l & -> & Ha). cbn [np_sqrt].
  eexists; split; [reflexivity|]. now rewrite length_map.
Qed.

Lemma lit_shaped (n : nat) (z : Z) : shaped n (lit z).
Proof. eexists; split; [reflexivity|exact I]. Qed.

Lemma scalar_shaped (n : nat) (x : F) : shaped n (Ok (Scalar x)).
Proof. eexists; split; [reflexivity|exact I]. Qed.

Lemma array_arr (n : nat) (l : list F) : length l = n -> arr n (Ok (Array l)).
Proof. intros H. now exists l. Qed.

End AddToEnergy.

Create HintDb shapes.
#[export] Hint Resolve arr_shaped bop_arr_l bop_arr_r bop_shaped truediv_arr_l
  truediv_arr_r sqrt_arr lit_shaped scalar_shaped array_arr : shapes.

Section AddToEnergyFacts.

Context {F : Type} {FO : Float64Ops F}.

Lemma frames_bind_never (names : list string) {A B : Type}
  (m : St (Particles F) A) (k : A -> St (Particles F) B) :
  frames names m -> never_returns m -> frames names (bind m k).
Proof.
  intros Hm Hn p. unfold bind. specialize (Hm p). destruct (Hn p) as [e He].
  destruct (m p) as [p1 [a|e']]; cbn [fst snd] in *; [discriminate|exact Hm].
Qed.

Lemma raise_never_returns {A : Type} (e : exn) :
  never_returns (raise (S := Particles F) (A := A) e).
Proof. intros p. exists e. reflexivity. Qed.

Lemma getattr_f_shaped (p : Particles F) (nn : string) :
  wf p -> In (Float64, nn) per_particle_vars ->
  exists l, getattr_f nn p = (p, Ok (Array l)) /\ length l = visible p.
Proof.
  intros Hwf Hin. destruct (wf_float_column p nn Hwf Hin) as (l & Ha & Hl).
  pose proof array_field_schema as Hf. rewrite Forall_forall in Hf.
  specialize (Hf _ Hin). cbn [snd] in Hf.
  destruct (view_len_visible p (length l) Hwf Hl) as [_ Hn].
  exists (firstn (visible p) l). split; [now apply getattr_f_wf|].
  rewrite length_firstn. lia.
Qed.

Lemma energy0_wf (p : Particles F) :
  wf p -> exists v, energy0 p = (p, Ok v) /\ arr (visible p) (Ok v).
Proof.
  intros Hwf.
  destruct (getattr_f_shaped p "p0c" Hwf) as (ps & Hp & Lp); [cbn; tauto|].
  unfold energy0. rewrite (bind_ok _ _ _ _ _ Hp).
  rewrite (bind_ok _ _ p p (mass0 p)) by reflexivity.
  assert (Hs : arr (visible p)
                 (np_sqrt (Ok (Array ps) * Ok (Array ps)
                           + Ok (Scalar (mass0 p)) * Ok (Scalar (mass0 p)))%np)).
  { apply sqrt_arr, bop_arr_l; [apply bop_arr_l|apply bop_shaped];
      auto with shapes. }
  destruct Hs as (l & E & Hl). exists (Array l). rewrite E. split; [reflexivity|].
  now exists l.
Qed.

(** On a well-formed ensemble the computation of [add_to_energy] reaches
    its first assignment, [self.delta = delta], which raises. *)
Lemma add_to_energy_wf (x : F) (p : Particles F) :
  wf p -> add_to_energy (Scalar x) p = (p, Raise AttributeError).
Proof.
  intros Hwf. set (n := visible p).
  destruct (getattr_f_shaped p "beta0" Hwf) as (bs & Hb & Lb); [cbn; tauto|].
  destruct (getattr_f_shaped p "delta" Hwf) as (ds & Hd & Ld); [cbn; tauto|].
  destruct (energy0_wf p Hwf) as (e0 & He & Se). fold n in Lb, Ld, Se.
  pose proof (array_arr n bs Lb) as Sb. pose proof (array_arr n ds Ld) as Sd.
  unfold add_to_energy.
  rewrite (bind_ok _ _ _ _ _ Hb), (bind_ok _ _ _ _ _ Hd).
  assert (S1 : arr n (Ok (Array ds) * Ok (Array bs))%np) by auto with shapes.
  destruct S1 as (delta_beta0 & E1 & S1). rewrite E1.
  rewrite (bind_ok _ _ p p (Array delta_beta0)) by reflexivity.
  apply array_arr in S1.
  rewrite (bind_ok _ _ _ _ _ He).
  assert (S2 : arr n (Ok (Scalar x) / Ok e0
                      + np_sqrt (Ok (Array delta_beta0) * Ok (Array delta_beta0)
                                 + lit 2 * Ok (Array delta_beta0) * Ok (Array bs)
                                 + lit 1)
                      - lit 1)%np).
  { apply bop_arr_l; [apply bop_arr_l|]; auto 12 with shapes. }
  destruct S2 as (ptau_beta0 & E2 & S2). rewrite E2.
  rewrite (bind_ok _ _ p p (Array ptau_beta0)) by reflexivity.
  apply array_arr in S2.
  assert (S3 : arr n (Ok (Array ptau_beta0) / Ok (Array bs))%np)
    by auto with shapes.
  destruct S3 as (ptau_v & E3 & S3). rewrite E3.
  rewrite (bind_ok _ _ p p (Array ptau_v)) by reflexivity.
  apply array_arr in S3.
  assert (S4 : arr n (Ok (Array ptau_v) / Ok (Array bs))%np) by auto with shapes.
  destruct S4 as (psigma & E4 & S4). rewrite E4.
  rewrite (bind_ok _ _ p p (Array psigma)) by reflexivity.
  apply array_arr in S4.
  assert (S5 : arr n (np_sqrt (Ok (Array ptau_v) * Ok (Array ptau_v)
                               + lit 2 * Ok (Array psigma) + lit 1)
                      - lit 1)%np).
  { apply bop_arr_l; [apply sqrt_arr, bop_arr_l; [apply bop_arr_l|]|];
      auto with shapes. }
  destruct S5 as (delta & E5 & S5). rewrite E5.
  rewrite (bind_ok _ _ p p (Array delta)) by reflexivity.
  apply array_arr in S5.
  assert (S6 : arr n (Ok (Array delta) + lit 1)%np) by auto with shapes.
  destruct S6 as (one_plus_delta & E6 & S6). rewrite E6.
  rewrite (bind_ok _ _ p p (Array one_plus_delta)) by reflexivity.
  apply array_arr in S6.
  assert (S7 : arr n (Ok (Array one_plus_delta) / (lit 1 + Ok (Array ptau_beta0)))%np)
    by auto with shapes.
  destruct S7 as (rvv & E7 & S7). rewrite E7.
  rewrite (bind_ok _ _ p p (Array rvv)) by reflexivity.
  apply bind_raise. reflexivity.
Qed.

End AddToEnergyFacts.

(** ** Claim on [add_to_energy] *)

(** C7 against the code. [add_to_energy] computes the new longitudinal
    variables and then executes [self.delta = delta]; [delta] is a property
    of the class without a setter, so the assignment raises
    [AttributeError]: the method returns on no ensemble and for no argument,
    and has written nothing when it raises. The energy of the claim cannot
    be read after a call that does not return. *)
Theorem add_to_energy_raises {F : Type} {FO : Float64Ops F}
  (delta_energy : npv F) (p : Particles F) :
  (exists e, snd (add_to_energy delta_energy p) = Raise e) /\
  same_except [] p (fst (add_to_energy delta_energy p)) /\
  (forall x, wf p -> delta_energy = Scalar x ->
             add_to_energy delta_energy p = (p, Raise AttributeError)).
Proof.
  split; [|split].
  - revert p. change (never_returns (add_to_energy delta_energy)).
    unfold add_to_energy.
    do 10 (apply never_returns_bind_r; intros ?).
    apply never_returns_bind_l.
    rewrite setattr_property by reflexivity. apply raise_never_returns.
  - revert p. change (frames [] (add_to_energy delta_energy)).
    unfold add_to_energy.
    apply frames_bind; [apply frames_getattr_f|]; intros ?.
    apply frames_bind; [apply frames_getattr_f|]; intros ?.
    apply frames_bind; [apply frames_lift|]; intros ?.
    apply frames_bind.
    { unfold energy0. apply frames_bind; [apply frames_getattr_f|]; intros ?.
      apply frames_bind; [apply frames_gets|]; intros ?. apply frames_lift. }
    intros ?.
    do 6 (apply frames_bind; [apply frames_lift|]; intros ?).
    apply frames_bind_never; rewrite setattr_property by reflexivity;
      [apply frames_raise|apply raise_never_returns].
  - intros x Hwf ->. now apply add_to_energy_wf.
Qed.

(** * Seeding the random generator *)

Section Seeding.

Context {F : Type} {FO : Float64Ops F}.

(** The kernel [Particles_initialize_rand_gen(particles, seeds, n_init)] of
    [particles_rng.h], which is not part of this file, and the draw of
    [np.random.randint(low=1, high=4e9, size=n, dtype=np.uint32)]. *)
Variable Particles_initialize_rand_gen : Particles F -> list Z -> Z -> Particles F.
Variable randint : Z -> list Z.

(** Loading a name that should denote an ensemble. In
    [_init_random_number_generator] the only such name in scope is the
    parameter [self]: [particles] is neither a parameter nor a local of the
    function, no global of the module and no builtin. *)
Definition load_name (nm : string) : St (Particles F) (Particles F) :=
  if String.eqb nm "self" then gets (fun p => p) else raise NameError.

Definition _init_random_number_generator (seeds : option (list Z))
  : St (Particles F) unit :=
  seeds <-
    match seeds with
    | None =>
        capacity <- gets _capacity ;;
        ret (randint capacity)
    | Some seeds =>
        let len_seeds := Z.of_nat (length seeds) in
        particles <- load_name "particles" ;;
        assert_ (len_seeds =? _capacity particles) ;;
        ret (map Np.wrap_u32 seeds)
    end ;;
  capacity <- gets _capacity ;;
  modify (fun p => Particles_initialize_rand_gen p seeds capacity).

(** C8 against the code. With an explicit [seeds] argument the assertion
    on its length evaluates [particles._capacity], and [particles] is
    unbound: the call raises [NameError] whether or not the length is the
    capacity, the seeds are not converted and the kernel is not invoked. *)
Theorem init_random_number_generator_seeds (seeds : list Z) (p : Particles F) :
  _init_random_number_generator (Some seeds) p = (p, Raise NameError).
Proof. reflexivity. Qed.

(** Without [seeds] the kernel runs once, on [_capacity] drawn seeds. *)
Lemma init_random_number_generator_default (p : Particles F) :
  _init_random_number_generator None p
  = (Particles_initialize_rand_gen p (randint (_capacity p)) (_capacity p), Ok tt).
Proof. reflexivity. Qed.

End Seeding.

(** * The generator of the LocalParticle interface *)

Module LocalParticle.

(** The C type xobjects gives each element type ([tt._c_type]). *)
Definition _c_type (t : dtype) : string :=
  match t with
  | Float64 => "double"
  | Int64 => "int64_t"
  | UInt32 => "uint32_t"
  end.

Definition nl : string := String (Ascii.ascii_of_nat 10) "".

(** [sep.join(lines)] *)
Definition join (sep : string) (lines : list string) : string :=
  String.concat sep lines.

Fixpoint _str_in_list (string_ : string) (str_list : list string) : bool :=
  match str_list with
  | [] => false
  | ss :: rest => if String.eqb ss string_ then true else _str_in_list string_ rest
  end.

Definition part_energy_varnames : list string := map snd part_energy_vars.

(** [_str_in_list] is membership. *)
Lemma str_in_list_In (string_ : string) (str_list : list string) :
  _str_in_list string_ str_list = true <-> In string_ str_list.
Proof.
  induction str_list as [|ss rest IH]; cbn [_str_in_list In].
  - split; [discriminate|tauto].
  - destruct (String.eqb_spec ss string_) as [->|Hne]; [tauto|].
    rewrite IH. split; [tauto|]. intros [E|H]; [congruence|exact H].
Qed.

Definition src_typedef : string :=
  join nl
    ([ "typedef struct{" ]
     ++ map (fun '(t, vv) => ("                 " ++ _c_type t ++ "  " ++ vv ++ ";")%string)
          (size_vars ++ scalar_vars)
     ++ map (fun '(t, vv) => ("    /*gpuglmem*/ " ++ _c_type t ++ "* " ++ vv ++ ";")%string)
          per_particle_vars
     ++ [ "                 int64_t ipart;"; "}LocalParticle;" ]).

Definition src_particles_to_local : string :=
  join nl
    ([ "
    /*gpufun*/
    void Particles_to_LocalParticle(ParticlesData source,
                                    LocalParticle* dest,
                                    int64_t id){" ]
     ++ map (fun '(_, vv) =>
               ("  dest->" ++ vv ++ " = ParticlesData_get_" ++ vv ++ "(source);")%string)
          (size_vars ++ scalar_vars)
     ++ map (fun '(_, vv) =>
               ("  dest->" ++ vv ++ " = ParticlesData_getp1_" ++ vv
                ++ "(source, 0);")%string)
          per_particle_vars
     ++ [ "  dest->ipart = id;"; "}" ]).

Definition src_local_to_particles : string :=
  join nl
    ([ "
    /*gpufun*/
    void LocalParticle_to_Particles(
                                    LocalParticle* source,
                                    ParticlesData dest,
                                    int64_t id,
                                    int64_t set_scalar){"; "if (set_scalar){" ]
     ++ map (fun '(_, vv) =>
               ("  ParticlesData_set_" ++ vv ++ "(dest,      LocalParticle_get_" ++ vv
                ++ "(source));")%string)
          (size_vars ++ scalar_vars)
     ++ [ "}" ]
     ++ map (fun '(_, vv) =>
               ("  ParticlesData_set_" ++ vv ++ "(dest, id,       LocalParticle_get_" ++ vv
                ++ "(source));")%string)
          per_particle_vars
     ++ [ "}" ]).

(** The first line of a mutator: its comment and its C header. *)
Definition mutator_header (name : string) (t : dtype) (vv : string) : string :=
  (nl ++ "    /*gpufun*/" ++ nl ++ "    void LocalParticle_" ++ name ++ vv
   ++ "(LocalParticle* part, " ++ _c_type t ++ " value)" ++ "{")%string.

(** The lines one iteration of the loop of the adders appends. *)
Definition adder_lines (freeze_vars : list string) (tv : dtype * string)
  : list string :=
  let '(t, vv) := tv in
  [ mutator_header "add_to_" t vv ]
  ++ (if _str_in_list vv freeze_vars then [ "/* frozen variable!" ] else [])
  ++ [ ("  part->" ++ vv ++ "[part->ipart] += value;")%string ]
  ++ (if _str_in_list vv freeze_vars then [ "frozen variable!*/" ] else [])
  ++ [ ("}" ++ nl)%string ].

Definition src_adders (freeze_vars : list string) : string :=
  join nl (flat_map (adder_lines freeze_vars) per_particle_vars).

Definition scaler_lines (freeze_vars : list string) (tv : dtype * string)
  : list string :=
  let '(t, vv) := tv in
  [ mutator_header "scale_" t vv ]
  ++ (if _str_in_list vv freeze_vars then [ "/* frozen variable!" ] else [])
  ++ [ ("  part->" ++ vv ++ "[part->ipart] *= value;")%string ]
  ++ (if _str_in_list vv freeze_vars then [ "frozen variable!*/" ] else [])
  ++ [ ("}" ++ nl)%string ].

Definition src_scalers (freeze_vars : list string) : string :=
  join nl (flat_map (scaler_lines freeze_vars) per_particle_vars).

Definition setter_lines (freeze_vars : list string) (tv : dtype * string)
  : list string :=
  let '(t, vv) := tv in
  [ mutator_header "set_" t vv ]
  ++ (if _str_in_list vv freeze_vars then [ "/* frozen variable!" ] else [])
  ++ [ ("  part->" ++ vv ++ "[part->ipart] = value;")%string ]
  ++ (if _str_in_list vv freeze_vars then [ "frozen variable!*/" ] else [])
  ++ [ "}" ].

Definition src_setters (freeze_vars : list string) : string :=
  join nl (flat_map (setter_lines freeze_vars) per_particle_vars).

Definition scalar_getter_lines (tv : dtype * string) : list string :=
  let '(t, vv) := tv in
  [ "/*gpufun*/";
    (_c_type t ++ " LocalParticle_get_" ++ vv ++ "(LocalParticle* part)" ++ "{")%string;
    ("  return part->" ++ vv ++ ";")%string;
    "}" ].

Definition getter_lines (tv : dtype * string) : list string :=
  let '(t, vv) := tv in
  [ "/*gpufun*/";
    (_c_type t ++ " LocalParticle_get_" ++ vv ++ "(LocalParticle* part)" ++ "{")%string;
    ("  return part->" ++ vv ++ "[part->ipart];")%string;
    "}" ].

Definition src_getters : string :=
  join nl (flat_map scalar_getter_lines (size_vars ++ scalar_vars)
           ++ flat_map getter_lines per_particle_vars).

Definition exchange_lines (tv : dtype * string) : string :=
  let '(t, vv) := tv in
  join nl
    [ (nl ++ "    {")%string;
      ("    " ++ _c_type t ++ " temp = part->" ++ vv ++ "[i2];")%string;
      ("    part->" ++ vv ++ "[i2] = part->" ++ vv ++ "[i1];")%string;
      ("    part->" ++ vv ++ "[i1] = temp;")%string;
      "     }" ].

Definition src_exchange : string :=
  (fold_left (fun acc tv => acc ++ exchange_lines tv) per_particle_vars
     "
/*gpufun*/
void LocalParticle_exchange(LocalParticle* part, int64_t i1, int64_t i2){
"
   ++ "}" ++ nl)%string.

Definition custom_source : string :=
  "
/*gpufun*/
double LocalParticle_get_energy0(LocalParticle* part){

    double const p0c = LocalParticle_get_p0c(part);
    double const m0  = LocalParticle_get_mass0(part);

    return sqrt( p0c * p0c + m0 * m0 );
}

/*gpufun*/
void LocalParticle_add_to_energy(LocalParticle* part, double delta_energy){

    double const beta0 = LocalParticle_get_beta0(part);
    double const delta_beta0 = LocalParticle_get_delta(part) * beta0;

    double const ptau_beta0 =
        delta_energy / LocalParticle_get_energy0(part) +
        sqrt( delta_beta0 * delta_beta0 + 2.0 * delta_beta0 * beta0
                + 1. ) - 1.;

    double const ptau   = ptau_beta0 / beta0;
    double const psigma = ptau / beta0;
    double const delta = sqrt( ptau * ptau + 2. * psigma + 1 ) - 1;

    double const one_plus_delta = delta + 1.;
    double const rvv = one_plus_delta / ( 1. + ptau_beta0 );

    LocalParticle_set_delta(part, delta );
    LocalParticle_set_psigma(part, psigma );
    LocalParticle_scale_zeta(part,
        rvv / LocalParticle_get_rvv(part));

    LocalParticle_set_rvv(part, rvv );
    LocalParticle_set_rpp(part, 1. / one_plus_delta );
}



/*gpufun*/
void LocalParticle_update_delta(LocalParticle* part, double new_delta_value){
    double const beta0 = LocalParticle_get_beta0(part);
    double const delta_beta0 = new_delta_value * beta0;
    double const ptau_beta0  = sqrt( delta_beta0 * delta_beta0 +
                                2. * delta_beta0 * beta0 + 1. ) - 1.;

    double const one_plus_delta = 1. + new_delta_value;
    double const rvv    = ( one_plus_delta ) / ( 1. + ptau_beta0 );
    double const rpp    = 1. / one_plus_delta;
    double const psigma = ptau_beta0 / ( beta0 * beta0 );

    LocalParticle_set_delta(part, new_delta_value);

    LocalParticle_set_rvv(part, rvv );
    LocalParticle_set_rpp(part, rpp );
    LocalParticle_set_psigma(part, psigma );

}

/*gpufun*/
void LocalParticle_update_p0c(LocalParticle* part, double new_p0c_value){

    double const mass0 = LocalParticle_get_mass0(part);
    double const old_p0c = LocalParticle_get_p0c(part);
    double const old_delta = LocalParticle_get_delta(part);

    double const ppc = old_p0c * old_delta + old_p0c;
    double const new_delta = (ppc - new_p0c_value)/new_p0c_value;

    double const new_energy0 = sqrt(new_p0c_value*new_p0c_value + mass0 * mass0);
    double const new_beta0 = new_p0c_value / new_energy0;
    double const new_gamma0 = new_energy0 / mass0;

    LocalParticle_set_p0c(part, new_p0c_value);
    LocalParticle_set_gamma0(part, new_gamma0);
    LocalParticle_set_beta0(part, new_beta0);

    LocalParticle_update_delta(part, new_delta);

    LocalParticle_scale_px(part, old_p0c/new_p0c_value);
    LocalParticle_scale_py(part, old_p0c/new_p0c_value);

}
".

Definition source (freeze_vars : list string) : string :=
  join (nl ++ nl)
    [ src_typedef; src_adders freeze_vars; src_getters;
      src_setters freeze_vars; src_scalers freeze_vars; src_exchange;
      src_particles_to_local; src_local_to_particles; custom_source ].

(** [gen_local_particle_api(mode, freeze_vars)] *)
Definition gen_local_particle_api (mode : string) (freeze_vars : list string)
  : result string :=
  if negb (String.eqb mode "no_local_copy") then Raise NotImplementedError
  else Ok (source freeze_vars).

End LocalParticle.

(** ** The comments of the generated C text *)

Module CText.

Import LocalParticle.

(** The scanner of block comments: in code, after a slash, in a comment,
    after a star in a comment. The generated text has no string literal and
    no line comment. *)
Inductive cstate : Type := Code | Slash | Comment | Star.

(** The text with each comment replaced by one space, and the state the
    scanner ends in. *)
Fixpoint scan (st : cstate) (s : string) : string * cstate :=
  match s with
  | EmptyString => (EmptyString, st)
  | String c rest =>
      match st with
      | Code =>
          if Ascii.eqb c "/" then scan Slash rest
          else let (o, f) := scan Code rest in (String c o, f)
      | Slash =>
          if Ascii.eqb c "*" then scan Comment rest
          else if Ascii.eqb c "/" then
            let (o, f) := scan Slash rest in (String "/" o, f)
          else let (o, f) := scan Code rest in (String "/" (String c o), f)
      | Comment =>
          if Ascii.eqb c "*" then scan Star rest else scan Comment rest
      | Star =>
          if Ascii.eqb c "/" then
            let (o, f) := scan Code rest in (String " " o, f)
          else if Ascii.eqb c "*" then scan Star rest
          else scan Comment rest
      end
  end.

Definition strip_comments (s : string) : string :=
  let (o, f) := scan Code s in
  match f with Slash => (o ++ "/")%string | _ => o end.

(** A text that leaves the scanner in code when it starts in code. *)
Definition balanced (s : string) : Prop := snd (scan Code s) = Code.

(** [s] occurs in [t] at a place where the scanner is in code. *)
Definition occurs_in_code (s t : string) : Prop :=
  exists pre post, t = (pre ++ s ++ post)%string /\ balanced pre.

(** [s in t], the test of Python on two texts. *)
Fixpoint contains (s t : string) : bool :=
  String.prefix s t
  || match t with
     | EmptyString => false
     | String _ rest => contains s rest
     end.

Lemma prefix_app (s post : string) : String.prefix s (s ++ post) = true.
Proof.
  induction s as [|c s IH]; cbn; [now destruct post|].
  destruct (Ascii.ascii_dec c c); [exact IH|congruence].
Qed.

Lemma contains_app (s pre post : string) :
  contains s (pre ++ s ++ post) = true.
Proof.
  induction pre as [|c pre IH]; cbn [append].
  - destruct (s ++ post)%string eqn:E; cbn [contains]; rewrite <- E;
      now rewrite prefix_app.
  - cbn [contains]. rewrite IH. apply orb_true_r.
Qed.

Lemma scan_app (a b : string) (st : cstate) :
  scan st (a ++ b)
  = let (o1, s1) := scan st a in
    let (o2, s2) := scan s1 b in ((o1 ++ o2)%string, s2).
Proof.
  revert st; induction a as [|c a IH]; intros st; cbn [append scan].
  - now destruct (scan st b).
  - destruct st.
    + destruct (Ascii.eqb c "/"); [apply IH|].
      rewrite IH. destruct (scan Code a) as [o1 s1].
      now destruct (scan s1 b).
    + destruct (Ascii.eqb c "*"); [apply IH|].
      destruct (Ascii.eqb c "/"); rewrite IH.
      * destruct (scan Slash a) as [o1 s1]. now destruct (scan s1 b).
      * destruct (scan Code a) as [o1 s1]. now destruct (scan s1 b).
    + destruct (Ascii.eqb c "*"); apply IH.
    + destruct (Ascii.eqb c "/").
      * rewrite IH. destruct (scan Code a) as [o1 s1]. now destruct (scan s1 b).
      * destruct (Ascii.eqb c "*"); apply IH.
Qed.

Lemma balanced_app (a b : string) :
  balanced a -> balanced b -> balanced (a ++ b).
Proof.
  unfold balanced. intros Ha Hb. rewrite scan_app.
  destruct (scan Code a) as [o1 s1]. cbn [snd] in Ha. subst s1.
  destruct (scan Code b) as [o2 s2]. exact Hb.
Qed.

Lemma balanced_empty : balanced "".
Proof. reflexivity. Qed.

(** Lines joined, as a text before and a text behind. *)
Fixpoint each_then (sep : string) (l : list string) : string :=
  match l with
  | [] => ""
  | x :: rest => (x ++ sep ++ each_then sep rest)%string
  end.

Fixpoint each_after (sep : string) (l : list string) : string :=
  match l with
  | [] => ""
  | x :: rest => (sep ++ x ++ each_after sep rest)%string
  end.

Lemma append_assoc (a b c : string) : ((a ++ b) ++ c = a ++ b ++ c)%string.
Proof. induction a; cbn; congruence. Qed.

Lemma append_nil_r (a : string) : (a ++ "")%string = a.
Proof. induction a; cbn; congruence. Qed.

Lemma join_cons (sep x : string) (l : list string) :
  join sep (x :: l) = (x ++ each_after sep l)%string.
Proof.
  unfold join. revert x; induction l as [|y l IH]; intros x.
  - cbn. now rewrite append_nil_r.
  - change (String.concat sep (x :: y :: l))
      with (x ++ sep ++ String.concat sep (y :: l))%string.
    now rewrite IH.
Qed.

Lemma each_after_app (sep : string) (l1 l2 : list string) :
  each_after sep (l1 ++ l2) = (each_after sep l1 ++ each_after sep l2)%string.
Proof.
  induction l1 as [|x l1 IH]; cbn [app each_after append]; [reflexivity|].
  now rewrite IH, !append_assoc.
Qed.

Lemma join_middle (sep : string) (l1 e l2 : list string) :
  e <> [] ->
  join sep (l1 ++ e ++ l2)
  = (each_then sep l1 ++ join sep e ++ each_after sep l2)%string.
Proof.
  intros He. induction l1 as [|x l1 IH]; cbn [app each_then append].
  - destruct e as [|y e]; [congruence|]. cbn [app].
    now rewrite !join_cons, each_after_app, append_assoc.
  - rewrite join_cons. destruct (l1 ++ e ++ l2) as [|z r] eqn:E.
    + destruct l1, e; cbn in E; congruence.
    + cbn [each_after]. rewrite <- join_cons, IH, !append_assoc. reflexivity.
Qed.

Lemma each_then_app (sep : string) (l1 l2 : list string) :
  each_then sep (l1 ++ l2) = (each_then sep l1 ++ each_then sep l2)%string.
Proof.
  induction l1 as [|x l1 IH]; cbn [app each_then append]; [reflexivity|].
  now rewrite IH, !append_assoc.
Qed.

Lemma each_then_join (sep : string) (l : list string) :
  l <> [] -> each_then sep l = (join sep l ++ sep)%string.
Proof.
  intros Hl. destruct l as [|x l]; [congruence|]. clear Hl.
  rewrite join_cons. revert x; induction l as [|y l IH]; intros x.
  - cbn [each_then each_after]. now rewrite !append_nil_r.
  - change (each_then sep (x :: y :: l))
      with (x ++ sep ++ each_then sep (y :: l))%string.
    rewrite IH. cbn [each_after]. now rewrite !append_assoc.
Qed.

(** What is left of a mutator of a frozen field once its comments are
    removed: the header and an empty body. *)
Definition inert_text (name close : string) (t : dtype) (vv : string) : string :=
  (nl ++ "     " ++ nl ++ "    void LocalParticle_" ++ name ++ vv
   ++ "(LocalParticle* part, " ++ _c_type t ++ " value){"
   ++ nl ++ " " ++ nl ++ close)%string.

(** What is left of a getter. *)
Definition getter_text (t : dtype) (vv : string) : string :=
  (" " ++ nl ++ _c_type t ++ " LocalParticle_get_" ++ vv ++ "(LocalParticle* part){"
   ++ nl ++ "  return part->" ++ vv ++ "[part->ipart];" ++ nl ++ "}")%string.

Ltac by_fields H tac :=
  cbn in H;
  repeat (destruct H as [H|H]; [injection H as <- <-; tac|]);
  contradiction.

Lemma setter_frozen (fv : list string) (t : dtype) (vv : string) :
  In (t, vv) per_particle_vars -> _str_in_list vv fv = true ->
  scan Code (join nl (setter_lines fv (t, vv))) = (inert_text "set_" "}" t vv, Code).
Proof.
  intros Hin Hf.
  by_fields Hin ltac:(unfold setter_lines; rewrite Hf; vm_compute; reflexivity).
Qed.

Lemma adder_frozen (fv : list string) (t : dtype) (vv : string) :
  In (t, vv) per_particle_vars -> _str_in_list vv fv = true ->
  scan Code (join nl (adder_lines fv (t, vv)))
  = (inert_text "add_to_" ("}" ++ nl) t vv, Code).
Proof.
  intros Hin Hf.
  by_fields Hin ltac:(unfold adder_lines; rewrite Hf; vm_compute; reflexivity).
Qed.

Lemma scaler_frozen (fv : list string) (t : dtype) (vv : string) :
  In (t, vv) per_particle_vars -> _str_in_list vv fv = true ->
  scan Code (join nl (scaler_lines fv (t, vv)))
  = (inert_text "scale_" ("}" ++ nl) t vv, Code).
Proof.
  intros Hin Hf.
  by_fields Hin ltac:(unfold scaler_lines; rewrite Hf; vm_compute; reflexivity).
Qed.

Lemma getter_scanned (t : dtype) (vv : string) :
  In (t, vv) per_particle_vars ->
  scan Code (join nl (getter_lines (t, vv))) = (getter_text t vv, Code).
Proof.
  intros Hin. by_fields Hin ltac:(vm_compute; reflexivity).
Qed.

(** Frozen or not, every mutator and getter is a balanced text. *)
Lemma setter_balanced (fv : list string) (tv : dtype * string) :
  In tv per_particle_vars ->
  balanced (join nl (setter_lines fv tv)) /\ setter_lines fv tv <> [].
Proof.
  destruct tv as [t vv]. intros Hin. split; [|discriminate].
  unfold balanced.
  by_fields Hin ltac:(unfold setter_lines; destruct (_str_in_list _ fv);
                      vm_compute; reflexivity).
Qed.

Lemma adder_balanced (fv : list string) (tv : dtype * string) :
  In tv per_particle_vars ->
  balanced (join nl (adder_lines fv tv)) /\ adder_lines fv tv <> [].
Proof.
  destruct tv as [t vv]. intros Hin. split; [|discriminate].
  unfold balanced.
  by_fields Hin ltac:(unfold adder_lines; destruct (_str_in_list _ fv);
                      vm_compute; reflexivity).
Qed.

Lemma scaler_balanced (fv : list string) (tv : dtype * string) :
  In tv per_particle_vars ->
  balanced (join nl (scaler_lines fv tv)) /\ scaler_lines fv tv <> [].
Proof.
  destruct tv as [t vv]. intros Hin. split; [|discriminate].
  unfold balanced.
  by_fields Hin ltac:(unfold scaler_lines; destruct (_str_in_list _ fv);
                      vm_compute; reflexivity).
Qed.

Lemma getter_balanced (tv : dtype * string) :
  In tv per_particle_vars ->
  balanced (join nl (getter_lines tv)) /\ getter_lines tv <> [].
Proof.
  destruct tv as [t vv]. intros Hin. split; [|discriminate].
  unfold balanced. now rewrite getter_scanned.
Qed.

Lemma balanced_nl : balanced nl.
Proof. reflexivity. Qed.

(** The entries of a loop over fields, each followed by a newline. *)
Lemma entries_then_balanced (f : dtype * string -> list string)
  (vars : list (dtype * string)) :
  (forall tv, In tv vars -> balanced (join nl (f tv)) /\ f tv <> []) ->
  balanced (each_then nl (flat_map f vars)).
Proof.
  induction vars as [|tv vars IH]; intros H; [reflexivity|].
  cbn [flat_map]. rewrite each_then_app.
  destruct (H tv (or_introl eq_refl)) as [Hb Hne].
  rewrite (each_then_join nl (f tv) Hne).
  apply balanced_app; [apply balanced_app; [exact Hb|apply balanced_nl]|].
  apply IH. intros tv' Hin. apply H. now right.
Qed.

Lemma entries_balanced (f : dtype * string -> list string)
  (vars : list (dtype * string)) :
  (forall tv, In tv vars -> balanced (join nl (f tv)) /\ f tv <> []) ->
  balanced (join nl (flat_map f vars)).
Proof.
  intros H. destruct vars as [|v vs]; [reflexivity|].
  destruct (exists_last (l := v :: vs)) as (init & last & E); [discriminate|].
  rewrite E in *. clear E v vs.
  assert (Hlast : balanced (join nl (f last)) /\ f last <> [])
    by (apply H, in_or_app; right; now left).
  destruct Hlast as [Hb Hne].
  rewrite flat_map_app. cbn [flat_map].
  rewrite (join_middle nl (flat_map f init) (f last) [] Hne).
  cbn [each_after]. rewrite append_nil_r.
  apply balanced_app; [|exact Hb].
  apply entries_then_balanced. intros tv Hin. apply H, in_or_app. now left.
Qed.

Lemma occurs_skip (e l m : string) :
  balanced l -> occurs_in_code e m -> occurs_in_code e (l ++ m).
Proof.
  intros Hl (pre & post & -> & Hpre). exists (l ++ pre)%string, post.
  split; [now rewrite !append_assoc|now apply balanced_app].
Qed.

Lemma occurs_head (e m r : string) :
  occurs_in_code e m -> occurs_in_code e (m ++ r).
Proof.
  intros (pre & post & -> & Hpre). exists pre, (post ++ r)%string.
  split; [now rewrite !append_assoc|exact Hpre].
Qed.

Lemma occurs_lines (e : list string) (l1 l2 : list string) :
  e <> [] -> balanced (each_then nl l1) ->
  occurs_in_code (join nl e) (join nl (l1 ++ e ++ l2)).
Proof.
  intros He Hb. rewrite (join_middle nl l1 e l2 He).
  exists (each_then nl l1), (each_after nl l2). now split.
Qed.

(** The lines of one field occur in the text of the loop over the fields. *)
Lemma entry_occurs (f : dtype * string -> list string)
  (vars : list (dtype * string)) (tv : dtype * string) :
  (forall tv', In tv' vars -> balanced (join nl (f tv')) /\ f tv' <> []) ->
  In tv vars ->
  occurs_in_code (join nl (f tv)) (join nl (flat_map f vars)).
Proof.
  intros H Hin. destruct (in_split _ _ Hin) as (before & after & ->).
  rewrite flat_map_app. cbn [flat_map].
  apply occurs_lines.
  - apply H, in_or_app. right. now left.
  - apply entries_then_balanced. intros tv' Hin'. apply H, in_or_app. now left.
Qed.

Lemma typedef_balanced : balanced src_typedef.
Proof. vm_compute. reflexivity. Qed.

Lemma getters_balanced : balanced src_getters.
Proof. vm_compute. reflexivity. Qed.

Lemma scalar_getters_balanced :
  balanced (each_then nl (flat_map scalar_getter_lines (size_vars ++ scalar_vars))).
Proof. vm_compute. reflexivity. Qed.

Lemma separator_balanced : balanced (nl ++ nl).
Proof. reflexivity. Qed.

Lemma adders_balanced (fv : list string) : balanced (src_adders fv).
Proof. apply entries_balanced. intros tv. apply adder_balanced. Qed.

Lemma setters_balanced (fv : list string) : balanced (src_setters fv).
Proof. apply entries_balanced. intros tv. apply setter_balanced. Qed.

Lemma source_parts (fv : list string) :
  source fv
  = (src_typedef ++ (nl ++ nl) ++ src_adders fv ++ (nl ++ nl) ++ src_getters
     ++ (nl ++ nl) ++ src_setters fv ++ (nl ++ nl) ++ src_scalers fv
     ++ (nl ++ nl) ++ src_exchange ++ (nl ++ nl) ++ src_particles_to_local
     ++ (nl ++ nl) ++ src_local_to_particles ++ (nl ++ nl) ++ custom_source)%string.
Proof. reflexivity. Qed.

Lemma adder_occurs (fv : list string) (tv : dtype * string) :
  In tv per_particle_vars ->
  occurs_in_code (join nl (adder_lines fv tv)) (source fv).
Proof.
  intros Hin. rewrite source_parts.
  apply occurs_skip; [apply typedef_balanced|].
  apply occurs_skip; [apply separator_balanced|].
  apply occurs_head.
  apply (entry_occurs (adder_lines fv)); [|exact Hin].
  intros tv'. apply adder_balanced.
Qed.

Lemma getter_occurs (fv : list string) (tv : dtype * string) :
  In tv per_particle_vars ->
  occurs_in_code (join nl (getter_lines tv)) (source fv).
Proof.
  intros Hin. rewrite source_parts.
  apply occurs_skip; [apply typedef_balanced|].
  apply occurs_skip; [apply separator_balanced|].
  apply occurs_skip; [apply adders_balanced|].
  apply occurs_skip; [apply separator_balanced|].
  apply occurs_head.
  unfold src_getters.
  set (scalars := flat_map scalar_getter_lines (size_vars ++ scalar_vars)).
  destruct (in_split _ _ Hin) as (before & after & E). rewrite E.
  rewrite flat_map_app.
  change (flat_map getter_lines (tv :: after))
    with (getter_lines tv ++ flat_map getter_lines after).
  rewrite app_assoc.
  apply occurs_lines.
  - destruct tv. discriminate.
  - rewrite each_then_app.
    apply balanced_app; [apply scalar_getters_balanced|].
    apply entries_then_balanced. intros tv' Hin'. apply getter_balanced.
    rewrite E. apply in_or_app. now left.
Qed.

Lemma setter_occurs (fv : list string) (tv : dtype * string) :
  In tv per_particle_vars ->
  occurs_in_code (join nl (setter_lines fv tv)) (source fv).
Proof.
  intros Hin. rewrite source_parts.
  apply occurs_skip; [apply typedef_balanced|].
  apply occurs_skip; [apply separator_balanced|].
  apply occurs_skip; [apply adders_balanced|].
  apply occurs_skip; [apply separator_balanced|].
  apply occurs_skip; [apply getters_balanced|].
  apply occurs_skip; [apply separator_balanced|].
  apply occurs_head.
  apply (entry_occurs (setter_lines fv)); [|exact Hin].
  intros tv'. apply setter_balanced.
Qed.

Lemma scaler_occurs (fv : list string) (tv : dtype * string) :
  In tv per_particle_vars ->
  occurs_in_code (join nl (scaler_lines fv tv)) (source fv).
Proof.
  intros Hin. rewrite source_parts.
  apply occurs_skip; [apply typedef_balanced|].
  apply occurs_skip; [apply separator_balanced|].
  apply occurs_skip; [apply adders_balanced|].
  apply occurs_skip; [apply separator_balanced|].
  apply occurs_skip; [apply getters_balanced|].
  apply occurs_skip; [apply separator_balanced|].
  apply occurs_skip; [apply setters_balanced|].
  apply occurs_skip; [apply separator_balanced|].
  apply occurs_head.
  apply (entry_occurs (scaler_lines fv)); [|exact Hin].
  intros tv'. apply scaler_balanced.
Qed.

End CText.

(** ** Claim on the frozen fields *)

(** C9, as the code has it. For every per-particle field named in the
    frozen set, the generated text holds its setter, its adder and its
    scaler, each at a place where the C scanner is in code; the mutation
    statement of each lies inside a comment, so that with the comments
    removed the function is its header and an empty body: it can be called
    and does nothing. The getter of the field is emitted as for any field and
    returns the stored value. *)
Theorem frozen_mutators_inert (freeze_vars : list string) (t : dtype) (vv : string) :
  In (t, vv) per_particle_vars ->
  In vv freeze_vars ->
  exists src : string,
    LocalParticle.gen_local_particle_api "no_local_copy" freeze_vars = Ok src /\
    (let setter := LocalParticle.join LocalParticle.nl
                     (LocalParticle.setter_lines freeze_vars (t, vv)) in
     CText.occurs_in_code setter src /\
     CText.scan CText.Code setter = (CText.inert_text "set_" "}" t vv, CText.Code)) /\
    (let adder := LocalParticle.join LocalParticle.nl
                    (LocalParticle.adder_lines freeze_vars (t, vv)) in
     CText.occurs_in_code adder src /\
     CText.scan CText.Code adder
     = (CText.inert_text "add_to_" ("}" ++ LocalParticle.nl) t vv, CText.Code)) /\
    (let scaler := LocalParticle.join LocalParticle.nl
                     (LocalParticle.scaler_lines freeze_vars (t, vv)) in
     CText.occurs_in_code scaler src /\
     CText.scan CText.Code scaler
     = (CText.inert_text "scale_" ("}" ++ LocalParticle.nl) t vv, CText.Code)) /\
    (let getter := LocalParticle.join LocalParticle.nl
                     (LocalParticle.getter_lines (t, vv)) in
     CText.occurs_in_code getter src /\
     CText.scan CText.Code getter = (CText.getter_text t vv, CText.Code)).
Proof.
  intros Hin Hf. apply LocalParticle.str_in_list_In in Hf.
  exists (LocalParticle.source freeze_vars).
  split; [reflexivity|].
  split; [split; [now apply CText.setter_occurs|now apply CText.setter_frozen]|].
  split; [split; [now apply CText.adder_occurs|now apply CText.adder_frozen]|].
  split; [split; [now apply CText.scaler_occurs|now apply CText.scaler_frozen]|].
  split; [now apply CText.getter_occurs|now apply CText.getter_scanned].
Qed.

Example frozen_mutators_inert_witness :
  exists src : string,
    LocalParticle.gen_local_particle_api "no_local_copy" ["x"; "zeta"] = Ok src /\
    CText.occurs_in_code
      (LocalParticle.join LocalParticle.nl
         (LocalParticle.setter_lines ["x"; "zeta"] (Float64, "zeta"))) src /\
    CText.scan CText.Code
      (LocalParticle.join LocalParticle.nl
         (LocalParticle.setter_lines ["x"; "zeta"] (Float64, "zeta")))
    = (CText.inert_text "set_" "}" Float64 "zeta", CText.Code).
Proof.
  destruct (frozen_mutators_inert ["x"; "zeta"] Float64 "zeta")
    as (src & Hs & [Ho Hi] & _).
  - cbn. tauto.
  - cbn. tauto.
  - exists src. auto.
Defined.

(** C9 as stated fails for the frozen names that are no per-particle
    field: [q0] is a field of the struct, and with [q0] in the frozen set
    the generated text holds no setter, no adder and no scaler of [q0] at
    all, commented or not; the loops that emit the mutators run over the
    per-particle fields only. *)
Lemma frozen_mutators_counterexample :
  In (Float64, "q0") scalar_vars /\ In "q0" ["q0"] /\
  exists src : string,
    LocalParticle.gen_local_particle_api "no_local_copy" ["q0"] = Ok src /\
    forall name : string, In name ["set_"; "add_to_"; "scale_"] ->
      ~ exists pre post : string,
          src = (pre ++ ("LocalParticle_" ++ name ++ "q0") ++ post)%string.
Proof.
  split; [cbn; tauto|]. split; [cbn; tauto|].
  eexists. split; [reflexivity|].
  intros name Hname (pre & post & E).
  pose proof (CText.contains_app ("LocalParticle_" ++ name ++ "q0") pre post) as H.
  rewrite <- E in H.
  destruct Hname as [<-|[<-|[<-|[]]]]; vm_compute in H; discriminate.
Qed.

(** * Further properties of the ensemble *)

(** ** Compaction *)

(** X1. [reorganize] on a pyopencl context fails its first assertion: it raises
    [AssertionError] and the ensemble is as before. *)
Theorem reorganize_refused_on_pyopencl {F : Type} {FO : Float64Ops F}
  (p : Particles F) :
  context p = ContextPyopencl ->
  reorganize p = (p, Raise AssertionError).
Proof.
  intros H. unfold reorganize.
  rewrite (bind_ok _ _ p p (context p)) by reflexivity. now rewrite H.
Qed.

Example reorganize_refused_on_pyopencl_witness :
  reorganize (fst (__init__ (F := float) ContextPyopencl (Some 2)))
  = (fst (__init__ (F := float) ContextPyopencl (Some 2)), Raise AssertionError).
Proof. apply reorganize_refused_on_pyopencl. reflexivity. Defined.

(** X2. [reorganize] moves whole rows: in the array of every field, the first
    [n_active] slots are the entries of the alive particles, in their order,
    and the next [n_lost] slots the entries of the lost ones, in theirs; the
    array keeps its length. *)
Theorem reorganize_moves_rows {F : Type} {FO : Float64Ops F}
  (p : Particles F) (nn : string) (a : ndarray F) :
  wf p -> is_pyopencl (context p) = false ->
  In (nn, a) (per_particle p) ->
  exists a' : ndarray F,
    assoc nn (per_particle (fst (reorganize p))) = Some a' /\
    nd_len a' = nd_len a /\
    nd_take (Z.to_nat (n_active_of p)) a'
    = nd_select (mask_active_of (state_of p)) a /\
    nd_take (Z.to_nat (n_lost_of p)) (nd_drop (Z.to_nat (n_active_of p)) a')
    = nd_select (mask_lost_of (state_of p)) a.
Proof.
  intros Hwf Hctx Hin.
  rewrite (reorganize_spec p Hwf Hctx). cbn [fst].
  destruct (wf_column_of p nn a Hwf Hin) as (_ & Ha & Hlen).
  destruct (wf_state p Hwf) as [_ Hcap].
  pose proof (masks_disjoint_sum (state_of p)) as Hs.
  set (ma := mask_active_of (state_of p)) in *.
  set (ml := mask_lost_of (state_of p)) in *.
  assert (Lma : length ma = nd_len a)
    by (unfold ma, mask_active_of; rewrite length_map; lia).
  assert (Lml : length ml = nd_len a)
    by (unfold ml, mask_lost_of; rewrite length_map; lia).
  exists (nd_compact ma ml a).
  unfold reorganized. cbn [per_particle]. rewrite assoc_map_columns, Ha.
  split; [reflexivity|].
  unfold n_active_of, n_lost_of. fold ma ml.
  destruct a as [l|l|l]; cbn [nd_compact nd_len nd_take nd_drop nd_select] in *;
    rewrite (sum_select l ma Lma), (sum_select l ml Lml), !Nat2Z.id;
    (split; [apply compact_length; lia|]); unfold compact; cbv zeta;
    (split; f_equal;
     [ rewrite firstn_app, firstn_all, Nat.sub_diag, firstn_O; apply app_nil_r
     | rewrite skipn_app, skipn_all, Nat.sub_diag; cbn [app skipn];
       rewrite firstn_app, firstn_all, Nat.sub_diag, firstn_O; apply app_nil_r ]).
Qed.

Example reorganize_moves_rows_witness :
  exists a' : ndarray float,
    assoc "particle_id"
      (per_particle (fst (reorganize (ensemble 3 [0; -999999999; 1] [7; 8; 9]))))
    = Some a' /\
    nd_take 1 a' = I64 [9] /\ nd_take 1 (nd_drop 1 a') = I64 [7].
Proof.
  destruct (reorganize_moves_rows (ensemble 3 [0; -999999999; 1] [7; 8; 9])
              "particle_id" (I64 [7; 8; 9]))
    as (a' & Ha & _ & H1 & H2).
  - apply wfb_sound; vm_compute; reflexivity.
  - reflexivity.
  - apply assoc_In. vm_compute. reflexivity.
  - exists a'. split; [exact Ha|]. split; [exact H1|exact H2].
Defined.

(** X3. [reorganize] keeps the ensemble well formed and touches neither the
    context, the capacity, the reference charge and mass nor the hiding of
    the lost particles; on the CPU the two counters are set to the pair it
    returns, elsewhere they are left as they were. *)
Theorem reorganize_bookkeeping {F : Type} {FO : Float64Ops F} (p : Particles F) :
  wf p -> is_pyopencl (context p) = false ->
  let p' := fst (reorganize p) in
  wf p' /\
  context p' = context p /\ _capacity p' = _capacity p /\
  q0 p' = q0 p /\ mass0 p' = mass0 p /\
  _lim_arrays_name p' = _lim_arrays_name p /\
  (if is_cpu (context p)
   then snd (reorganize p)
        = Ok (_num_active_particles p', _num_lost_particles p')
   else _num_active_particles p' = _num_active_particles p /\
        _num_lost_particles p' = _num_lost_particles p).
Proof.
  intros Hwf Hctx p'. unfold p'.
  rewrite (reorganize_spec p Hwf Hctx). cbn [fst snd].
  split; [now apply wf_reorganized|].
  unfold reorganized.
  cbn [context _capacity q0 mass0 _lim_arrays_name _num_active_particles
       _num_lost_particles].
  repeat (split; [reflexivity|]).
  destruct (is_cpu (context p)); [reflexivity|split; reflexivity].
Qed.

Example reorganize_bookkeeping_witness :
  snd (reorganize (ensemble 3 [0; -999999999; 1] [7; 8; 9]))
  = Ok (_num_active_particles
          (fst (reorganize (ensemble 3 [0; -999999999; 1] [7; 8; 9]))),
        _num_lost_particles
          (fst (reorganize (ensemble 3 [0; -999999999; 1] [7; 8; 9])))).
Proof.
  refine (proj2 (proj2 (proj2 (proj2 (proj2 (proj2
    (reorganize_bookkeeping (ensemble 3 [0; -999999999; 1] [7; 8; 9]) _ _))))))).
  - apply wfb_sound; vm_compute; reflexivity.
  - reflexivity.
Defined.

(** X4. [reorganize] on an ensemble whose lost particles are hidden unhides
    them, compacts the full arrays and hides them again: the result is that
    of the ensemble with the lost particles shown, hidden again. *)
Theorem reorganize_with_hidden_lost {F : Type} {FO : Float64Ops F}
  (p : Particles F) :
  wf p -> is_pyopencl (context p) = false ->
  let hidden := set_lim_arrays_name (Some "_num_active_particles") p in
  let shown := set_lim_arrays_name None p in
  reorganize hidden
  = (set_lim_arrays_name (Some "_num_active_particles") (fst (reorganize shown)),
     snd (reorganize shown)).
Proof.
  intros Hwf Hctx hidden shown.
  assert (Hh : wf hidden).
  { split; [exact (wf_schema p Hwf)|exact (wf_length p Hwf)|now right]. }
  assert (Hs : wf shown).
  { split; [exact (wf_schema p Hwf)|exact (wf_length p Hwf)|now left]. }
  rewrite (reorganize_spec hidden Hh Hctx), (reorganize_spec shown Hs Hctx).
  reflexivity.
Qed.

Example reorganize_with_hidden_lost_witness :
  snd (reorganize (set_lim_arrays_name (Some "_num_active_particles")
                     (ensemble 3 [0; 1; 1] [7; 8; 9])))
  = Ok (2, 1).
Proof.
  rewrite (reorganize_with_hidden_lost (ensemble 3 [0; 1; 1] [7; 8; 9])).
  - reflexivity.
  - apply wfb_sound; vm_compute; reflexivity.
  - reflexivity.
Defined.



(** ** Merge *)

(** X6. [add_particles] with [keep_lost] set raises [NotImplementedError], and on
    a pyopencl context it raises [AssertionError]; in both cases the receiver
    is as before, whatever the donor. *)
Theorem add_particles_refusals {F : Type} {FO : Float64Ops F}
  (part p : Particles F) :
  add_particles part true p = (p, Raise NotImplementedError) /\
  (context p = ContextPyopencl ->
   add_particles part false p = (p, Raise AssertionError)).
Proof.
  split; [reflexivity|]. intros Hctx. unfold add_particles.
  rewrite (bind_ok _ _ p p tt) by reflexivity.
  rewrite (bind_ok _ _ p p (context p)) by reflexivity.
  now rewrite Hctx.
Qed.

(** X7. When the donor fits but its reference charge or mass is not close to the
    receiver's, [add_particles] raises [AssertionError] after the receiver
    has been compacted and before anything is copied. *)
Theorem add_particles_scalar_mismatch {F : Type} {FO : Float64Ops F}
  (part p : Particles F) :
  wf p -> wf part -> is_pyopencl (context p) = false ->
  _lim_arrays_name p = None -> _lim_arrays_name part = None ->
  0 < n_active_of p + n_lost_of p ->
  n_active_of part <= _capacity p - n_active_of p - n_lost_of p ->
  isclose (q0 p) (q0 part) && isclose (mass0 p) (mass0 part) = false ->
  add_particles part false p = (reorganized p, Raise AssertionError).
Proof.
  intros Hwf Hpart Hctx Hlim Hlimp Hpos Hfit Hclose.
  rewrite (add_particles_unfold part p Hwf Hctx).
  destruct (wf_state part Hpart) as [Hst _].
  rewrite (getattr_of_visible "state" "state" _ part eq_refl Hlimp Hst).
  cbn [as_int].
  destruct (counts_bounds p Hwf) as (Ha & Hl & Hle).
  destruct (merge_tail_prefix part (reorganized p)
              (mask_active_of (state_of part)) (n_active_of p) (n_lost_of p))
    as (max_id & _ & Htail); auto.
  - now apply wf_reorganized.
  - rewrite Htail. apply bind_raise. rewrite check_scalars_spec.
    change (q0 (reorganized p)) with (q0 p).
    change (mass0 (reorganized p)) with (mass0 p). now rewrite Hclose.
Qed.

Example add_particles_scalar_mismatch_witness :
  add_particles (set_mass0 1%float (ensemble 2 [1; 0] [0; 1])) false
    (ensemble 3 [0; -999999999; 1] [7; 8; 9])
  = (reorganized (ensemble 3 [0; -999999999; 1] [7; 8; 9]),
     Raise AssertionError).
Proof.
  apply add_particles_scalar_mismatch.
  - apply wfb_sound; vm_compute; reflexivity.
  - apply wfb_sound; vm_compute; reflexivity.
  - reflexivity.
  - reflexivity.
  - reflexivity.
  - reflexivity.
  - vm_compute. discriminate.
  - vm_compute. reflexivity.
Defined.








(** ** The range of the identifiers of the alive particles *)

Lemma fold_min_spec (l : list Z) (x : Z) :
  In (fold_left Z.min l x) (x :: l) /\
  Forall (fun v => fold_left Z.min l x <= v) (x :: l).
Proof.
  revert x. induction l as [|y l IH]; intros x; cbn [fold_left].
  - split; [now left|]. repeat constructor. lia.
  - destruct (IH (Z.min x y)) as [Hin Hall]. split.
    + destruct Hin as [Hin|Hin]; [|now right; right].
      destruct (Z.min_spec x y) as [[_ E]|[_ E]]; rewrite E in *;
        [|right]; now left.
    + inversion Hall as [|? ? H1 H2]; subst. constructor; [lia|].
      constructor; [lia|]. exact H2.
Qed.

(** X9. [get_active_particle_id_range] returns the least identifier of an alive
    particle and the greatest plus one (in 64 bits), both taken among the
    identifiers of the alive particles; without an alive particle [np.min]
    raises [ValueError]. *)
Theorem active_particle_id_range {F : Type} {FO : Float64Ops F}
  (p : Particles F) :
  wf p -> _lim_arrays_name p = None ->
  let ids := Np.select (int_column "particle_id" p) (mask_active_of (state_of p)) in
  match ids with
  | [] => get_active_particle_id_range p = (p, Raise ValueError)
  | _ :: _ =>
      exists lo hi : Z,
        get_active_particle_id_range p = (p, Ok (lo, Np.wrap64 (hi + 1))) /\
        In lo ids /\ In hi ids /\ Forall (fun id => lo <= id <= hi) ids
  end.
Proof.
  intros Hwf Hlim ids.
  destruct (wf_state p Hwf) as [Hst Hcap].
  destruct (wf_particle_id p Hwf) as [Hid Hlen].
  assert (Hrun : get_active_particle_id_range p
                 = match ids with
                   | [] => (p, Raise ValueError)
                   | x :: rest =>
                       (p, Ok (fold_left Z.min rest x,
                               Np.wrap64 (fold_left Z.max rest x + 1)))
                   end).
  { unfold get_active_particle_id_range.
    rewrite (bind_ok _ _ _ _ _ (getattr_visible "state" "state" _ p eq_refl Hlim Hst)).
    cbn [as_int]. rewrite (bind_ok _ _ p p (state_of p)) by reflexivity.
    rewrite (bind_ok _ _ _ _ _
               (getattr_visible "particle_id" "particle_id" _ p eq_refl Hlim Hid)).
    cbn [as_int].
    rewrite (bind_ok _ _ p p (int_column "particle_id" p)) by reflexivity.
    rewrite (bind_ok _ _ p p ids).
    - destruct ids; reflexivity.
    - unfold lift, Np.bool_index, mask_active_of. rewrite length_map.
      replace (length (state_of p)) with (length (int_column "particle_id" p)) by lia.
      now rewrite Nat.eqb_refl. }
  rewrite Hrun. destruct ids as [|x rest]; [reflexivity|].
  exists (fold_left Z.min rest x), (fold_left Z.max rest x).
  destruct (fold_min_spec rest x) as [Hmin Hle].
  destruct (np_max_spec (x :: rest) (fold_left Z.max rest x) eq_refl) as [Hmax Hge].
  repeat split; auto.
  rewrite Forall_forall in *. intros v Hv.
  specialize (Hle v Hv). specialize (Hge v Hv). cbv beta in Hge. lia.
Qed.

Example active_particle_id_range_witness :
  get_active_particle_id_range (ensemble 3 [1; 0; 1] [7; 8; 9])
  = (ensemble 3 [1; 0; 1] [7; 8; 9], Ok (7, 10)).
Proof.
  pose proof (active_particle_id_range (ensemble 3 [1; 0; 1] [7; 8; 9])) as H.
  cbv zeta in H.
  replace (Np.select (int_column "particle_id" (ensemble 3 [1; 0; 1] [7; 8; 9]))
             (mask_active_of (state_of (ensemble 3 [1; 0; 1] [7; 8; 9]))))
    with [7; 9] in H by (vm_compute; reflexivity).
  destruct H as (lo & hi & Hr & Hlo & Hhi & Hall).
  - apply wfb_sound; vm_compute; reflexivity.
  - reflexivity.
  - inversion Hall as [|? ? H7 Hall']; subst.
    inversion Hall' as [|? ? H9 _]; subst.
    assert (lo = 7) by (cbn in Hlo; lia). assert (hi = 9) by (cbn in Hhi; lia).
    subst. exact Hr.
Defined.

(** ** Hiding the lost particles *)

(** X10. On an ensemble whose lost particles are not hidden:
    [lost_particles_are_hidden] is false, [unhide_lost_particles] raises
    [AttributeError] (there is no attribute to delete),
    [hide_lost_particles] makes the property true, hiding and unhiding gives
    the ensemble back, and hiding twice is hiding once. *)
Theorem hide_unhide_lost_particles {F : Type} {FO : Float64Ops F}
  (p : Particles F) :
  _lim_arrays_name p = None ->
  lost_particles_are_hidden p = false /\
  unhide_lost_particles p = (p, Raise AttributeError) /\
  lost_particles_are_hidden (fst (hide_lost_particles p)) = true /\
  (hide_lost_particles ;; unhide_lost_particles) p = (p, Ok tt) /\
  (hide_lost_particles ;; hide_lost_particles) p = hide_lost_particles p.
Proof.
  intros Hlim. unfold lost_particles_are_hidden, unhide_lost_particles,
    hide_lost_particles, bind, modify.
  rewrite Hlim. cbn [fst _lim_arrays_name set_lim_arrays_name].
  repeat split. destruct p; cbn in *. now subst.
Qed.

Example hide_unhide_lost_particles_witness :
  unhide_lost_particles (ensemble 1 [1] [0])
  = (ensemble 1 [1] [0], Raise AttributeError).
Proof.
  refine (proj1 (proj2 (hide_unhide_lost_particles (ensemble 1 [1] [0]) _))).
  reflexivity.
Defined.

(** X11. On the CPU, after [reorganize] and [hide_lost_particles], the field
    [state] reads as the states of the alive particles only, in their order. *)
Theorem hidden_view_is_alive {F : Type} {FO : Float64Ops F} (p : Particles F) :
  wf p -> context p = ContextCpu ->
  let p' := fst ((reorganize ;; hide_lost_particles) p) in
  getattr "state" p'
  = (p', Ok (I64 (Np.select (state_of p) (mask_active_of (state_of p))))).
Proof.
  intros Hwf Hctx p'.
  assert (Hpy : is_pyopencl (context p) = false) by now rewrite Hctx.
  assert (Ep : p' = set_lim_arrays_name (Some "_num_active_particles") (reorganized p)).
  { unfold p'. rewrite (bind_ok _ _ _ _ _ (reorganize_spec p Hwf Hpy)). reflexivity. }
  clearbody p'. subst p'.
  pose proof (wf_reorganized p Hwf) as Hwf1.
  set (h := set_lim_arrays_name _ (reorganized p)).
  assert (Hwfh : wf h).
  { split; [exact (wf_schema _ Hwf1)|exact (wf_length _ Hwf1)|now right]. }
  destruct (wf_state h Hwfh) as [Hst Hcap].
  destruct (counts_bounds p Hwf) as (Ha & Hl & Hle).
  destruct (wf_state p Hwf) as [_ Hcap0].
  pose proof (masks_disjoint_sum (state_of p)) as Hs.
  assert (Hvis : visible h = Z.to_nat (n_active_of p)).
  { unfold visible, h, reorganized.
    cbn [_lim_arrays_name set_lim_arrays_name _capacity _num_active_particles].
    rewrite Hctx. cbn [is_cpu]. unfold Np.norm_index.
    destruct (Z.ltb_spec (n_active_of p) 0); lia. }
  unfold getattr.
  rewrite (with_view_wf "state" "state" (I64 (state_of h))
             (I64 (firstn (visible h) (state_of h)))
             (Ok (I64 (firstn (visible h) (state_of h)))) _ h Hwfh eq_refl Hst eq_refl).
  cbn [nd_drop nd_app]. rewrite firstn_skipn.
  unfold store. rewrite (assoc_set_same _ _ _ Hst), set_per_particle_same.
  do 3 f_equal. rewrite Hvis.
  change (state_of h) with (state_of (reorganized p)).
  rewrite (state_of_reorganized p Hwf). unfold compact. cbv zeta.
  unfold n_active_of.
  rewrite (sum_select (state_of p) (mask_active_of (state_of p)))
    by (unfold mask_active_of; apply length_map).
  rewrite Nat2Z.id, firstn_app, firstn_all, Nat.sub_diag, firstn_O.
  apply app_nil_r.
Qed.

Example hidden_view_is_alive_witness :
  snd (getattr "state"
         (fst ((reorganize ;; hide_lost_particles)
                 (ensemble 3 [0; 5; 1] [7; 8; 9]))))
  = Ok (I64 [5; 1]).
Proof.
  rewrite (hidden_view_is_alive (ensemble 3 [0; 5; 1] [7; 8; 9])).
  - reflexivity.
  - apply wfb_sound; vm_compute; reflexivity.
  - reflexivity.
Defined.

(** ** Construction *)

Section Construction.

Context {F : Type} {FO : Float64Ops F}.

(** An array of [n] elements of type [t], each the Python number [value]. *)
Definition nd_full (t : dtype) (value : Z) (n : nat) : ndarray F :=
  match t with
  | Float64 => F64 (repeat (of_int value) n)
  | Int64 => I64 (repeat value n)
  | UInt32 => U32 (repeat (Np.wrap_u32 value) n)
  end.

(** The array of the field [nn] in a fresh ensemble of [capacity] slots. *)
Definition fresh_column (capacity : Z) (t : dtype) (nn : string) : ndarray F :=
  if mem nn ["chi"; "charge_ratio"; "state"] then nd_full t 1 (Z.to_nat capacity)
  else if String.eqb nn "particle_id" then I64 (Np.arange 0 capacity)
  else nd_full t 0 (Z.to_nat capacity).

Definition fresh (ctx : Context) (capacity : Z) : Particles F :=
  mkParticles ctx None capacity
    (if is_cpu ctx then capacity else -1) (if is_cpu ctx then 0 else -1)
    (of_int 0) (of_int 0)
    (map (fun tn => (snd tn, fresh_column capacity (fst tn) (snd tn)))
       per_particle_vars).

Lemma compact_all_alive {A : Type} (x : A) (l : list A) :
  compact x (repeat true (length l)) (repeat false (length l)) l = l.
Proof.
  unfold compact. cbv zeta. rewrite select_all_true, select_all_false.
  cbn [length]. rewrite Nat.sub_diag. cbn. now rewrite app_nil_r.
Qed.

Lemma fresh_wf (ctx : Context) (capacity : Z) :
  0 <= capacity < 2 ^ 63 -> wf (fresh ctx capacity).
Proof.
  intros Hc. split; [reflexivity| |now left].
  unfold fresh. cbn [per_particle _capacity].
  rewrite Forall_map. apply Forall_forall. intros [t nn] Hin. cbn [fst snd].
  assert (Hl : forall v, Z.of_nat (nd_len (nd_full t v (Z.to_nat capacity))) = capacity).
  { intros v. destruct t; cbn [nd_full nd_len]; rewrite repeat_length; lia. }
  unfold fresh_column. destruct (mem nn _); [apply Hl|].
  destruct (String.eqb nn "particle_id"); [|apply Hl].
  cbn [nd_len]. rewrite arange_length; lia.
Qed.

Lemma fresh_state (ctx : Context) (capacity : Z) :
  state_of (fresh ctx capacity) = repeat 1 (Z.to_nat capacity).
Proof. reflexivity. Qed.

Lemma fresh_reorganized (capacity : Z) :
  0 <= capacity < 2 ^ 63 ->
  reorganized (fresh ContextCpu capacity) = fresh ContextCpu capacity.
Proof.
  intros Hc. pose proof (fresh_wf ContextCpu capacity Hc) as Hwf.
  set (k := Z.to_nat capacity).
  assert (Ecols :
    map_columns (fun _ => nd_compact (repeat true k) (repeat false k))
      (per_particle (fresh ContextCpu capacity))
    = per_particle (fresh ContextCpu capacity)).
  { pose proof (wf_length _ Hwf) as Hlen. rewrite Forall_forall in Hlen.
    unfold map_columns.
    transitivity (map (fun c : string * ndarray F => c)
                    (per_particle (fresh ContextCpu capacity)));
      [apply map_ext_in|apply map_id].
    intros [nn a] Hin. cbn [fst snd]. f_equal.
    specialize (Hlen _ Hin). cbn [snd] in Hlen.
    change (_capacity (fresh ContextCpu capacity)) with capacity in Hlen.
    replace k with (nd_len a) by (unfold k; lia).
    destruct a; cbn [nd_compact nd_len]; now rewrite compact_all_alive. }
  unfold reorganized, n_active_of, n_lost_of. rewrite fresh_state.
  unfold mask_active_of, mask_lost_of. rewrite !map_repeat.
  change (0 <? 1) with true.
  change ((1 <? 1) && (LAST_INVALID_STATE <? 1)) with false.
  fold k. rewrite Ecols, sum_repeat_true, sum_repeat_false.
  unfold fresh, k.
  cbn [context _lim_arrays_name _capacity q0 mass0 is_cpu per_particle].
  now rewrite Z2Nat.id by lia.
Qed.


Lemma for_ext {S A : Type} (xs : list A) (f g : A -> St S unit) :
  (forall x, In x xs -> f x = g x) -> for_ xs f = for_ xs g.
Proof.
  induction xs as [|x xs IH]; intros H; [reflexivity|].
  cbn [for_]. rewrite (H x) by now left.
  rewrite IH; [reflexivity|]. intros y Hy. apply H. now right.
Qed.

(** The loop that fills the arrays, on the struct [xoinitialize] allocated. *)
Lemma init_columns (ctx : Context) (capacity : Z) :
  0 <= capacity < 2 ^ 63 ->
  for_ per_particle_vars (fun '(_, kk) =>
    if String.eqb kk "chi" || String.eqb kk "charge_ratio"
       || String.eqb kk "state"
    then with_view kk (nd_fill None None 1)
    else if String.eqb kk "particle_id"
    then with_view kk (nd_set_slice None None (I64 (Np.arange 0 capacity)))
    else with_view kk (nd_fill None None 0)) (xoinitialize ctx capacity)
  = (set_per_particle (per_particle (fresh ctx capacity)) (xoinitialize ctx capacity),
     Ok tt).
Proof.
  intros Hc.
  set (body := fun kk : string =>
    if String.eqb kk "chi" || String.eqb kk "charge_ratio" || String.eqb kk "state"
    then nd_fill None None 1
    else if String.eqb kk "particle_id"
    then nd_set_slice None None (I64 (Np.arange 0 capacity))
    else nd_fill (F := F) None None 0).
  rewrite (for_ext per_particle_vars _
             (fun '(_, nn) => with_view nn (body nn))).
  2:{ intros [t kk] _. unfold body.
      destruct (String.eqb kk "chi" || String.eqb kk "charge_ratio"
                || String.eqb kk "state"); [reflexivity|].
      destruct (String.eqb kk "particle_id"); reflexivity. }
  rewrite (loop_columns body (fun nn a => fresh_column capacity (nd_dtype a) nn)
             per_particle_vars (per_particle (xoinitialize ctx capacity)) []
             (xoinitialize ctx capacity)).
  - cbn [app]. do 2 f_equal.
  - reflexivity.
  - reflexivity.
  - unfold xoinitialize. cbn [per_particle app]. now rewrite map_map.
  - cbn [app]. unfold xoinitialize. cbn [per_particle]. rewrite map_map.
    apply schema_names_NoDup.
  - unfold xoinitialize. cbn [per_particle]. rewrite Forall_map.
    exact array_field_schema.
  - unfold xoinitialize. cbn [per_particle]. rewrite Forall_map.
    apply Forall_forall. intros [t nn] Hin. cbn [fst snd].
    assert (Hd : nd_dtype (nd_zeros t (Z.to_nat capacity)) = t) by now destruct t.
    rewrite Hd. split.
    2:{ unfold fresh_column. destruct (mem nn _); [now destruct t|].
        destruct (String.eqb_spec nn "particle_id") as [->|_]; [|now destruct t].
        cbn [nd_dtype]. cbn in Hin.
        repeat (destruct Hin as [Hin|Hin]; [inversion Hin; reflexivity|]).
        destruct Hin. }
    assert (Hfill : forall v,
              nd_fill None None v (nd_zeros t (Z.to_nat capacity))
              = (nd_full t v (Z.to_nat capacity), Ok tt)).
    { intros v. unfold nd_fill.
      destruct t; cbn [nd_zeros nd_full]; now rewrite fill_all, repeat_length. }
    unfold body, fresh_column, mem. cbn [existsb].
    rewrite orb_false_r, orb_assoc, !(String.eqb_sym nn).
    destruct (String.eqb "chi" nn || String.eqb "charge_ratio" nn
              || String.eqb "state" nn); [apply Hfill|].
    destruct (String.eqb_spec "particle_id" nn) as [<-|_]; [|apply Hfill].
    assert (t = Int64) as ->.
    { cbn in Hin.
      repeat (destruct Hin as [Hin|Hin]; [inversion Hin; reflexivity|]).
      destruct Hin. }
    unfold nd_set_slice. cbn [nd_zeros].
    rewrite set_all
      by (rewrite arange_length, repeat_length by lia; f_equal; lia).
    reflexivity.
Qed.

(** The ensemble [Particles(_context=ctx, _capacity=capacity)] builds. *)
Lemma init_fresh (ctx : Context) (capacity : Z) :
  0 <= capacity < 2 ^ 63 ->
  __init__ ctx (Some capacity) = (fresh ctx capacity, Ok tt).
Proof.
  intros Hc. unfold __init__.
  rewrite (bind_ok _ _ (xoinitialize ctx capacity) (xoinitialize ctx capacity) tt)
    by reflexivity.
  rewrite (bind_ok _ _ _ _ _ (init_columns ctx capacity Hc)).
  set (p1 := set_per_particle _ _).
  rewrite (bind_ok _ _ p1 (set_num_active_particles (-1) p1) tt) by reflexivity.
  rewrite (bind_ok _ _ _ (set_num_lost_particles (-1)
                            (set_num_active_particles (-1) p1)) tt) by reflexivity.
  destruct ctx; cbn [is_cpu]; [|reflexivity|reflexivity].
  set (p2 := set_num_lost_particles _ _).
  assert (Hwf2 : wf p2).
  { pose proof (fresh_wf ContextCpu capacity Hc) as [H1 H2 H3].
    split; [exact H1|exact H2|now left]. }
  rewrite (bind_ok _ _ _ _ _ (reorganize_spec p2 Hwf2 eq_refl)).
  unfold ret. f_equal.
  rewrite <- (fresh_reorganized capacity Hc). reflexivity.
Qed.
End Construction.

(** X12. [Particles(_context=ctx, _capacity=n)], and [n = 1] when no capacity is
    given, builds a well-formed ensemble of [n] slots: every particle is
    alive ([state = 1]), the identifiers are [0 .. n-1], [chi] and
    [charge_ratio] are [1], every other array is zero, the lost particles
    are not hidden; on the CPU the counters are [n] and [0], elsewhere [-1]; the reference charge and mass are zero. *)
Theorem init_fresh_ensemble {F : Type} {FO : Float64Ops F}
  (ctx : Context) (capacity : option Z) :
  let n := match capacity with Some c => c | None => 1 end in
  0 <= n < 2 ^ 63 ->
  exists p : Particles F,
    __init__ ctx capacity = (p, Ok tt) /\ wf p /\
    context p = ctx /\ _capacity p = n /\ lost_particles_are_hidden p = false /\
    state_of p = repeat 1 (Z.to_nat n) /\
    int_column "particle_id" p = Np.arange 0 n /\
    (forall t nn, In (t, nn) per_particle_vars ->
       assoc nn (per_particle p) = Some (fresh_column n t nn)) /\
    _num_active_particles p = (if is_cpu ctx then n else -1) /\
    _num_lost_particles p = (if is_cpu ctx then 0 else -1) /\
    q0 p = of_int 0 /\ mass0 p = of_int 0.
Proof.
  intros n Hn. exists (fresh ctx n).
  split.
  { rewrite <- (init_fresh ctx n Hn). subst n.
    destruct capacity; unfold __init__; cbv zeta; reflexivity. }
  split; [now apply fresh_wf|].
  do 5 (split; [reflexivity|]).
  split; [|repeat split; reflexivity].
  intros t nn Hin. unfold fresh. cbn [per_particle].
  cbn in Hin.
  repeat (destruct Hin as [Hin|Hin]; [injection Hin as <- <-; reflexivity|]).
  destruct Hin.
Qed.

Example init_fresh_ensemble_witness :
  exists p : Particles float,
    __init__ ContextCpu (Some 3) = (p, Ok tt) /\
    state_of p = [1; 1; 1] /\ int_column "particle_id" p = [0; 1; 2] /\
    _num_active_particles p = 3 /\ _num_lost_particles p = 0.
Proof.
  destruct (init_fresh_ensemble (F := float) ContextCpu (Some 3))
    as (p & Hi & _ & _ & _ & _ & Hs & Hid & _ & Ha & Hl & _).
  - cbv zeta. lia.
  - exists p. repeat split; assumption.
Defined.

(** ** The generated text *)

Section GeneratedText.

Import LocalParticle CText.




(** Whether a field is frozen is all the text takes from [freeze_vars]. *)
Lemma str_in_list_ext (fv fv' : list string) (vv : string) :
  (In vv fv <-> In vv fv') -> _str_in_list vv fv = _str_in_list vv fv'.
Proof.
  intros H. pose proof (str_in_list_In vv fv) as H1.
  pose proof (str_in_list_In vv fv') as H2.
  destruct (_str_in_list vv fv), (_str_in_list vv fv'); try reflexivity.
  - assert (true = true) as _ by reflexivity.
    destruct H2 as [_ H2]. specialize (H2 (proj1 H (proj1 H1 eq_refl))). discriminate.
  - destruct H1 as [_ H1]. specialize (H1 (proj2 H (proj1 H2 eq_refl))). discriminate.
Qed.

Lemma flat_map_ext_in {A B : Type} (f g : A -> list B) (l : list A) :
  (forall x, In x l -> f x = g x) -> flat_map f l = flat_map g l.
Proof.
  induction l as [|x l IH]; intros H; [reflexivity|].
  cbn [flat_map]. rewrite (H x) by now left.
  rewrite IH; [reflexivity|]. intros y Hy. apply H. now right.
Qed.

(** X14. The generated text depends on [freeze_vars] only through which of the
    per-particle fields it contains: order, repetitions and names that are
    not per-particle fields make no difference. *)
Theorem freeze_vars_as_set (mode : string) (fv fv' : list string) :
  (forall vv, In vv (map snd per_particle_vars) -> (In vv fv <-> In vv fv')) ->
  gen_local_particle_api mode fv = gen_local_particle_api mode fv'.
Proof.
  intros H.
  assert (E : forall tv, In tv per_particle_vars ->
                _str_in_list (snd tv) fv = _str_in_list (snd tv) fv').
  { intros tv Hin. apply str_in_list_ext, H, in_map, Hin. }
  unfold gen_local_particle_api, source, src_adders, src_setters, src_scalers.
  rewrite (flat_map_ext_in (adder_lines fv) (adder_lines fv')),
    (flat_map_ext_in (setter_lines fv) (setter_lines fv')),
    (flat_map_ext_in (scaler_lines fv) (scaler_lines fv')); [reflexivity| | |];
    intros [t vv] Hin; specialize (E _ Hin); cbn [snd] in E;
    unfold adder_lines, setter_lines, scaler_lines; now rewrite E.
Qed.

Example freeze_vars_as_set_witness :
  gen_local_particle_api "no_local_copy" ["x"; "q0"; "x"]
  = gen_local_particle_api "no_local_copy" ["x"].
Proof.
  apply freeze_vars_as_set. intros vv Hin. cbn in Hin. cbn.
  intuition congruence.
Defined.

(** What is left of a mutator of a field that is not frozen: its header
    and its statement. *)
Definition live_text (name op close : string) (t : dtype) (vv : string) : string :=
  (nl ++ "     " ++ nl ++ "    void LocalParticle_" ++ name ++ vv
   ++ "(LocalParticle* part, " ++ _c_type t ++ " value){"
   ++ nl ++ "  part->" ++ vv ++ "[part->ipart] " ++ op ++ " value;" ++ nl ++ close)%string.

Lemma str_in_list_false (vv : string) (fv : list string) :
  ~ In vv fv -> _str_in_list vv fv = false.
Proof.
  intros H. destruct (_str_in_list vv fv) eqn:E; [|reflexivity].
  now apply str_in_list_In in E.
Qed.

(** X15. For a per-particle field that is not frozen, the setter, the adder and
    the scaler occur in the generated text in code, and once the comments are
    removed each still has its statement ([=], [+=], [*=] on the slot of the
    particle). *)
Theorem unfrozen_mutators_live (freeze_vars : list string) (t : dtype) (vv : string) :
  In (t, vv) per_particle_vars ->
  ~ In vv freeze_vars ->
  (occurs_in_code (join nl (setter_lines freeze_vars (t, vv))) (source freeze_vars) /\
   scan Code (join nl (setter_lines freeze_vars (t, vv)))
   = (live_text "set_" "=" "}" t vv, Code)) /\
  (occurs_in_code (join nl (adder_lines freeze_vars (t, vv))) (source freeze_vars) /\
   scan Code (join nl (adder_lines freeze_vars (t, vv)))
   = (live_text "add_to_" "+=" ("}" ++ nl) t vv, Code)) /\
  (occurs_in_code (join nl (scaler_lines freeze_vars (t, vv))) (source freeze_vars) /\
   scan Code (join nl (scaler_lines freeze_vars (t, vv)))
   = (live_text "scale_" "*=" ("}" ++ nl) t vv, Code)).
Proof.
  intros Hin Hf. apply str_in_list_false in Hf.
  split; [|split]; (split; [first [ now apply setter_occurs | now apply adder_occurs
                                  | now apply scaler_occurs ]|]).
  - by_fields Hin ltac:(unfold setter_lines; rewrite Hf; vm_compute; reflexivity).
  - by_fields Hin ltac:(unfold adder_lines; rewrite Hf; vm_compute; reflexivity).
  - by_fields Hin ltac:(unfold scaler_lines; rewrite Hf; vm_compute; reflexivity).
Qed.

Example unfrozen_mutators_live_witness :
  scan Code (join nl (setter_lines ["x"] (Float64, "zeta")))
  = (live_text "set_" "=" "}" Float64 "zeta", Code).
Proof.
  refine (proj2 (proj1 (unfrozen_mutators_live ["x"] Float64 "zeta" _ _))).
  - cbn. tauto.
  - cbn. intuition discriminate.
Defined.

End GeneratedText.

(** ** [update_delta] on an array of values *)

Section UpdateDeltaArray.

Context {F : Type} {FO : Float64Ops F}.

Lemma map2_map2 (f g1 g2 : F -> F -> F) (l bs : list F) :
  map2 f (map2 g1 l bs) (map2 g2 l bs)
  = map2 (fun d b => f (g1 d b) (g2 d b)) l bs.
Proof.
  revert bs; induction l as [|d l IH]; intros [|b bs]; cbn; congruence.
Qed.

Lemma map_map2 (f : F -> F) (g : F -> F -> F) (l bs : list F) :
  map f (map2 g l bs) = map2 (fun d b => f (g d b)) l bs.
Proof.
  revert bs; induction l as [|d l IH]; intros [|b bs]; cbn; congruence.
Qed.

Lemma map2_fst (l bs : list F) :
  length l = length bs -> map2 (fun d _ => d) l bs = l.
Proof.
  revert bs; induction l as [|d l IH]; intros [|b bs] H; cbn in *;
    try discriminate; [reflexivity|]. f_equal. apply IH. lia.
Qed.

Lemma map2_snd (l bs : list F) :
  length l = length bs -> map2 (fun _ b => b) l bs = bs.
Proof.
  revert bs; induction l as [|d l IH]; intros [|b bs] H; cbn in *;
    try discriminate; [reflexivity|]. f_equal. apply IH. lia.
Qed.

Lemma map2_on_fst (g : F -> F) (l bs : list F) :
  length l = length bs -> map2 (fun d _ => g d) l bs = map g l.
Proof.
  revert bs; induction l as [|d l IH]; intros [|b bs] H; cbn in *;
    try discriminate; [reflexivity|]. f_equal. apply IH. lia.
Qed.

Lemma bop_map2 (f g1 g2 : F -> F -> F) (l bs : list F) :
  bop f (Ok (Array (map2 g1 l bs))) (Ok (Array (map2 g2 l bs)))
  = Ok (Array (map2 (fun d b => f (g1 d b) (g2 d b)) l bs)).
Proof.
  cbn [bop].
  assert (E : length (map2 g1 l bs) = length (map2 g2 l bs)).
  { revert bs; induction l as [|d l IH]; intros [|b bs]; cbn; auto. }
  now rewrite E, Nat.eqb_refl, map2_map2.
Qed.

Lemma bop_scalar_map2 (f : F -> F -> F) (x : F) (g : F -> F -> F) (l bs : list F) :
  bop f (Ok (Scalar x)) (Ok (Array (map2 g l bs)))
  = Ok (Array (map2 (fun d b => f x (g d b)) l bs)).
Proof. cbn [bop]. now rewrite map_map2. Qed.

Lemma bop_map2_scalar (f : F -> F -> F) (y : F) (g : F -> F -> F) (l bs : list F) :
  bop f (Ok (Array (map2 g l bs))) (Ok (Scalar y))
  = Ok (Array (map2 (fun d b => f (g d b) y) l bs)).
Proof. cbn [bop]. now rewrite map_map2. Qed.

Lemma np_sqrt_map2 (g : F -> F -> F) (l bs : list F) :
  np_sqrt (Ok (Array (map2 g l bs)))
  = Ok (Array (map2 (fun d b => fsqrt (g d b)) l bs)).
Proof. cbn [np_sqrt]. now rewrite map_map2. Qed.

Ltac norm_map2 :=
  repeat first [ rewrite bop_map2 | rewrite bop_scalar_map2
               | rewrite bop_map2_scalar | rewrite np_sqrt_map2
               | rewrite truediv_array_r | rewrite truediv_array_l ].

(** The ensemble [update_delta(l)] leaves, [l] an array with one value for
    each visible particle. *)
Definition updated_each (l : list F) (p : Particles F) : Particles F :=
  let beta0 := match assoc "beta0" (per_particle p) with
               | Some (F64 b) => firstn (visible p) b
               | _ => []
               end in
  write_view "psigma" (map2 psigma_of l beta0)
    (write_view "rpp" (map rpp_of l)
       (write_view "rvv" (map2 rvv_of l beta0)
          (write_view "delta" l p))).

Lemma update_delta_each (l : list F) (p : Particles F) :
  wf p -> length l = visible p ->
  update_delta (Array l) p = (updated_each l p, Ok tt).
Proof.
  intros Hwf Hl.
  destruct (wf_float_column p "beta0" Hwf) as (b & Hb & Hbl); [cbn; tauto|].
  destruct (view_len_visible p (length b) Hwf Hbl) as [_ Hn].
  unfold updated_each. rewrite Hb. set (bs := firstn (visible p) b).
  assert (Lbs : length bs = visible p) by (unfold bs; rewrite length_firstn; lia).
  assert (Ll : length l = length bs) by lia.
  unfold update_delta.
  rewrite (bind_ok _ _ _ _ _ (getattr_f_wf p "beta0" b Hwf eq_refl Hb)). fold bs.
  cbv beta. unfold lit.
  replace (Ok (Array bs) : result (npv F))
    with (Ok (Array (map2 (fun _ b0 => b0) l bs)) : result (npv F))
    by (now rewrite map2_snd).
  replace (Ok (Array l) : result (npv F))
    with (Ok (Array (map2 (fun d _ => d) l bs)) : result (npv F))
    by (now rewrite map2_fst).
  norm_map2.
  rewrite (bind_ok _ _ p p (Array (map2 (fun d b0 => (d * b0)%fl) l bs)))
    by reflexivity.
  norm_map2.
  rewrite (bind_ok _ _ p p (Array (map2 ptau_beta0_of l bs))) by reflexivity.
  rewrite (bind_ok _ _ p p (Array (map2 (fun d _ => (of_int 1 + d)%fl) l bs)))
    by reflexivity.
  norm_map2.
  rewrite (bind_ok _ _ p p (Array (map2 rvv_of l bs))) by reflexivity.
  norm_map2.
  rewrite (bind_ok _ _ p p (Array (map2 (fun d _ => rpp_of d) l bs)))
    by reflexivity.
  norm_map2.
  rewrite (bind_ok _ _ p p (Array (map2 psigma_of l bs))) by reflexivity.
  rewrite (map2_on_fst rpp_of l bs Ll).
  assert (S1 : In (Float64, "delta") per_particle_vars) by (cbn; tauto).
  assert (S2 : In (Float64, "rvv") per_particle_vars) by (cbn; tauto).
  assert (S3 : In (Float64, "rpp") per_particle_vars) by (cbn; tauto).
  assert (S4 : In (Float64, "psigma") per_particle_vars) by (cbn; tauto).
  assert (L2 : forall g, length (map2 g l bs) = visible p)
    by (intros g; rewrite map2_length; lia).
  rewrite (bind_ok _ _ _ _ _ (assign_array "delta" l p Hwf S1 Hl)).
  destruct (write_view_wf "delta" l p Hwf S1 Hl) as [Hwf1 Hv1].
  set (p1 := write_view "delta" _ p) in *.
  rewrite (bind_ok _ _ p1 (write_view "rvv" (map2 rvv_of l bs) p1) tt)
    by (apply assign_array; auto; rewrite L2; lia).
  destruct (write_view_wf "rvv" (map2 rvv_of l bs) p1 Hwf1 S2)
    as [Hwf2 Hv2]; [rewrite L2; lia|].
  set (p2 := write_view "rvv" _ p1) in *.
  rewrite (bind_ok _ _ p2 (write_view "rpp" (map rpp_of l) p2) tt)
    by (apply assign_array; auto; rewrite length_map; lia).
  destruct (write_view_wf "rpp" (map rpp_of l) p2 Hwf2 S3)
    as [Hwf3 Hv3]; [rewrite length_map; lia|].
  set (p3 := write_view "rpp" _ p2) in *.
  apply assign_array; auto. rewrite L2. lia.
Qed.

Lemma bop_mismatch (f : F -> F -> F) (l1 l2 : list F) :
  length l1 <> length l2 -> length l1 <> 1%nat -> length l2 <> 1%nat ->
  bop f (Ok (Array l1)) (Ok (Array l2)) = Raise ValueError.
Proof.
  intros H H1 H2. cbn [bop].
  destruct (Nat.eqb_spec (length l1) (length l2)) as [E|_]; [contradiction|].
  destruct l1 as [|x [|x' l1]], l2 as [|y [|y' l2]]; cbn in *;
    try reflexivity; contradiction.
Qed.

End UpdateDeltaArray.

(** X16. [update_delta] with an array of one value for each visible particle
    returns, also where [1. + delta] is zero (the division is numpy's);
    afterwards [delta] reads the array given, [rpp], [rvv] and [psigma] read
    the formulas of the method applied particle by particle, and [beta0] is
    as before. *)
Theorem update_delta_array {F : Type} {FO : Float64Ops F}
  (l : list F) (p : Particles F) :
  wf p -> length l = visible p ->
  exists (beta0 : list F) (p' : Particles F),
    getattr_f "beta0" p = (p, Ok (Array beta0)) /\
    update_delta (Array l) p = (p', Ok tt) /\
    getattr_f "delta" p' = (p', Ok (Array l)) /\
    getattr_f "rvv" p' = (p', Ok (Array (map2 rvv_of l beta0))) /\
    getattr_f "rpp" p' = (p', Ok (Array (map rpp_of l))) /\
    getattr_f "psigma" p' = (p', Ok (Array (map2 psigma_of l beta0))) /\
    getattr_f "beta0" p' = (p', Ok (Array beta0)).
Proof.
  intros Hwf Hl.
  destruct (wf_float_column p "beta0" Hwf) as (b & Hb & Hbl); [cbn; tauto|].
  destruct (view_len_visible p (length b) Hwf Hbl) as [_ Hn].
  pose proof (getattr_f_wf p "beta0" b Hwf eq_refl Hb) as Hget.
  exists (firstn (visible p) b), (updated_each l p).
  split; [exact Hget|]. split; [now apply update_delta_each|].
  unfold updated_each. rewrite Hb. set (bs := firstn (visible p) b) in *.
  assert (Lbs : length bs = visible p) by (unfold bs; rewrite length_firstn; lia).
  assert (S0 : In (Float64, "beta0") per_particle_vars) by (cbn; tauto).
  assert (S1 : In (Float64, "delta") per_particle_vars) by (cbn; tauto).
  assert (S2 : In (Float64, "rvv") per_particle_vars) by (cbn; tauto).
  assert (S3 : In (Float64, "rpp") per_particle_vars) by (cbn; tauto).
  assert (S4 : In (Float64, "psigma") per_particle_vars) by (cbn; tauto).
  assert (L2 : forall g, length (map2 g l bs) = visible p)
    by (intros g; rewrite map2_length; lia).
  destruct (write_view_wf "delta" l p Hwf S1 Hl) as [Hwf1 Hv1].
  set (p1 := write_view "delta" _ p) in *.
  destruct (write_view_wf "rvv" (map2 rvv_of l bs) p1 Hwf1 S2)
    as [Hwf2 Hv2]; [rewrite L2; lia|].
  set (p2 := write_view "rvv" _ p1) in *.
  destruct (write_view_wf "rpp" (map rpp_of l) p2 Hwf2 S3)
    as [Hwf3 Hv3]; [rewrite length_map; lia|].
  set (p3 := write_view "rpp" _ p2) in *.
  assert (M2 : length (map2 rvv_of l bs) = visible p1) by (rewrite L2; lia).
  assert (M3 : length (map rpp_of l) = visible p2) by (rewrite length_map; lia).
  assert (M4 : length (map2 psigma_of l bs) = visible p3) by (rewrite L2; lia).
  split.
  { apply read_other; auto; try discriminate.
    apply read_other; auto; try discriminate.
    apply read_other; auto; try discriminate.
    now apply read_written. }
  split.
  { apply read_other; auto; try discriminate.
    apply read_other; auto; try discriminate.
    now apply read_written. }
  split.
  { apply read_other; auto; try discriminate.
    now apply read_written. }
  split.
  { now apply read_written. }
  apply read_other; auto; try discriminate.
  apply read_other; auto; try discriminate.
  apply read_other; auto; try discriminate.
  apply read_other; auto; try discriminate.
Qed.

Example update_delta_array_witness :
  exists p' : Particles float,
    update_delta (Array [(-1)%float]) (one_particle 0.6%float) = (p', Ok tt) /\
    getattr_f "delta" p' = (p', Ok (Array [(-1)%float])) /\
    getattr_f "rpp" p' = (p', Ok (Array [infinity])).
Proof.
  destruct (update_delta_array [(-1)%float] (one_particle 0.6%float))
    as (beta0 & p' & _ & Hu & Hd & _ & Hp & _).
  - apply one_particle_beta0.
  - reflexivity.
  - exists p'. split; [exact Hu|]. split; [exact Hd|exact Hp].
Defined.

(** X17. [update_delta] with an array whose length is neither one nor the number
    of visible particles (more than one of them): the first product cannot
    be broadcast, the call raises [ValueError] and nothing is written. *)
Theorem update_delta_shape_mismatch {F : Type} {FO : Float64Ops F}
  (l : list F) (p : Particles F) :
  wf p ->
  length l <> visible p -> length l <> 1%nat -> visible p <> 1%nat ->
  update_delta (Array l) p = (p, Raise ValueError).
Proof.
  intros Hwf Hl H1 Hv.
  destruct (getattr_f_shaped p "beta0" Hwf) as (bs & Hb & Lb); [cbn; tauto|].
  unfold update_delta. rewrite (bind_ok _ _ _ _ _ Hb).
  apply bind_raise. unfold lift. f_equal.
  apply bop_mismatch; lia.
Qed.

Example update_delta_shape_mismatch_witness :
  update_delta (Array [1%float; 2%float; 3%float])
    (fst (__init__ (F := float) ContextCpu (Some 2)))
  = (fst (__init__ (F := float) ContextCpu (Some 2)), Raise ValueError).
Proof.
  apply update_delta_shape_mismatch.
  - apply wfb_sound; vm_compute; reflexivity.
  - vm_compute. discriminate.
  - cbn. discriminate.
  - vm_compute. discriminate.
Defined.

(** ** The derived quantities *)

(** X18. The properties [energy0], [energy] and [ptau] change nothing and return
    an array with one entry for each visible particle; [energy0] is
    [sqrt(p0c * p0c + mass0 * mass0)] entry by entry. *)
Theorem derived_properties_read_only {F : Type} {FO : Float64Ops F}
  (p : Particles F) :
  wf p ->
  exists p0c e pt : list F,
    getattr_f "p0c" p = (p, Ok (Array p0c)) /\
    energy0 p
    = (p, Ok (Array (map (fun x => fsqrt (x * x + mass0 p * mass0 p)%fl) p0c))) /\
    energy p = (p, Ok (Array e)) /\ length e = visible p /\
    ptau p = (p, Ok (Array pt)) /\ length pt = visible p.
Proof.
  intros Hwf. set (n := visible p).
  destruct (getattr_f_shaped p "p0c" Hwf) as (ps & Hp & Lp); [cbn; tauto|].
  destruct (getattr_f_shaped p "psigma" Hwf) as (sg & Hs & Ls); [cbn; tauto|].
  destruct (getattr_f_shaped p "beta0" Hwf) as (bs & Hb & Lb); [cbn; tauto|].
  destruct (getattr_f_shaped p "delta" Hwf) as (ds & Hd & Ld); [cbn; tauto|].
  fold n in Lp, Ls, Lb, Ld.
  pose proof (array_arr n ps Lp) as Sp. pose proof (array_arr n sg Ls) as Ss.
  pose proof (array_arr n bs Lb) as Sb. pose proof (array_arr n ds Ld) as Sd.
  assert (E0 : energy0 p
               = (p, Ok (Array (map (fun x => fsqrt (x * x + mass0 p * mass0 p)%fl) ps)))).
  { unfold energy0. rewrite (bind_ok _ _ _ _ _ Hp).
    rewrite (bind_ok _ _ p p (mass0 p)) by reflexivity.
    unfold lift. f_equal.
    replace (Ok (Array ps) : result (npv F))
      with (Ok (Array (map (fun v : F => v) ps)) : result (npv F))
      by (now rewrite map_id).
    rewrite bop_arrays.
    change (bop fmul (Ok (Scalar (mass0 p))) (Ok (Scalar (mass0 p))))
      with (Ok (Scalar (mass0 p * mass0 p)%fl) : result (npv F)).
    now rewrite bop_array_scalar, np_sqrt_array. }
  assert (Se : arr n (Ok (Array (map (fun x => fsqrt (x * x + mass0 p * mass0 p)%fl) ps))))
    by (apply array_arr; now rewrite length_map).
  assert (S1 : arr n (Ok (Array (map (fun x => fsqrt (x * x + mass0 p * mass0 p)%fl) ps))
                      + Ok (Array sg) * Ok (Array ps) * Ok (Array bs))%np)
    by auto 12 with shapes.
  destruct S1 as (e & E1 & L1).
  assert (S2 : arr n (np_sqrt (Ok (Array ds) * Ok (Array ds) + lit 2 * Ok (Array ds)
                               + lit 1 / (Ok (Array bs) * Ok (Array bs)))
                      - lit 1 / Ok (Array bs))%np).
  { apply bop_arr_l; [apply sqrt_arr, bop_arr_l; [apply bop_arr_l|]|];
      auto 12 with shapes. }
  destruct S2 as (pt & E2 & L2).
  exists ps, e, pt. split; [exact Hp|]. split; [exact E0|].
  split; [|split; [exact L1|split; [|exact L2]]].
  - unfold energy. rewrite (bind_ok _ _ _ _ _ E0), (bind_ok _ _ _ _ _ Hs),
      (bind_ok _ _ _ _ _ Hp), (bind_ok _ _ _ _ _ Hb). unfold lift. now rewrite E1.
  - unfold ptau. rewrite (bind_ok _ _ _ _ _ Hd), (bind_ok _ _ _ _ _ Hb).
    unfold lift. now rewrite E2.
Qed.

Example derived_properties_read_only_witness :
  exists e : list float,
    energy (one_particle 0.6%float) = (one_particle 0.6%float, Ok (Array e)) /\
    length e = 1%nat.
Proof.
  destruct (derived_properties_read_only (one_particle 0.6%float))
    as (p0c & e & pt & _ & _ & He & Le & _).
  - apply one_particle_beta0.
  - exists e. split; [exact He|exact Le].
Defined.

(** ** The layout after a merge *)


